(** * GNN training driver (main.py): a shallow embedding and its properties

    The driver is orchestration code over a tensor framework, a graph
    sampling library and a metrics library.  The embedding keeps the control
    flow, the arithmetic on Python numbers and the order of the calls into
    those libraries.  What the libraries answer (the forward pass of the
    network, the batches a sampler yields, the content of a dataset) is a
    field of the record [Framework]; each answer may depend on the whole
    history of calls made so far, which stands for the hidden state of the
    library objects (parameters, optimizer moments, random generators).

    The shape checks of the tensor operations the driver applies are part
    of the embedding: an operation on operands that do not fit raises, as
    the framework does.

    Tensor entries and Python floats are exact rationals ([Q]): rounding,
    overflow to infinity and NaN entries of tensors are not modelled.  An
    equality between numbers below says which expression the driver
    computes; the value a run prints agrees with it up to the rounding of
    the floating-point operations.  The one special float value the driver
    produces by itself, the NaN of a mean over an empty selection, is kept
    ([pyfloat]). *)

From Stdlib Require Import String ZArith QArith Bool Arith Lia Lqa Permutation List.
Import ListNotations.

Local Open Scope nat_scope.

(* ================================================================== *)
(** ** Python values *)

(** Exceptions the driver can end with. *)
Inductive exn : Type :=
| KeyError (msg : string)
| ZeroDivisionError
| TypeError_NoneType_not_callable
| IndexError
| ValueError
| RuntimeError
| FileNotFoundError.

Inductive result (A : Type) : Type :=
| Ok (a : A)
| Raise (e : exn).
Arguments Ok {A} a.
Arguments Raise {A} e.

(** Pure code that can raise. *)
Definition rbind {A B : Type} (r : result A) (k : A -> result B) : result B :=
  match r with
  | Ok a => k a
  | Raise e => Raise e
  end.

(** A Python float: a number, or NaN. *)
Inductive pyfloat : Type :=
| Fin (q : Q)
| NaN.

Definition fadd (a b : pyfloat) : pyfloat :=
  match a, b with
  | Fin p, Fin q => Fin (p + q)%Q
  | _, _ => NaN
  end.

(** [f * n] for a float [f] and an int [n]. *)
Definition fmul_int (a : pyfloat) (n : nat) : pyfloat :=
  match a with
  | Fin p => Fin (p * inject_Z (Z.of_nat n))%Q
  | NaN => NaN
  end.

(** [f / n] for a float [f] and an int [n]: Python raises on [n = 0]. *)
Definition fdiv_int (a : pyfloat) (n : nat) : result pyfloat :=
  match n with
  | O => Raise ZeroDivisionError
  | S _ =>
      Ok (match a with
          | Fin p => Fin (p / inject_Z (Z.of_nat n))%Q
          | NaN => NaN
          end)
  end.

(** [a / b] for two ints (true division). *)
Definition int_truediv (a b : nat) : result Q :=
  match b with
  | O => Raise ZeroDivisionError
  | S _ => Ok (inject_Z (Z.of_nat a) / inject_Z (Z.of_nat b))%Q
  end.

(** [range(lo, lo + n)] *)
Definition range_from (lo : Z) (n : nat) : list Z :=
  map (fun i => (lo + Z.of_nat i)%Z) (seq 0 n).

(** [range(1, stop)] *)
Definition range1 (stop : Z) : list Z := range_from 1 (Z.to_nat (stop - 1)).

(** [dict.get(key)] on a dict with string keys, given as its items. *)
Fixpoint dict_get {V : Type} (d : list (string * V)) (key : string) : option V :=
  match d with
  | [] => None
  | (k, v) :: d' => if String.eqb k key then Some v else dict_get d' key
  end.

(* ================================================================== *)
(** ** Tensors

    A 1-d tensor is a list; a 2-d tensor is a list of rows.  The framework
    checks the shapes of the operands of an operation and raises where they
    do not fit. *)

Fixpoint zip_with {A B C : Type} (f : A -> B -> C) (a : list A) (b : list B) : list C :=
  match a, b with
  | u :: a', v :: b' => f u v :: zip_with f a' b'
  | _, _ => []
  end.

(** An elementwise operation on two 1-d tensors: on operands of one length
    entry by entry; an operand with a single entry is broadcast over the
    other; any other pair of lengths is refused. *)
Definition broadcast {A B C : Type} (f : A -> B -> C) (a : list A) (b : list B)
  : result (list C) :=
  if length a =? length b then Ok (zip_with f a b)
  else match a, b with
       | [u], _ => Ok (map (f u) b)
       | _, [v] => Ok (map (fun u => f u v) a)
       | _, _ => Raise RuntimeError
       end.

(** The entries of [t] at the positions where [mask] is true. *)
Fixpoint masked {A : Type} (t : list A) (mask : list bool) : list A :=
  match t, mask with
  | u :: t', b :: mask' =>
      if b then u :: masked t' mask' else masked t' mask'
  | _, _ => []
  end.

(** [t[mask]] for a boolean mask: the mask must have the length of [t]. *)
Definition index_mask {A : Type} (t : list A) (mask : list bool) : result (list A) :=
  if length t =? length mask then Ok (masked t mask) else Raise IndexError.

(** [mask.sum().item()] *)
Definition sum_bool (t : list bool) : nat := count_occ bool_dec t true.

(** [t.sum()] *)
Definition tensor_sum (t : list Q) : Q := fold_right Qplus 0%Q t.

(** [t.mean()]: NaN on an empty tensor. *)
Definition tensor_mean (t : list Q) : pyfloat :=
  match t with
  | [] => NaN
  | _ :: _ => Fin (tensor_sum t / inject_Z (Z.of_nat (length t)))%Q
  end.

(** [a * b] *)
Definition tensor_mul (a b : list Q) : result (list Q) := broadcast Qmult a b.

(** Minus the entry of each row at the row's target class; a class that is
    not a column of its row is refused. *)
Fixpoint nll_rows (out : list (list Q)) (target : list nat) : result (list Q) :=
  match out, target with
  | row :: out', c :: target' =>
      match nth_error row c with
      | Some v => rbind (nll_rows out' target') (fun r => Ok ((- v)%Q :: r))
      | None => Raise IndexError
      end
  | _, _ => Ok []
  end.

(** [F.nll_loss(out, target, reduction='none')]: there must be one target
    per row. *)
Definition nll_loss_none (out : list (list Q)) (target : list nat) : result (list Q) :=
  if length out =? length target then nll_rows out target else Raise ValueError.

(** [F.nll_loss(out, target)], default reduction: the mean. *)
Definition nll_loss_mean (out : list (list Q)) (target : list nat) : result pyfloat :=
  rbind (nll_loss_none out target) (fun loss => Ok (tensor_mean loss)).

(** Index of the first maximum of [v :: t], scanning from position [i]. *)
Fixpoint argmax_from (best : Q) (besti i : nat) (t : list Q) : nat :=
  match t with
  | [] => besti
  | v :: t' =>
      if Qle_bool v best then argmax_from best besti (S i) t'
      else argmax_from v i (S i) t'
  end.

(** Row-wise [argmax]; the rows of a network output are never empty. *)
Definition argmax (t : list Q) : nat :=
  match t with
  | [] => 0
  | v :: t' => argmax_from v 0 1 t'
  end.

(** [out.argmax(dim=-1)] *)
Definition argmax_rows (out : list (list Q)) : list nat := map argmax out.

(** [pred.eq(y)] *)
Definition tensor_eq (a b : list nat) : result (list bool) := broadcast Nat.eqb a b.

(** [index.select]: [t[index]] for an integer index tensor; out of range
    positions are refused. *)
Fixpoint gather (t : list Q) (index : list nat) : result (list Q) :=
  match index with
  | [] => Ok []
  | i :: index' =>
      match nth_error t i, gather t index' with
      | Some v, Ok r => Ok (v :: r)
      | None, _ => Raise IndexError
      | _, Raise e => Raise e
      end
  end.

(** [torch_geometric.utils.degree(index, num_nodes)]: a zero vector of
    length [num_nodes] to which one is added at every position named in
    [index]; a position outside the vector is refused. *)
Definition degree (index : list nat) (num_nodes : nat) : result (list Q) :=
  if forallb (fun i => i <? num_nodes) index
  then Ok (map (fun v => inject_Z (Z.of_nat (count_occ Nat.eq_dec index v)))
               (seq 0 num_nodes))
  else Raise RuntimeError.

(** [1. / t], elementwise. *)
Definition reciprocal (t : list Q) : list Q := map (fun q => (1 / q)%Q) t.

(* ================================================================== *)
(** ** numpy *)

(** [np.mean] of a 1-d array that has elements. *)
Definition np_mean (a : list Q) : Q :=
  (tensor_sum a / inject_Z (Z.of_nat (length a)))%Q.

(** [a[:, i]] for the array built from a list of rows.  [np.array([])] is
    1-dimensional, so indexing it with two indices is refused. *)
Definition column (rows : list (list Q)) (i : nat) : result (list Q) :=
  match rows with
  | [] => Raise IndexError
  | _ :: _ => Ok (map (fun r => nth i r 0%Q) rows)
  end.

(** [a.max()] *)
Definition np_max (a : list Q) : result Q :=
  match a with
  | [] => Raise ValueError
  | v :: a' => Ok (fold_left (fun m u => if Qle_bool u m then m else u) a' v)
  end.

(** [a.argmax()]: the first position of the maximum. *)
Definition np_argmax (a : list Q) : result nat :=
  match a with
  | [] => Raise ValueError
  | v :: a' => Ok (argmax_from v 0 1 a')
  end.

(** A [.npz] file: a zip archive of named arrays, deflated or only stored. *)
Record Npz : Type := mkNpz {
  npz_compressed : bool;
  npz_arrays : list (string * list Q)
}.

(** The file [np.savez(path, name=array, ...)] writes: the arrays are stored
    as they are ([np.savez_compressed] is the function that deflates). *)
Definition savez_file (arrays : list (string * list Q)) : Npz := mkNpz false arrays.

(* ================================================================== *)
(** ** sklearn.metrics.f1_score(y_true, y_pred, average='macro') *)

Definition count_pairs (p : nat -> nat -> bool) (y_true y_pred : list nat) : nat :=
  length (filter (fun tp => p (fst tp) (snd tp)) (combine y_true y_pred)).

Definition true_pos (c : nat) (y_true y_pred : list nat) : nat :=
  count_pairs (fun t p => (t =? c) && (p =? c)) y_true y_pred.

Definition false_pos (c : nat) (y_true y_pred : list nat) : nat :=
  count_pairs (fun t p => negb (t =? c) && (p =? c)) y_true y_pred.

Definition false_neg (c : nat) (y_true y_pred : list nat) : nat :=
  count_pairs (fun t p => (t =? c) && negb (p =? c)) y_true y_pred.

(** A ratio of counts, 0 where the denominator is 0 (sklearn's
    [zero_division] default). *)
Definition ratio0 (a b : nat) : Q :=
  match b with
  | O => 0%Q
  | S _ => (inject_Z (Z.of_nat a) / inject_Z (Z.of_nat b))%Q
  end.

Definition precision (c : nat) (y_true y_pred : list nat) : Q :=
  ratio0 (true_pos c y_true y_pred)
         (true_pos c y_true y_pred + false_pos c y_true y_pred).

Definition recall (c : nat) (y_true y_pred : list nat) : Q :=
  ratio0 (true_pos c y_true y_pred)
         (true_pos c y_true y_pred + false_neg c y_true y_pred).

(** F1 of one class: the harmonic mean of precision and recall, 0 when
    both are 0. *)
Definition f1_class (c : nat) (y_true y_pred : list nat) : Q :=
  let p := precision c y_true y_pred in
  let r := recall c y_true y_pred in
  if Qeq_bool (p + r) 0 then 0%Q else (2 * p * r / (p + r))%Q.

(** The classes that occur among the true or the predicted labels (sklearn
    sorts them; the order does not change the mean below). *)
Definition unique_labels (y_true y_pred : list nat) : list nat :=
  nodup Nat.eq_dec (y_true ++ y_pred).

(** Macro average: the unweighted mean of the per-class scores.  The driver
    calls it on the labels and the predictions one mask selects (two arrays
    of one length), after the accuracy of the same selection was computed,
    that is on a non-empty selection. *)
Definition f1_score_macro (y_true y_pred : list nat) : Q :=
  np_mean (map (fun c => f1_class c y_true y_pred) (unique_labels y_true y_pred)).

(* ================================================================== *)
(** ** Data model *)

(** A [torch_geometric.data.Data] object: the full graph, or a sampled
    sub-graph.  [node_norm] and [edge_norm] are attached by the samplers and
    are read on sampled batches only. *)
Record Data : Type := mkData {
  x : list (list Q);
  edge_index : list nat * list nat;
  edge_attr : list Q;
  y : list nat;
  train_mask : list bool;
  val_mask : list bool;
  test_mask : list bool;
  node_norm : list Q;
  edge_norm : list Q
}.

Definition num_nodes (data : Data) : nat := length (x data).

(** [data('train_mask', 'val_mask', 'test_mask')], the values in order. *)
Definition masks (data : Data) : list (list bool) :=
  [train_mask data; val_mask data; test_mask data].

Record Dataset : Type := mkDataset {
  dataset_0 : Data;
  num_node_features : nat;
  num_classes : nat;
  processed_dir : string
}.

(** The command line, as [parse_args] returns it (the fields main.py reads). *)
Module Args.
Record t : Type := mk {
  save_log : Z;
  dataset : string;
  sampler : string;
  batch_size : Z;
  use_gpu : Z;
  gcn_type : string;
  epochs : Z;
  train_sample : Z;
  eval_sample : Z;
  loss_norm : Z;
  log_interval : Z
}.
End Args.

Inductive Loader : Type :=
| GraphSAINTRandomWalkSampler
    (data : Data) (batch_size walk_length num_steps sample_coverage : Z)
    (save_dir : string) (num_workers : Z)
| MySAINTSampler (data : Data) (sample_type : string) (batch_size : Z).

Inductive Device : Type := cuda | cpu.

Inductive NetClass : Type := SAGENet | GATNet.

Record Model : Type := mkModel {
  net : NetClass;
  in_channels : nat;
  hidden_channels : nat;
  out_channels : nat;
  device : Device
}.

(** What is handed to [logger.info]. *)
Inductive log_msg : Type :=
| Msg_model_setting (args : Args.t)
| Msg_dataset (name : string)
| Msg_use_rw
| Msg_use_rn
| Msg_gcn_type (name : string)
| Msg_epoch (epoch : Z) (loss : pyfloat) (train_acc train_f1 test_acc test_f1 : Q)
| Msg_results
| Msg_setting (log_name : string)
| Msg_best_acc (best : Q) (epoch : nat) (f1 : Q)
| Msg_best_f1 (best : Q) (epoch : nat) (acc : Q)
| Msg_save_summary
| Msg_save_logs.

(** Arguments of a forward pass: [model(x, edge_index)] or
    [model(x, edge_index, edge_weight)]. *)
Definition fwd_args : Type := (list (list Q) * (list nat * list nat) * option (list Q))%type.

(** The calls the driver makes into the libraries, in the order made. *)
Inductive event : Type :=
| LightLogging_init (log_path : option string) (log_name : string)
| logger_info (m : log_msg)
| Dataset_init (path : string)
| Loader_init (l : Loader)
| Net_init (m : Model)
| Adam_init (lr : Q)
| model_train
| model_eval
| model_set_aggr (aggr : string)
| loader_iter
| optimizer_zero_grad
| model_call (a : fwd_args)
| loss_backward (loss : pyfloat)
| optimizer_step
| np_savez (path : string) (arrays : list (string * list Q)).

Definition history : Type := list event.

(** The libraries and the modules of the repository that main.py imports. *)
Record Framework : Type := mkFramework {
  get_log_name : Args.t -> string -> string;
  script_dir : string;
  Flickr : string -> Dataset;
  Reddit : string -> Dataset;
  cuda_is_available : bool;
  (** the batches one iteration over the loader yields *)
  loader_batches : Loader -> history -> list Data;
  (** the log-probabilities a forward pass returns, one row per node *)
  model_forward : history -> fwd_args -> list (list Q);
  (** how [np.savez] on a path ends: it raises where the file cannot be
      created (the script does not create the directory of the path) *)
  np_savez_result : history -> string -> result unit
}.

(* ================================================================== *)
(** ** The monad of the driver: a history of calls, and exceptions *)

Definition M (A : Type) : Type := history -> history * result A.

Definition ret {A : Type} (a : A) : M A := fun h => (h, Ok a).

Definition bind {A B : Type} (m : M A) (k : A -> M B) : M B :=
  fun h =>
    match m h with
    | (h', Ok a) => k a h'
    | (h', Raise e) => (h', Raise e)
    end.

Definition raise {A : Type} (e : exn) : M A := fun h => (h, Raise e).

Definition lift {A : Type} (r : result A) : M A := fun h => (h, r).

Definition emit (e : event) : M unit := fun h => (h ++ [e], Ok tt).

Definition past : M history := fun h => (h, Ok h).

Declare Scope py_scope.
Delimit Scope py_scope with py.
Notation "v <- m ;; k" := (bind m (fun v => k))
  (at level 61, m at next level, right associativity) : py_scope.
Notation "m ;; k" := (bind m (fun _ => k))
  (at level 61, right associativity) : py_scope.

(** [for a in l: s = body(a, s)] *)
Fixpoint for_each {A S : Type} (l : list A) (body : A -> S -> M S) (s : S) : M S :=
  match l with
  | [] => ret s
  | a :: l' => bind (body a s) (for_each l' body)
  end.

(** [l[i]] on a Python list or 1-d array. *)
Definition list_index (l : list Q) (i : nat) : result Q :=
  match nth_error l i with
  | Some v => Ok v
  | None => Raise IndexError
  end.

(* ================================================================== *)
(** ** main.py *)

Definition log_path : string := "./logs".
Definition summary_path : string := "./summary".

Section Driver.

Variable fw : Framework.

Local Open Scope py_scope.

(** [model(...)]: the answer is the framework's, given the calls so far. *)
Definition call_model (a : fwd_args) : M (list (list Q)) :=
  h <- past ;;
  emit (model_call a) ;;
  ret (model_forward fw h a).

(** Start of [for data in loader]: the batches of the pass, a finite
    sequence, are the framework's answer given the calls so far.
    [data.to(device)] moves a batch and leaves its content unchanged. *)
Definition iterate (loader : Loader) : M (list Data) :=
  h <- past ;;
  emit loader_iter ;;
  ret (loader_batches fw loader h).

(** Body of the loop of [train_sample]; [tot] is
    [(total_loss, total_examples)]. *)
Definition train_sample_body (norm_loss : Z) (data : Data) (tot : pyfloat * nat)
  : M (pyfloat * nat) :=
  emit optimizer_zero_grad ;;
  loss <- (if (norm_loss =? 1)%Z then
             weight <- lift (tensor_mul (edge_norm data) (edge_attr data)) ;;
             out <- call_model (x data, edge_index data, Some weight) ;;
             loss <- lift (nll_loss_none out (y data)) ;;
             weighted <- lift (tensor_mul loss (node_norm data)) ;;
             train <- lift (index_mask weighted (train_mask data)) ;;
             ret (Fin (tensor_sum train))
           else
             out <- call_model (x data, edge_index data, None) ;;
             loss <- lift (nll_loss_none out (y data)) ;;
             train <- lift (index_mask loss (train_mask data)) ;;
             ret (tensor_mean train)) ;;
  emit (loss_backward loss) ;;
  emit optimizer_step ;;
  ret (fadd (fst tot) (fmul_int loss (num_nodes data)),
       snd tot + num_nodes data).

Definition train_sample (loader : Loader) (norm_loss : Z) : M pyfloat :=
  emit model_train ;;
  emit (model_set_aggr "add") ;;
  batches <- iterate loader ;;
  tot <- for_each batches (train_sample_body norm_loss) (Fin 0, 0) ;;
  lift (fdiv_int (fst tot) (snd tot)).

Definition train_full (data : Data) : M pyfloat :=
  emit model_train ;;
  emit (model_set_aggr "mean") ;;
  emit optimizer_zero_grad ;;
  out <- call_model (x data, edge_index data, None) ;;
  out_train <- lift (index_mask out (train_mask data)) ;;
  y_train <- lift (index_mask (y data) (train_mask data)) ;;
  loss <- lift (nll_loss_mean out_train y_train) ;;
  emit (loss_backward loss) ;;
  emit optimizer_step ;;
  ret loss.

(** [for _, mask in data(...): accs.append(correct[mask].sum().item() /
    mask.sum().item())] *)
Fixpoint accs_loop (correct : list bool) (ms : list (list bool)) (accs : list Q)
  : result (list Q) :=
  match ms with
  | [] => Ok accs
  | mask :: ms' =>
      rbind (index_mask correct mask) (fun correct_mask =>
      rbind (int_truediv (sum_bool correct_mask) (sum_bool mask)) (fun a =>
      accs_loop correct ms' (accs ++ [a])))
  end.

(** [for _, mask in data(...): f1_scores.append(f1_score(data.y[mask],
    pred[mask], average='macro'))] *)
Fixpoint f1_loop (data : Data) (pred : list nat) (ms : list (list bool))
  (f1_scores : list Q) : result (list Q) :=
  match ms with
  | [] => Ok f1_scores
  | mask :: ms' =>
      rbind (index_mask (y data) mask) (fun y_true =>
      rbind (index_mask pred mask) (fun y_pred =>
      f1_loop data pred ms' (f1_scores ++ [f1_score_macro y_true y_pred])))
  end.

Definition eval_full (data : Data) : M (list Q * list Q) :=
  emit model_eval ;;
  emit (model_set_aggr "mean") ;;
  out <- call_model (x data, edge_index data, None) ;;
  let pred := argmax_rows out in
  correct <- lift (tensor_eq pred (y data)) ;;
  accs <- lift (accs_loop correct (masks data) []) ;;
  f1_scores <- lift (f1_loop data pred (masks data) []) ;;
  ret (accs, f1_scores).

(** Body of the loop of [eval_sample]; [all] is [(accs_all, f1_scores_all)]. *)
Definition eval_sample_body (norm_loss : Z) (data : Data)
  (all : list (list Q) * list (list Q)) : M (list (list Q) * list (list Q)) :=
  out <- (if (norm_loss =? 1)%Z then
            weight <- lift (tensor_mul (edge_norm data) (edge_attr data)) ;;
            call_model (x data, edge_index data, Some weight)
          else
            call_model (x data, edge_index data, None)) ;;
  let pred := argmax_rows out in
  correct <- lift (tensor_eq pred (y data)) ;;
  accs_batch <- lift (accs_loop correct (masks data) []) ;;
  let accs_all := fst all ++ [accs_batch] in
  f1_scores_batch <- lift (f1_loop data pred (masks data) []) ;;
  let f1_scores_all := snd all ++ [f1_scores_batch] in
  ret (accs_all, f1_scores_all).

(** [for i in range(3): accs.append(np.mean(accs_all[:, i]));
    f1_scores.append(np.mean(f1_scores_all[:, i]))] *)
Fixpoint mean_loop (accs_all f1_scores_all : list (list Q)) (range3 : list nat)
  (res : list Q * list Q) : result (list Q * list Q) :=
  match range3 with
  | [] => Ok res
  | i :: range3' =>
      rbind (column accs_all i) (fun ca =>
      rbind (column f1_scores_all i) (fun cf =>
      mean_loop accs_all f1_scores_all range3'
        (fst res ++ [np_mean ca], snd res ++ [np_mean cf])))
  end.

Definition eval_sample (loader : Loader) (norm_loss : Z) : M (list Q * list Q) :=
  emit model_eval ;;
  emit (model_set_aggr "add") ;;
  batches <- iterate loader ;;
  all <- for_each batches (eval_sample_body norm_loss) ([], []) ;;
  lift (mean_loop (fst all) (snd all) (seq 0 3) ([], [])).

(** Lines 119-126: the dataset named on the command line. *)
Definition select_dataset (args : Args.t) : M Dataset :=
  if String.eqb (Args.dataset args) "flickr" then
    let path := (script_dir fw ++ "/data/Flickr")%string in
    emit (Dataset_init path) ;;
    ret (Flickr fw path)
  else if String.eqb (Args.dataset args) "reddit" then
    let path := (script_dir fw ++ "/data/Reddit")%string in
    emit (Dataset_init path) ;;
    ret (Reddit fw path)
  else
    raise (KeyError "Dataset name error").

(** Lines 129-131: [data.edge_attr = 1. / degree(col, data.num_nodes)[col]]. *)
Definition norm_by_in_degree (data : Data) : result Data :=
  let (row, col) := edge_index data in
  rbind (degree col (num_nodes data)) (fun deg =>
  rbind (gather deg col) (fun deg_col =>
  Ok (mkData (x data) (edge_index data) (reciprocal deg_col) (y data)
             (train_mask data) (val_mask data) (test_mask data)
             (node_norm data) (edge_norm data)))).

(** Lines 133-143: the sampler named on the command line. *)
Definition select_sampler (args : Args.t) (dataset : Dataset) (data : Data)
  : M Loader :=
  if String.eqb (Args.sampler args) "rw" then
    emit (logger_info Msg_use_rw) ;;
    let loader := GraphSAINTRandomWalkSampler data (Args.batch_size args) 2 5 1000
                    (processed_dir dataset) 0 in
    emit (Loader_init loader) ;;
    ret loader
  else if String.eqb (Args.sampler args) "rn" then
    emit (logger_info Msg_use_rn) ;;
    let loader := MySAINTSampler data "node" (Args.batch_size args) in
    emit (Loader_init loader) ;;
    ret loader
  else
    raise (KeyError "Sampler type error").

Definition select_device (args : Args.t) : Device :=
  if (Args.use_gpu args =? 1)%Z then
    if cuda_is_available fw then cuda else cpu
  else cpu.

(** Line 149: [{'sage': SAGENet, 'gat': GATNet}.get(args.gcn_type)]. *)
Definition select_net (args : Args.t) : option NetClass :=
  dict_get [("sage"%string, SAGENet); ("gat"%string, GATNet)] (Args.gcn_type args).

(** Lines 151-153: calling what [select_net] returned. *)
Definition construct_model (Net : option NetClass) (dataset : Dataset) (dev : Device)
  : M Model :=
  match Net with
  | None => raise TypeError_NoneType_not_callable
  | Some cls =>
      let model := mkModel cls (num_node_features dataset) 256 (num_classes dataset) dev in
      emit (Net_init model) ;;
      ret model
  end.

(** The four summary lists:
    [(accs_train, accs_test, f1s_train, f1s_test)]. *)
Record Summary : Type := mkSummary {
  summary_accs_train : list Q;
  summary_accs_test : list Q;
  summary_f1s_train : list Q;
  summary_f1s_test : list Q
}.

(** Body of the epoch loop, lines 161-177. *)
Definition epoch_body (args : Args.t) (data : Data) (loader : Loader)
  (epoch : Z) (s : Summary) : M Summary :=
  loss <- (if (Args.train_sample args =? 1)%Z
           then train_sample loader (Args.loss_norm args)
           else train_full data) ;;
  res <- (if (Args.eval_sample args =? 1)%Z
          then eval_sample loader (Args.loss_norm args)
          else eval_full data) ;;
  let accs := fst res in
  let f1_scores := snd res in
  (if (Args.log_interval args =? 0)%Z then raise ZeroDivisionError
   else if (epoch mod Args.log_interval args =? 0)%Z then
     a0 <- lift (list_index accs 0) ;;
     f0 <- lift (list_index f1_scores 0) ;;
     a2 <- lift (list_index accs 2) ;;
     f2 <- lift (list_index f1_scores 2) ;;
     emit (logger_info (Msg_epoch epoch loss a0 f0 a2 f2))
   else ret tt) ;;
  a0 <- lift (list_index accs 0) ;;
  f0 <- lift (list_index f1_scores 0) ;;
  a2 <- lift (list_index accs 2) ;;
  f2 <- lift (list_index f1_scores 2) ;;
  ret (mkSummary (summary_accs_train s ++ [a0]) (summary_accs_test s ++ [a2])
                 (summary_f1s_train s ++ [f0]) (summary_f1s_test s ++ [f2])).

(** Lines 179-192: the report of the best epochs and the archive. *)
Definition report (log_name : string) (s : Summary) : M unit :=
  emit (logger_info Msg_results) ;;
  emit (logger_info (Msg_setting log_name)) ;;
  best_acc <- lift (np_max (summary_accs_test s)) ;;
  best_acc_at <- lift (np_argmax (summary_accs_test s)) ;;
  f1_there <- lift (list_index (summary_f1s_test s) best_acc_at) ;;
  emit (logger_info (Msg_best_acc best_acc best_acc_at f1_there)) ;;
  best_f1 <- lift (np_max (summary_f1s_test s)) ;;
  best_f1_at <- lift (np_argmax (summary_f1s_test s)) ;;
  acc_there <- lift (list_index (summary_accs_test s) best_f1_at) ;;
  emit (logger_info (Msg_best_f1 best_f1 best_f1_at acc_there)) ;;
  let path := (summary_path ++ "/" ++ log_name ++ ".npz")%string in
  h <- past ;;
  emit (np_savez path [("train_acc"%string, summary_accs_train s);
                       ("test_acc"%string, summary_accs_test s);
                       ("train_f1"%string, summary_f1s_train s);
                       ("test_f1"%string, summary_f1s_test s)]) ;;
  lift (np_savez_result fw h path) ;;
  emit (logger_info Msg_save_summary) ;;
  emit (logger_info Msg_save_logs).

(** The script, from the parsed command line. *)
Definition main (args : Args.t) : M unit :=
  let log_name := get_log_name fw args "test" in
  (if (Args.save_log args =? 1)%Z
   then emit (LightLogging_init (Some log_path) log_name)
   else emit (LightLogging_init None log_name)) ;;
  emit (logger_info (Msg_model_setting args)) ;;
  dataset <- select_dataset args ;;
  emit (logger_info (Msg_dataset (Args.dataset args))) ;;
  data <- lift (norm_by_in_degree (dataset_0 dataset)) ;;
  loader <- select_sampler args dataset data ;;
  let dev := select_device args in
  let Net := select_net args in
  emit (logger_info (Msg_gcn_type (Args.gcn_type args))) ;;
  model <- construct_model Net dataset dev ;;
  emit (Adam_init (1 # 1000)) ;;
  s <- for_each (range1 (Args.epochs args + 1))
         (epoch_body args data loader) (mkSummary [] [] [] []) ;;
  report log_name s.

End Driver.

(* ================================================================== *)
(** ** A small concrete framework, to run the driver on *)

Module Toy.

(** Three nodes, two classes, four edges; one node in each mask.  As the
    dataset holds it, the graph has no edge attributes yet. *)
Definition graph : Data :=
  mkData [[1%Q]; [2%Q]; [3%Q]]
         ([0; 1; 2; 0], [1; 2; 1; 2])
         []
         [0; 1; 0]
         [true; false; false] [false; true; false] [false; false; true]
         [1 # 3; 1 # 3; 1 # 3]%Q
         [1; 1; 1; 1]%Q.

(** The graph once [main] has set its edge attributes: nodes 1 and 2 have
    two incoming edges each. *)
Definition prepared : Data :=
  mkData (x graph) (edge_index graph) [1 # 2; 1 # 2; 1 # 2; 1 # 2]%Q (y graph)
         (train_mask graph) (val_mask graph) (test_mask graph)
         (node_norm graph) (edge_norm graph).

Definition the_dataset : Dataset := mkDataset graph 1 2 "processed".

(** A network that gives class 0 log-probability [-1/4] and class 1
    log-probability [-2], whatever the node. *)
Definition forward (h : history) (a : fwd_args) : list (list Q) :=
  map (fun _ => [- (1 # 4); - (2 # 1)]%Q) (fst (fst a)).

(** A sampler that yields its graph twice per iteration. *)
Definition batches (l : Loader) (h : history) : list Data :=
  match l with
  | GraphSAINTRandomWalkSampler data _ _ _ _ _ _ => [data; data]
  | MySAINTSampler data _ _ => [data; data]
  end.

(** The directory [./summary] exists: [np.savez] can write. *)
Definition fw : Framework :=
  mkFramework (fun _ prefix => prefix) "." (fun _ => the_dataset)
              (fun _ => the_dataset) false batches forward (fun _ _ => Ok tt).

(** The same where the directory [./summary] is missing. *)
Definition fw_no_summary_dir : Framework :=
  mkFramework (fun _ prefix => prefix) "." (fun _ => the_dataset)
              (fun _ => the_dataset) false batches forward
              (fun _ _ => Raise FileNotFoundError).

Definition loader : Loader := MySAINTSampler prepared "node" 1000.

(** [dataset="flickr", sampler="rn", batch_size=1000], sampled training
    and evaluation, a log line every epoch. *)
Definition args (epochs : Z) : Args.t :=
  Args.mk 0 "flickr" "rn" 1000 0 "sage" epochs 1 1 1 1.

End Toy.

(* ================================================================== *)
(** ** Notions the properties are stated with *)

(** The positions a boolean mask selects. *)
Definition selected (mask : list bool) : list nat :=
  filter (fun i => nth i mask false) (seq 0 (length mask)).

(** The sum of [f i] over the positions [idx]. *)
Definition sum_over (idx : list nat) (f : nat -> Q) : Q :=
  fold_right (fun i s => (f i + s)%Q) 0%Q idx.

(** The negative log-likelihood of node [i]: minus the log-probability the
    output gives to the node's own class. *)
Definition nll_at (out : list (list Q)) (target : list nat) (i : nat) : Q :=
  (- nth (nth i target 0%nat) (nth i out []) 0)%Q.

(** Per-node tensors of a batch have one entry per node. *)
Definition per_node (data : Data) : Prop :=
  length (y data) = num_nodes data /\
  length (train_mask data) = num_nodes data /\
  length (val_mask data) = num_nodes data /\
  length (test_mask data) = num_nodes data /\
  length (node_norm data) = num_nodes data.

(** A forward pass returns one row per node. *)
Definition row_per_node (fw : Framework) : Prop :=
  forall h a, length (model_forward fw h a) = length (fst (fst a)).

(** The two per-edge tensors of a batch have one length. *)
Definition per_edge (data : Data) : Prop :=
  length (edge_norm data) = length (edge_attr data).

(** The network gives every node [n] scores, one per class. *)
Definition class_scores (fw : Framework) (n : nat) : Prop :=
  forall h a, Forall (fun row => length row = n) (model_forward fw h a).

(** The labels of a batch are classes below [n]. *)
Definition labels_below (n : nat) (data : Data) : Prop :=
  Forall (fun c => c < n) (y data).

(** A batch the sampled operations accept, for a network with [n] classes. *)
Definition batch_ok (n : nat) (data : Data) : Prop :=
  per_node data /\ per_edge data /\ labels_below n data.

(** The weight of each edge of a batch: its [edge_norm] times its
    [edge_attr]. *)
Definition edge_weight (data : Data) : list Q :=
  map (fun e => (nth e (edge_norm data) 0 * nth e (edge_attr data) 0)%Q)
      (seq 0 (length (edge_attr data))).

(** What a sampled pass hands to the network, by the normalisation flag. *)
Definition sampled_args (norm_loss : Z) (data : Data) : fwd_args :=
  if (norm_loss =? 1)%Z
  then (x data, edge_index data, Some (edge_weight data))
  else (x data, edge_index data, None).

(** The loss of one batch: the [node_norm]-weighted sum of the negative
    log-likelihood over the train nodes when the flag is 1, else its plain
    mean over the train nodes. *)
Definition batch_loss (norm_loss : Z) (out : list (list Q)) (data : Data) : pyfloat :=
  let train := selected (train_mask data) in
  if (norm_loss =? 1)%Z then
    Fin (sum_over train (fun i => nll_at out (y data) i * nth i (node_norm data) 0)%Q)
  else
    match train with
    | [] => NaN
    | _ :: _ => Fin (sum_over train (nll_at out (y data))
                     / inject_Z (Z.of_nat (length train)))%Q
    end.

(** The calls of a sampled training pass over [batches], from history [h]. *)
Fixpoint training_trace (fw : Framework) (norm_loss : Z) (h : history)
  (batches : list Data) : list event :=
  match batches with
  | [] => []
  | data :: rest =>
      let a := sampled_args norm_loss data in
      let out := model_forward fw (h ++ [optimizer_zero_grad]) a in
      let one := [optimizer_zero_grad; model_call a;
                  loss_backward (batch_loss norm_loss out data); optimizer_step] in
      one ++ training_trace fw norm_loss (h ++ one) rest
  end.

(** The losses of the batches of a sampled training pass, batch after
    batch, from history [h]. *)
Fixpoint batch_losses (fw : Framework) (norm_loss : Z) (h : history)
  (batches : list Data) : list pyfloat :=
  match batches with
  | [] => []
  | data :: rest =>
      let a := sampled_args norm_loss data in
      let loss := batch_loss norm_loss (model_forward fw (h ++ [optimizer_zero_grad]) a)
                             data in
      loss :: batch_losses fw norm_loss
                (h ++ [optimizer_zero_grad; model_call a; loss_backward loss;
                       optimizer_step])
                rest
  end.

Definition count_ev (p : event -> bool) (h : history) : nat := length (filter p h).

Definition is_step (e : event) : bool :=
  match e with optimizer_step => true | _ => false end.

(** The aggregation mode in effect at each forward pass among the calls
    [tr], [cur] being the mode in effect before them. *)
Fixpoint aggr_at_calls (cur : option string) (tr : list event) : list (option string) :=
  match tr with
  | [] => []
  | model_set_aggr a :: tr' => aggr_at_calls (Some a) tr'
  | model_call _ :: tr' => cur :: aggr_at_calls cur tr'
  | _ :: tr' => aggr_at_calls cur tr'
  end.

(** The calls a computation makes when started after the history [h]. *)
Definition calls_of {A : Type} (m : M A) (h : history) : list event :=
  skipn (length h) (fst (m h)).

(** A computation only appends calls, and all of them satisfy [P]. *)
Definition adds {A : Type} (P : event -> Prop) (m : M A) : Prop :=
  forall h, exists tr, fst (m h) = h ++ tr /\ Forall P tr.

Definition not_set_aggr (e : event) : Prop :=
  match e with model_set_aggr _ => False | _ => True end.

(** A batch has a node in the mask. *)
Definition node_in_mask (data : Data) (mask : list bool) : Prop :=
  exists i, i < num_nodes data /\ nth i mask false = true.

(** A batch has at least one node of each of the three masks. *)
Definition covers_masks (data : Data) : Prop :=
  Forall (node_in_mask data) (masks data).

(** A batch has no node in one of its masks. *)
Definition misses_a_mask (data : Data) : Prop :=
  Exists (fun mask => sum_bool mask = 0) (masks data).

(** Accuracy on a mask: among the nodes the mask selects, the share of those
    whose predicted class is their label. *)
Definition accuracy (pred target : list nat) (mask : list bool) : Q :=
  (inject_Z (Z.of_nat (length (filter (fun i => nth i pred 0%nat =? nth i target 0%nat)
                                      (selected mask))))
   / inject_Z (Z.of_nat (length (selected mask))))%Q.

(** Among the nodes a mask selects, the number of those of which [p]
    holds. *)
Definition count_selected (mask : list bool) (p : nat -> bool) : nat :=
  length (filter p (selected mask)).

(** F1 of class [c] on a mask: twice the number of selected nodes of class
    [c] that are predicted [c], over the number of selected nodes predicted
    [c] plus the number of selected nodes of class [c]. *)
Definition class_f1 (c : nat) (pred target : list nat) (mask : list bool) : Q :=
  (inject_Z (Z.of_nat
     (2 * count_selected mask (fun i => (nth i pred 0%nat =? c) && (nth i target 0%nat =? c))))
   / inject_Z (Z.of_nat
       (count_selected mask (fun i => nth i pred 0%nat =? c)
        + count_selected mask (fun i => nth i target 0%nat =? c))))%Q.

(** The classes that are the label or the prediction of a selected node, in
    increasing order. *)
Definition classes_on (pred target : list nat) (mask : list bool) : list nat :=
  let idx := selected mask in
  let bound := S (list_max (map (fun i => nth i pred 0%nat) idx
                            ++ map (fun i => nth i target 0%nat) idx)) in
  filter (fun c => existsb (fun i => (nth i pred 0%nat =? c) || (nth i target 0%nat =? c)) idx)
         (seq 0 bound).

(** Macro-F1 on a mask: the unweighted mean, over the classes that occur
    among the labels or the predictions of the selected nodes, of the F1 of
    the class. *)
Definition macro_f1 (pred target : list nat) (mask : list bool) : Q :=
  let classes := classes_on pred target mask in
  (sum_over classes (fun c => class_f1 c pred target mask)
   / inject_Z (Z.of_nat (length classes)))%Q.

(** Position [i] is the first one at which the array [a] takes its maximum
    [m]. *)
Definition first_maximum (a : list Q) (i : nat) (m : Q) : Prop :=
  i < length a /\ nth i a 0%Q = m /\
  (forall v, In v a -> (v <= m)%Q) /\
  (forall k, k < i -> (nth k a 0 < m)%Q).

(** The class a row of scores predicts: the first one with the highest
    score. *)
Definition predicted (row : list Q) (c : nat) : Prop :=
  first_maximum row c (nth c row 0%Q).

(** The macro-F1 as the driver computes it: the score of the labels and the
    predictions the mask selects. *)
Definition f1_on_mask (pred target : list nat) (mask : list bool) : Q :=
  f1_score_macro (masked target mask) (masked pred mask).

(** The outputs of the network in a sampled evaluation pass, batch after
    batch, from history [h]. *)
Fixpoint eval_outputs (fw : Framework) (norm_loss : Z) (h : history)
  (batches : list Data) : list (list (list Q)) :=
  match batches with
  | [] => []
  | data :: rest =>
      let a := sampled_args norm_loss data in
      model_forward fw h a :: eval_outputs fw norm_loss (h ++ [model_call a]) rest
  end.

(** The predictions of a sampled evaluation pass, batch after batch, from
    history [h]. *)
Fixpoint eval_preds (fw : Framework) (norm_loss : Z) (h : history)
  (batches : list Data) : list (list nat) :=
  match batches with
  | [] => []
  | data :: rest =>
      let a := sampled_args norm_loss data in
      argmax_rows (model_forward fw h a)
      :: eval_preds fw norm_loss (h ++ [model_call a]) rest
  end.

(** The [k]-th mask of a batch (0 train, 1 val, 2 test). *)
Definition mask_no (k : nat) (data : Data) : list bool := nth k (masks data) [].

(** Per-batch accuracies and macro-F1 scores on the [k]-th mask. *)
Definition batch_accs (k : nat) (batches : list Data) (preds : list (list nat)) : list Q :=
  map (fun dp => accuracy (snd dp) (y (fst dp)) (mask_no k (fst dp)))
      (combine batches preds).

Definition batch_f1s (k : nat) (batches : list Data) (preds : list (list nat)) : list Q :=
  map (fun dp => f1_on_mask (snd dp) (y (fst dp)) (mask_no k (fst dp)))
      (combine batches preds).

(** The unweighted mean of a list of numbers. *)
Definition arithmetic_mean (l : list Q) : Q :=
  (sum_over (seq 0 (length l)) (fun j => nth j l 0) / inject_Z (Z.of_nat (length l)))%Q.

(** The accuracy as the driver computes it: correct predictions among the
    selected nodes, over the number of selected nodes. *)
Definition acc_ratio (pred target : list nat) (mask : list bool) : Q :=
  (inject_Z (Z.of_nat (sum_bool (masked (zip_with Nat.eqb pred target) mask)))
   / inject_Z (Z.of_nat (sum_bool mask)))%Q.

(** The rows a batch contributes to [accs_all] and [f1_scores_all]. *)
Definition acc_row (pred : list nat) (data : Data) : list Q :=
  map (acc_ratio pred (y data)) (masks data).

Definition f1_row (pred : list nat) (data : Data) : list Q :=
  map (f1_on_mask pred (y data)) (masks data).

(** The mean over the batches of the accuracy on one of the masks, and of
    the macro-F1 on it; [preds] are the predicted classes, batch by batch. *)
Definition mean_accuracy (mask : Data -> list bool) (batches : list Data)
  (preds : list (list nat)) : Q :=
  arithmetic_mean (map (fun dp => accuracy (snd dp) (y (fst dp)) (mask (fst dp)))
                       (combine batches preds)).

Definition mean_macro_f1 (mask : Data -> list bool) (batches : list Data)
  (preds : list (list nat)) : Q :=
  arithmetic_mean (map (fun dp => macro_f1 (snd dp) (y (fst dp)) (mask (fst dp)))
                       (combine batches preds)).

Definition masks_nonempty (data : Data) : Prop :=
  Forall (fun mask => sum_bool mask <> 0) (masks data).

(** In-degree of node [v]: the number of edges [(row, col)] with [col = v]. *)
Definition in_degree (ei : list nat * list nat) (v : nat) : nat :=
  length (filter (fun e => snd e =? v) (combine (fst ei) (snd ei))).

(** [edge_index] is a 2 x E tensor whose targets are nodes of the graph. *)
Definition edges_ok (data : Data) : Prop :=
  length (fst (edge_index data)) = length (snd (edge_index data)) /\
  Forall (fun v => v < num_nodes data) (snd (edge_index data)).

(** *** The start of the script *)

Definition recognized_dataset (args : Args.t) : Prop :=
  Args.dataset args = "flickr"%string \/ Args.dataset args = "reddit"%string.

Definition recognized_sampler (args : Args.t) : Prop :=
  Args.sampler args = "rw"%string \/ Args.sampler args = "rn"%string.

Definition recognized_gcn_type (args : Args.t) : Prop :=
  Args.gcn_type args = "sage"%string \/ Args.gcn_type args = "gat"%string.

Definition dataset_path (fw : Framework) (args : Args.t) : string :=
  if String.eqb (Args.dataset args) "flickr"
  then (script_dir fw ++ "/data/Flickr")%string
  else (script_dir fw ++ "/data/Reddit")%string.

(** The dataset a recognized name stands for. *)
Definition chosen_dataset (fw : Framework) (args : Args.t) : Dataset :=
  if String.eqb (Args.dataset args) "flickr"
  then Flickr fw (dataset_path fw args)
  else Reddit fw (dataset_path fw args).

(** Its graph with [edge_attr] replaced by the reciprocal in-degrees. *)
Definition prepared_graph (fw : Framework) (args : Args.t) : Data :=
  let data := dataset_0 (chosen_dataset fw args) in
  mkData (x data) (edge_index data)
         (map (fun v => (1 / inject_Z (Z.of_nat (in_degree (edge_index data) v)))%Q)
              (snd (edge_index data)))
         (y data) (train_mask data) (val_mask data) (test_mask data)
         (node_norm data) (edge_norm data).

(** The sampler a recognized name stands for. *)
Definition chosen_loader (fw : Framework) (args : Args.t) : Loader :=
  if String.eqb (Args.sampler args) "rw"
  then GraphSAINTRandomWalkSampler (prepared_graph fw args) (Args.batch_size args)
         2 5 1000 (processed_dir (chosen_dataset fw args)) 0
  else MySAINTSampler (prepared_graph fw args) "node" (Args.batch_size args).

(** The calls up to the dataset check. *)
Definition logger_calls (fw : Framework) (args : Args.t) : list event :=
  [LightLogging_init (if (Args.save_log args =? 1)%Z then Some log_path else None)
                     (get_log_name fw args "test");
   logger_info (Msg_model_setting args)].

(** The calls from the dataset check up to the sampler check. *)
Definition dataset_calls (fw : Framework) (args : Args.t) : list event :=
  [Dataset_init (dataset_path fw args);
   logger_info (Msg_dataset (Args.dataset args))].

(** The calls from the sampler check up to the construction of the model. *)
Definition sampler_calls (fw : Framework) (args : Args.t) : list event :=
  [logger_info (if String.eqb (Args.sampler args) "rw" then Msg_use_rw else Msg_use_rn);
   Loader_init (chosen_loader fw args);
   logger_info (Msg_gcn_type (Args.gcn_type args))].

(** Calls that construct, train or evaluate a model. *)
Definition is_model_call (e : event) : bool :=
  match e with
  | LightLogging_init _ _ | logger_info _ | Dataset_init _ | Loader_init _
  | np_savez _ _ => false
  | _ => true
  end.

(** What follows the sampler check in [main]: model, optimizer, epochs and
    report. *)
Definition after_startup (fw : Framework) (args : Args.t) : M unit :=
  bind (construct_model (select_net args) (chosen_dataset fw args) (select_device fw args))
       (fun _ =>
  bind (emit (Adam_init (1 # 1000)))
       (fun _ =>
  bind (for_each (range1 (Args.epochs args + 1))
          (epoch_body fw args (prepared_graph fw args) (chosen_loader fw args))
          (mkSummary [] [] [] []))
       (fun s => report fw (get_log_name fw args "test") s))).

(** A command line naming a dataset the script does not know. *)
Definition Toy_unknown_dataset : Args.t :=
  Args.mk 0 "cora" "rn" 1000 0 "sage" 2 1 1 1 1.

(** A command line naming a network the script does not know. *)
Definition Toy_unknown_gcn : Args.t :=
  Args.mk 0 "flickr" "rn" 1000 0 "gcn" 2 1 1 1 1.

(** *** The epochs and the report *)

Definition is_train (e : event) : bool :=
  match e with model_train => true | _ => false end.

Definition is_eval (e : event) : bool :=
  match e with model_eval => true | _ => false end.

Definition is_savez (e : event) : bool :=
  match e with np_savez _ _ => true | _ => false end.

(** The calls made inside a loop over the batches of a loader. *)
Definition batch_call (e : event) : Prop :=
  match e with
  | loader_iter | optimizer_zero_grad | model_call _ | loss_backward _
  | optimizer_step => True
  | _ => False
  end.

(** A predicate on calls that can only hold of the start of a training
    operation, the start of an evaluation, or the writing of the archive. *)
Definition marks_phases (p : event -> bool) : Prop :=
  forall e, p e = true ->
    e = model_train \/ e = model_eval \/ exists path arrays, e = np_savez path arrays.

(** Every iteration over the loader yields at least one batch, and every
    batch has a node in each of the three masks. *)
Definition loader_good (fw : Framework) (loader : Loader) : Prop :=
  forall h, loader_batches fw loader h <> [] /\
            Forall covers_masks (loader_batches fw loader h).

(** What the operations selected on the command line need to return: a
    network that gives one row of scores per node and one score per class
    of the dataset; for a sampled operation, a loader that always yields
    batches, all of them well-formed and with a node in each mask; for a
    full-graph operation, a graph with one label per node, all of them
    classes of the dataset, and masks of the size of the graph; for the
    full-graph evaluation, a node in each mask. *)
Definition run_conditions (fw : Framework) (args : Args.t) : Prop :=
  let n := num_classes (chosen_dataset fw args) in
  ((Args.train_sample args = 1%Z \/ Args.eval_sample args = 1%Z ->
    loader_good fw (chosen_loader fw args)) /\
   (Args.eval_sample args <> 1%Z ->
    covers_masks (dataset_0 (chosen_dataset fw args)))) /\
  row_per_node fw /\ class_scores fw n /\
  (Args.train_sample args = 1%Z \/ Args.eval_sample args = 1%Z ->
   forall h, Forall (batch_ok n) (loader_batches fw (chosen_loader fw args) h)) /\
  (Args.train_sample args <> 1%Z \/ Args.eval_sample args <> 1%Z ->
   per_node (prepared_graph fw args) /\ labels_below n (prepared_graph fw args)).

(** [np.savez] can write the summary of the run. *)
Definition summary_writable (fw : Framework) (args : Args.t) : Prop :=
  forall h,
    np_savez_result fw h (summary_path ++ "/" ++ get_log_name fw args "test" ++ ".npz")
    = Ok tt.

(** The files the calls [calls], made after the history [before], have
    written: one per call of [np.savez] that did not raise. *)
Fixpoint files_from (fw : Framework) (before : history) (calls : list event)
  : list (string * Npz) :=
  match calls with
  | [] => []
  | e :: rest =>
      match e with
      | np_savez path arrays =>
          match np_savez_result fw before path with
          | Ok _ => [(path, savez_file arrays)]
          | Raise _ => []
          end
      | _ => []
      end ++ files_from fw (before ++ [e]) rest
  end.

Definition files_written (fw : Framework) (h : history) : list (string * Npz) :=
  files_from fw [] h.

(** Whether one of the files written is a compressed archive. *)
Definition compressed_archive_written (fw : Framework) (h : history) : bool :=
  existsb (fun f => npz_compressed (snd f)) (files_written fw h).

(** The training operation and the evaluation selected on the command
    line. *)
Definition train_op (fw : Framework) (args : Args.t) : M pyfloat :=
  if (Args.train_sample args =? 1)%Z
  then train_sample fw (chosen_loader fw args) (Args.loss_norm args)
  else train_full fw (prepared_graph fw args).

Definition eval_op (fw : Framework) (args : Args.t) : M (list Q * list Q) :=
  if (Args.eval_sample args =? 1)%Z
  then eval_sample fw (chosen_loader fw args) (Args.loss_norm args)
  else eval_full fw (prepared_graph fw args).

(** What one epoch produced: the loss of its training operation, then the
    accuracies and the F1 scores of its evaluation. *)
Definition epoch_result : Type := (pyfloat * (list Q * list Q))%type.

Definition accs_of (r : epoch_result) : list Q := fst (snd r).
Definition f1_scores_of (r : epoch_result) : list Q := snd (snd r).

(** The epochs [epochs] ran one after the other from the history [h] and
    left the history [h']: each one trains, which returns a loss, then
    evaluates, which returns three accuracies and three F1 scores, then
    logs its line when it is a multiple of the log interval. *)
Inductive epochs_ran (fw : Framework) (args : Args.t)
  : history -> list Z -> list epoch_result -> history -> Prop :=
| epochs_ran_nil h : epochs_ran fw args h [] [] h
| epochs_ran_cons h epoch rest h1 loss h2 accs f1_scores rs h' :
    train_op fw args h = (h1, Ok loss) ->
    eval_op fw args h1 = (h2, Ok (accs, f1_scores)) ->
    length accs = 3 -> length f1_scores = 3 ->
    epochs_ran fw args
      (h2 ++ (if (epoch mod Args.log_interval args =? 0)%Z
              then [logger_info (Msg_epoch epoch loss (nth 0 accs 0%Q) (nth 0 f1_scores 0%Q)
                                           (nth 2 accs 0%Q) (nth 2 f1_scores 0%Q))]
              else []))
      rest rs h' ->
    epochs_ran fw args h (epoch :: rest) ((loss, (accs, f1_scores)) :: rs) h'.

(** The archive [np.savez] is asked to write. *)
Definition archive (fw : Framework) (args : Args.t)
  (train_acc test_acc train_f1 test_f1 : list Q) : event :=
  np_savez (summary_path ++ "/" ++ get_log_name fw args "test" ++ ".npz")%string
    [("train_acc"%string, train_acc); ("test_acc"%string, test_acc);
     ("train_f1"%string, train_f1); ("test_f1"%string, test_f1)].

(** The epochs named in the per-epoch log lines of a history. *)
Definition logged_epochs (h : history) : list Z :=
  flat_map (fun e => match e with
                     | logger_info (Msg_epoch epoch _ _ _ _ _) => [epoch]
                     | _ => []
                     end) h.

(** The epochs named in the two "best" lines of the final report. *)
Definition reported_best_epochs (h : history) : list nat :=
  flat_map (fun e => match e with
                     | logger_info (Msg_best_acc _ epoch _) => [epoch]
                     | logger_info (Msg_best_f1 _ epoch _) => [epoch]
                     | _ => []
                     end) h.

(** *** Further notions: the training operations *)

(** The nodes of all the batches of a pass. *)
Definition total_nodes (batches : list Data) : nat := list_sum (map num_nodes batches).

(** A batch without any train node. *)
Definition no_train_node (data : Data) : Prop := sum_bool (train_mask data) = 0.

(** The toy graph without train nodes, and a sampler on it. *)
Definition Toy_no_train : Data :=
  mkData (x Toy.prepared) (edge_index Toy.prepared) (edge_attr Toy.prepared)
         (y Toy.prepared)
         [false; false; false] (val_mask Toy.prepared) (test_mask Toy.prepared)
         (node_norm Toy.prepared) (edge_norm Toy.prepared).

Definition Toy_no_train_loader : Loader := MySAINTSampler Toy_no_train "node" 1000.

(** *** Further notions: evaluation *)

(** The calls an evaluation may make. *)
Definition eval_call (e : event) : Prop :=
  match e with
  | model_eval | model_set_aggr _ | loader_iter | model_call _ => True
  | _ => False
  end.

(** A number between 0 and 1. *)
Definition in_unit (q : Q) : Prop := (0 <= q)%Q /\ (q <= 1)%Q.

(** *** Further notions: whole runs *)

(** The calls of one epoch that starts with the summary [s] and ends with
    [s']: a training operation, an evaluation, and the log line when the
    epoch is a multiple of the interval [li]. *)
Inductive epoch_calls (li epoch : Z) (s s' : Summary) : list event -> Prop :=
| epoch_calls_intro (aggr1 aggr2 : string) (tr1 tr2 : list event)
    (loss : pyfloat) (a0 f0 a2 f2 : Q) :
    Forall batch_call tr1 -> Forall batch_call tr2 -> li <> 0%Z ->
    s' = mkSummary (summary_accs_train s ++ [a0]) (summary_accs_test s ++ [a2])
                   (summary_f1s_train s ++ [f0]) (summary_f1s_test s ++ [f2]) ->
    epoch_calls li epoch s s'
      ((model_train :: model_set_aggr aggr1 :: tr1)
       ++ (model_eval :: model_set_aggr aggr2 :: tr2)
       ++ (if (epoch mod li =? 0)%Z
           then [logger_info (Msg_epoch epoch loss a0 f0 a2 f2)] else [])).

(** The calls of the epochs [epochs], from summary [s] to summary [s']. *)
Inductive loop_calls (li : Z) : list Z -> Summary -> Summary -> list event -> Prop :=
| loop_calls_nil s : loop_calls li [] s s []
| loop_calls_cons epoch rest s s1 s' tr tr' :
    epoch_calls li epoch s s1 tr -> loop_calls li rest s1 s' tr' ->
    loop_calls li (epoch :: rest) s s' (tr ++ tr').

(** The starts of training operations and evaluations in a history. *)
Definition phases (h : history) : list event :=
  flat_map (fun e => match e with
                     | model_train | model_eval => [e]
                     | _ => []
                     end) h.

(** The per-epoch log lines of a history: the epoch, then train accuracy,
    train F1, test accuracy and test F1. *)
Definition logged_metrics (h : history) : list (Z * (Q * Q * Q * Q)) :=
  flat_map (fun e => match e with
                     | logger_info (Msg_epoch epoch _ a0 f0 a2 f2) =>
                         [(epoch, (a0, f0, a2, f2))]
                     | _ => []
                     end) h.

(** The calls of the final report for the summary [s]. *)
Definition report_calls (fw : Framework) (args : Args.t) (s : Summary)
  (best_acc : Q) (acc_at : nat) (best_f1 : Q) (f1_at : nat) : list event :=
  [logger_info Msg_results;
   logger_info (Msg_setting (get_log_name fw args "test"));
   logger_info (Msg_best_acc best_acc acc_at (nth acc_at (summary_f1s_test s) 0%Q));
   logger_info (Msg_best_f1 best_f1 f1_at (nth f1_at (summary_accs_test s) 0%Q));
   archive fw args (summary_accs_train s) (summary_accs_test s)
           (summary_f1s_train s) (summary_f1s_test s);
   logger_info Msg_save_summary; logger_info Msg_save_logs].

(** A computation that, when it raises, has not called [np.savez], or has
    called it last and ends with the error of that call. *)
Definition clean_on_raise (fw : Framework) {A : Type} (m : M A) : Prop :=
  forall h h' e, m h = (h', Raise e) ->
  exists tr, h' = h ++ tr /\
    (Forall (fun c => is_savez c = false) tr \/
     exists tr0 path arrays,
       tr = tr0 ++ [np_savez path arrays] /\
       Forall (fun c => is_savez c = false) tr0 /\
       np_savez_result fw (h ++ tr0) path = Raise e).

(** The calls the epoch loop can make. *)
Definition loop_call (e : event) : Prop :=
  match e with
  | model_train | model_eval | model_set_aggr _ | loader_iter | optimizer_zero_grad
  | model_call _ | loss_backward _ | optimizer_step => True
  | logger_info (Msg_epoch _ _ _ _ _ _) => True
  | _ => False
  end.

(** A log line shows what the four arrays hold at the position of its
    epoch, epoch [e] being at position [e - 1]. *)
Definition line_matches (train_acc test_acc train_f1 test_f1 : list Q)
  (line : Z * (Q * Q * Q * Q)) : Prop :=
  let '(epoch, (a0, f0, a2, f2)) := line in
  (1 <= epoch)%Z /\
  nth_error train_acc (Z.to_nat (epoch - 1)) = Some a0 /\
  nth_error train_f1 (Z.to_nat (epoch - 1)) = Some f0 /\
  nth_error test_acc (Z.to_nat (epoch - 1)) = Some a2 /\
  nth_error test_f1 (Z.to_nat (epoch - 1)) = Some f2.

(** The four arrays of a summary hold [n] values each. *)
Definition summary_size (s : Summary) (n : nat) : Prop :=
  length (summary_accs_train s) = n /\ length (summary_accs_test s) = n /\
  length (summary_f1s_train s) = n /\ length (summary_f1s_test s) = n.

(** A command line with a log interval of 0. *)
Definition Toy_zero_interval : Args.t :=
  Args.mk 0 "flickr" "rn" 1000 0 "sage" 2 1 1 1 0.

(** *** Further notions: the loss of a pass *)

(** Equality of floats as numbers. *)
Definition feq (a b : pyfloat) : Prop :=
  match a, b with
  | Fin p, Fin q => (p == q)%Q
  | NaN, NaN => True
  | _, _ => False
  end.

(** The losses handed to [backward], in order. *)
Definition backward_losses (h : history) : list pyfloat :=
  flat_map (fun e => match e with loss_backward l => [l] | _ => [] end) h.

(** The forward passes of a history, in order. *)
Definition forward_passes (h : history) : list fwd_args :=
  flat_map (fun e => match e with model_call a => [a] | _ => [] end) h.

(** The sum of the losses, each multiplied by the size of its batch. *)
Fixpoint weighted_sum (losses : list pyfloat) (sizes : list nat) : pyfloat :=
  match losses, sizes with
  | l :: losses', n :: sizes' => fadd (fmul_int l n) (weighted_sum losses' sizes')
  | _, _ => Fin 0
  end.

(** *** Further notions: the passes of a sampled evaluation *)



(** A call that hands no edge weight to the network. *)
Definition unweighted_call (e : event) : Prop :=
  match e with
  | model_call a => snd a = None
  | _ => True
  end.

(** *** What the checked operations compute on operands that fit *)

(** The per-node negative log-likelihoods, as a tensor. *)
Definition nll_terms (out : list (list Q)) (target : list nat) : list Q :=
  zip_with (fun row c => (- nth c row 0)%Q) out target.

(** *** Further notions: per-edge tensors that do not fit *)

(** The two per-edge tensors of a batch cannot be multiplied: they differ in
    length and neither has a single entry. *)
Definition edges_clash (data : Data) : Prop :=
  length (edge_norm data) <> length (edge_attr data) /\
  length (edge_norm data) <> 1 /\ length (edge_attr data) <> 1.

(** A sampler on the toy graph as the dataset holds it, without edge
    attributes. *)
Definition Toy_raw_loader : Loader := MySAINTSampler Toy.graph "node" 1000.

(* ================================================================== *)
(** * Properties *)

(** ** Runs of the monad *)

Lemma bind_ok {A B : Type} (m : M A) (k : A -> M B) h h' a :
  m h = (h', Ok a) -> bind m k h = k a h'.
Proof. intros E. unfold bind. now rewrite E. Qed.

Lemma bind_raise {A B : Type} (m : M A) (k : A -> M B) h h' e :
  m h = (h', Raise e) -> bind m k h = (h', Raise e).
Proof. intros E. unfold bind. now rewrite E. Qed.

Lemma app_one {A : Type} (l : list A) a r : (l ++ [a]) ++ r = l ++ a :: r.
Proof. now rewrite <- app_assoc. Qed.

(** ** Masks and positions *)

Lemma selected_cons b mask :
  selected (b :: mask) = (if b then [0] else []) ++ map S (selected mask).
Proof.
  unfold selected. cbn [length seq filter nth].
  rewrite <- seq_shift, filter_map_swap.
  destruct b; reflexivity.
Qed.

Lemma masked_selected {A : Type} (d : A) (t : list A) :
  forall mask, length t = length mask ->
  masked t mask = map (fun i => nth i t d) (selected mask).
Proof.
  induction t as [|u t IH]; intros [|b mask] L; try discriminate; try reflexivity.
  rewrite selected_cons. cbn [masked]. injection L as L.
  rewrite map_app, map_map, (IH _ L). destruct b; reflexivity.
Qed.

Lemma index_mask_ok {A : Type} (t : list A) mask :
  length t = length mask -> index_mask t mask = Ok (masked t mask).
Proof. intros L. unfold index_mask. now rewrite L, Nat.eqb_refl. Qed.

Lemma index_mask_refused {A : Type} (t : list A) mask :
  length t <> length mask -> index_mask t mask = Raise IndexError.
Proof.
  intros L. unfold index_mask. apply Nat.eqb_neq in L. now rewrite L.
Qed.

Lemma broadcast_same {A B C : Type} (f : A -> B -> C) a b :
  length a = length b -> broadcast f a b = Ok (zip_with f a b).
Proof. intros L. unfold broadcast. now rewrite L, Nat.eqb_refl. Qed.

Lemma nll_rows_ok n out :
  forall target, length out = length target ->
  Forall (fun row => length row = n) out -> Forall (fun c => c < n) target ->
  nll_rows out target = Ok (nll_terms out target).
Proof.
  unfold nll_terms.
  induction out as [|row out IH]; intros [|c target] L Ho Ht; try discriminate;
    [reflexivity|].
  inversion Ho as [|? ? Hr Ho']; inversion Ht as [|? ? Hc Ht']; subst.
  injection L as L. cbn [nll_rows zip_with].
  destruct (nth_error row c) as [v|] eqn:E.
  - rewrite (IH _ L Ho' Ht'). cbn [rbind]. now rewrite (nth_error_nth _ _ _ E).
  - apply nth_error_None in E. lia.
Qed.

Lemma nll_loss_none_ok n out target :
  length out = length target ->
  Forall (fun row => length row = n) out -> Forall (fun c => c < n) target ->
  nll_loss_none out target = Ok (nll_terms out target).
Proof.
  intros L Ho Ht. unfold nll_loss_none. rewrite L, Nat.eqb_refl.
  now apply (nll_rows_ok n).
Qed.

Lemma tensor_sum_map (idx : list nat) (f : nat -> Q) :
  tensor_sum (map f idx) = sum_over idx f.
Proof.
  unfold tensor_sum, sum_over.
  induction idx as [|i idx IH]; simpl; [reflexivity | now rewrite IH].
Qed.

Lemma zip_with_length {A B C : Type} (f : A -> B -> C) a :
  forall b, length a = length b -> length (zip_with f a b) = length a.
Proof.
  induction a as [|u a IH]; intros [|v b] L; try discriminate; cbn; [reflexivity|].
  injection L as L. now rewrite IH.
Qed.

Lemma zip_with_nth {A B C : Type} (f : A -> B -> C) da db dc a :
  forall b i, length a = length b -> i < length a ->
  nth i (zip_with f a b) dc = f (nth i a da) (nth i b db).
Proof.
  induction a as [|u a IH]; intros [|v b] i L Hi; try discriminate; cbn in *; [lia|].
  destruct i; [reflexivity|]. injection L as L. apply IH; [assumption | lia].
Qed.

Lemma selected_lt mask i : In i (selected mask) -> i < length mask.
Proof.
  unfold selected. rewrite filter_In, in_seq. lia.
Qed.


Lemma sum_bool_selected mask : sum_bool mask = length (selected mask).
Proof.
  induction mask as [|b mask IH]; [reflexivity|].
  rewrite selected_cons, length_app, length_map, <- IH.
  unfold sum_bool. cbn [count_occ].
  destruct b.
  - destruct (bool_dec true true) as [_|N]; [reflexivity | now elim N].
  - destruct (bool_dec false true) as [E|_]; [discriminate E | reflexivity].
Qed.

Lemma sum_over_ext idx (f g : nat -> Q) :
  (forall i, In i idx -> f i = g i) -> sum_over idx f = sum_over idx g.
Proof.
  unfold sum_over. induction idx as [|i idx IH]; intros E; simpl; [reflexivity|].
  rewrite (E i (or_introl eq_refl)), IH; [reflexivity|].
  intros j Hj. apply E. now right.
Qed.

Lemma nll_terms_nth out target i :
  length out = length target -> i < length out ->
  nth i (nll_terms out target) 0%Q = nll_at out target i.
Proof.
  intros L Hi. unfold nll_terms, nll_at.
  now rewrite (zip_with_nth _ [] 0 0%Q) by assumption.
Qed.

Lemma weighted_sum_by_position out target w mask :
  length out = length target -> length w = length out -> length mask = length out ->
  tensor_sum (masked (zip_with Qmult (nll_terms out target) w) mask)
  = sum_over (selected mask) (fun i => nll_at out target i * nth i w 0)%Q.
Proof.
  intros L1 L2 L3.
  assert (Ln : length (nll_terms out target) = length out)
    by (unfold nll_terms; now apply zip_with_length).
  rewrite (masked_selected 0%Q), tensor_sum_map.
  - apply sum_over_ext. intros i Hi. apply selected_lt in Hi.
    rewrite (zip_with_nth _ 0%Q 0%Q 0%Q) by lia.
    rewrite nll_terms_nth by lia. reflexivity.
  - rewrite zip_with_length; lia.
Qed.

Lemma masked_mean_by_position out target mask :
  length out = length target -> length mask = length out ->
  tensor_mean (masked (nll_terms out target) mask)
  = match selected mask with
    | [] => NaN
    | _ :: _ => Fin (sum_over (selected mask) (nll_at out target)
                     / inject_Z (Z.of_nat (length (selected mask))))%Q
    end.
Proof.
  intros L1 L2.
  assert (Ln : length (nll_terms out target) = length out)
    by (unfold nll_terms; now apply zip_with_length).
  rewrite (masked_selected 0%Q) by lia.
  assert (E : sum_over (selected mask) (fun i => nth i (nll_terms out target) 0%Q)
              = sum_over (selected mask) (nll_at out target)).
  { apply sum_over_ext. intros i Hi. apply selected_lt in Hi.
    apply nll_terms_nth; lia. }
  destruct (selected mask) as [|i idx] eqn:S; [reflexivity|].
  unfold tensor_mean. cbn [map]. 
  change (nth i (nll_terms out target) 0%Q
          :: map (fun i0 => nth i0 (nll_terms out target) 0%Q) idx)
    with (map (fun i0 => nth i0 (nll_terms out target) 0%Q) (i :: idx)).
  now rewrite tensor_sum_map, length_map, E.
Qed.

(** ** The small framework *)

Lemma toy_row_per_node : row_per_node Toy.fw.
Proof. intros h a. cbn. unfold Toy.forward. apply length_map. Qed.

Lemma toy_class_scores : class_scores Toy.fw 2.
Proof.
  intros h a. cbn. unfold Toy.forward. apply Forall_forall.
  intros row Hr. apply in_map_iff in Hr as (u & <- & _). reflexivity.
Qed.


Lemma toy_prepared_ok : batch_ok 2 Toy.prepared.
Proof.
  split; [repeat split|]. split; [reflexivity|].
  unfold labels_below. cbn. repeat constructor.
Qed.

Lemma toy_batches_ok (h : history) :
  Forall (batch_ok 2) (loader_batches Toy.fw Toy.loader h).
Proof. cbn. repeat (constructor; [exact toy_prepared_ok|]). constructor. Qed.

Lemma Forall_batch_ok n batches :
  Forall (batch_ok n) batches ->
  Forall per_node batches /\ Forall per_edge batches /\ Forall (labels_below n) batches.
Proof.
  induction 1 as [|d rest (P & E & L) _ (IP & IE & IL)]; [repeat constructor|].
  repeat split; constructor; assumption.
Qed.

(** ** The first maximum of a row *)

Lemma argmax_from_spec t :
  forall pre best besti,
  besti < length pre -> nth besti pre 0%Q = best ->
  (forall v, In v pre -> (v <= best)%Q) ->
  let i := argmax_from best besti (length pre) t in
  let m := fold_left (fun m u => if Qle_bool u m then m else u) t best in
  i < length (pre ++ t) /\ nth i (pre ++ t) 0%Q = m /\
  forall v, In v (pre ++ t) -> (v <= m)%Q.
Proof.
  induction t as [|v t IH]; intros pre best besti Hb Hn Hle; cbn zeta.
  - cbn [argmax_from fold_left]. rewrite app_nil_r. auto.
  - cbn [argmax_from fold_left].
    replace (S (length pre)) with (length (pre ++ [v]))
      by (rewrite length_app; cbn; lia).
    replace (pre ++ v :: t) with ((pre ++ [v]) ++ t) by (now rewrite <- app_assoc).
    destruct (Qle_bool v best) eqn:E.
    + apply IH.
      * rewrite length_app. lia.
      * now rewrite app_nth1.
      * intros u Hu. apply in_app_or in Hu as [Hu|[<-|[]]]; [now apply Hle|].
        now apply Qle_bool_iff.
    + assert (Hlt : (best < v)%Q).
      { apply Qnot_le_lt. intros H. apply Qle_bool_iff in H. congruence. }
      apply IH.
      * rewrite length_app. cbn. lia.
      * now rewrite nth_middle.
      * intros u Hu. apply in_app_or in Hu as [Hu|[<-|[]]].
        -- eapply Qle_trans; [now apply Hle | now apply Qlt_le_weak].
        -- apply Qle_refl.
Qed.

Lemma argmax_from_first t :
  forall pre best besti,
  besti < length pre -> nth besti pre 0%Q = best ->
  (forall v, In v pre -> (v <= best)%Q) ->
  (forall k, k < besti -> (nth k pre 0 < best)%Q) ->
  forall k, k < argmax_from best besti (length pre) t ->
  (nth k (pre ++ t) 0
   < fold_left (fun m u => if Qle_bool u m then m else u) t best)%Q.
Proof.
  induction t as [|v t IH]; intros pre best besti Hb Hn Hle Hf k Hk.
  - cbn [argmax_from fold_left] in *. rewrite app_nil_r. now apply Hf.
  - cbn [argmax_from fold_left] in *.
    replace (S (length pre)) with (length (pre ++ [v])) in Hk
      by (rewrite length_app; cbn; lia).
    replace (pre ++ v :: t) with ((pre ++ [v]) ++ t) by (now rewrite <- app_assoc).
    destruct (Qle_bool v best) eqn:E.
    + apply (IH (pre ++ [v]) best besti); try assumption.
      * rewrite length_app. lia.
      * now rewrite app_nth1.
      * intros u Hu. apply in_app_or in Hu as [Hu|[<-|[]]]; [now apply Hle|].
        now apply Qle_bool_iff.
      * intros j Hj. rewrite app_nth1 by lia. now apply Hf.
    + assert (Hlt : (best < v)%Q).
      { apply Qnot_le_lt. intros H. apply Qle_bool_iff in H. congruence. }
      apply (IH (pre ++ [v]) v (length pre)); try assumption.
      * rewrite length_app. cbn. lia.
      * now rewrite nth_middle.
      * intros u Hu. apply in_app_or in Hu as [Hu|[<-|[]]].
        -- eapply Qle_trans; [now apply Hle | now apply Qlt_le_weak].
        -- apply Qle_refl.
      * intros j Hj. rewrite app_nth1 by lia.
        eapply Qle_lt_trans; [apply Hle; now apply nth_In | exact Hlt].
Qed.

Lemma argmax_predicted row : row <> [] -> predicted row (argmax row).
Proof.
  destruct row as [|v t]; [congruence|]. intros _. unfold predicted, argmax.
  destruct (argmax_from_spec t [v] v 0) as (L & V & U);
    [cbn; lia | reflexivity | intros u [<-|[]]; apply Qle_refl |].
  pose proof (argmax_from_first t [v] v 0) as F.
  cbn [length app] in *.
  repeat split.
  - exact L.
  - intros u Hu. rewrite V. now apply U.
  - intros k Hk. rewrite V. apply F; try assumption.
    + cbn. lia.
    + reflexivity.
    + intros u [<-|[]]. apply Qle_refl.
    + intros j Hj. lia.
Qed.

Lemma predicted_unique row c c' : predicted row c -> predicted row c' -> c = c'.
Proof.
  intros (L & _ & U & F) (L' & _ & U' & F').
  destruct (Nat.lt_trichotomy c c') as [H|[H|H]]; [|assumption|].
  - exfalso. pose proof (F' c H) as Lt.
    pose proof (U (nth c' row 0%Q) (nth_In _ _ L')) as Le.
    exact (Qlt_not_le _ _ Lt Le).
  - exfalso. pose proof (F c' H) as Lt.
    pose proof (U' (nth c row 0%Q) (nth_In _ _ L)) as Le.
    exact (Qlt_not_le _ _ Lt Le).
Qed.

Lemma predicted_rows out pred :
  Forall2 predicted out pred -> pred = argmax_rows out.
Proof.
  induction 1 as [|row c out pred Hc _ IH]; [reflexivity|].
  cbn [argmax_rows map]. fold (argmax_rows out). rewrite <- IH. f_equal.
  apply (predicted_unique row); [exact Hc|].
  apply argmax_predicted. destruct Hc as (L & _). destruct row; [cbn in L; lia | discriminate].
Qed.

(** ** Sampled training *)

Lemma zip_with_by_position {A B C : Type} (f : A -> B -> C) da db (a : list A) :
  forall b, length a = length b ->
  zip_with f a b = map (fun i => f (nth i a da) (nth i b db)) (seq 0 (length b)).
Proof.
  induction a as [|u a IH]; intros [|v b] L; try discriminate; [reflexivity|].
  injection L as L. cbn [zip_with length seq map nth].
  now rewrite (IH _ L), <- seq_shift, map_map.
Qed.

Lemma edge_weight_product data :
  per_edge data ->
  tensor_mul (edge_norm data) (edge_attr data) = Ok (edge_weight data).
Proof.
  intros L. unfold tensor_mul. rewrite (broadcast_same _ _ _ L).
  now rewrite (zip_with_by_position Qmult 0%Q 0%Q _ _ L).
Qed.

(** One step of the loop on a batch that fits: the four calls, with the
    loss of the batch. *)
Lemma train_sample_body_run fw n nl data tot h :
  let out := model_forward fw (h ++ [optimizer_zero_grad]) (sampled_args nl data) in
  length out = num_nodes data -> Forall (fun row => length row = n) out ->
  per_node data -> (nl = 1%Z -> per_edge data) -> labels_below n data ->
  train_sample_body fw nl data tot h
  = (h ++ [optimizer_zero_grad; model_call (sampled_args nl data);
           loss_backward (batch_loss nl out data); optimizer_step],
     Ok (fadd (fst tot) (fmul_int (batch_loss nl out data) (num_nodes data)),
         snd tot + num_nodes data)).
Proof.
  intros out Lo Ho (Ly & Lt & _ & _ & Ln) Le Hy. subst out.
  unfold train_sample_body, sampled_args, batch_loss in *.
  destruct (Z.eqb_spec nl 1) as [E|N].
  - unfold bind at 1, emit at 1. unfold bind at 1. unfold bind at 1, lift at 1.
    rewrite (edge_weight_product data (Le E)).
    unfold bind at 1, call_model at 1, bind at 1, past at 1, bind at 1, emit at 1, ret at 1.
    set (out := model_forward fw (h ++ [optimizer_zero_grad])
                  (x data, edge_index data, Some (edge_weight data))) in *.
    unfold bind at 1, lift at 1.
    rewrite (nll_loss_none_ok n out (y data)) by (assumption || congruence).
    assert (Lw : length (nll_terms out (y data)) = length (node_norm data)).
    { unfold nll_terms. rewrite zip_with_length; congruence. }
    unfold bind at 1, lift at 1, tensor_mul. rewrite (broadcast_same _ _ _ Lw).
    unfold bind at 1, lift at 1.
    rewrite index_mask_ok by (rewrite zip_with_length; congruence).
    unfold ret at 1, bind, emit, ret. cbn [fst snd].
    rewrite weighted_sum_by_position by congruence.
    rewrite !app_one. reflexivity.
  - unfold bind at 1, emit at 1. unfold bind at 1.
    unfold bind at 1, call_model at 1, bind at 1, past at 1, bind at 1, emit at 1, ret at 1.
    set (out := model_forward fw (h ++ [optimizer_zero_grad])
                  (x data, edge_index data, None)) in *.
    unfold bind at 1, lift at 1.
    rewrite (nll_loss_none_ok n out (y data)) by (assumption || congruence).
    unfold bind at 1, lift at 1.
    rewrite index_mask_ok by (unfold nll_terms; rewrite zip_with_length; congruence).
    unfold ret at 1, bind, emit, ret. cbn [fst snd].
    rewrite masked_mean_by_position by congruence.
    rewrite !app_one. reflexivity.
Qed.

(** One step of the loop, whenever it does not raise: the four calls. *)
Lemma train_sample_body_returns fw nl data tot h h' tot' :
  train_sample_body fw nl data tot h = (h', Ok tot') ->
  exists a loss,
    h' = h ++ [optimizer_zero_grad; model_call a; loss_backward loss; optimizer_step] /\
    tot' = (fadd (fst tot) (fmul_int loss (num_nodes data)), snd tot + num_nodes data).
Proof.
  unfold train_sample_body, call_model, bind, emit, past, ret, lift.
  destruct (nl =? 1)%Z.
  - destruct (tensor_mul (edge_norm data) (edge_attr data)) as [w|e]; [|discriminate].
    destruct (nll_loss_none _ _) as [l|e]; [|discriminate].
    destruct (tensor_mul l _) as [lw|e]; [|discriminate].
    destruct (index_mask lw _) as [t|e]; [|discriminate].
    intros [= <- <-]. eexists. eexists. rewrite !app_one. split; reflexivity.
  - destruct (nll_loss_none _ _) as [l|e]; [|discriminate].
    destruct (index_mask l _) as [t|e]; [|discriminate].
    intros [= <- <-]. eexists. eexists. rewrite !app_one. split; reflexivity.
Qed.

Lemma train_loop_trace fw n nl :
  row_per_node fw -> class_scores fw n ->
  forall batches tot h,
  Forall per_node batches -> (nl = 1%Z -> Forall per_edge batches) ->
  Forall (labels_below n) batches ->
  exists loss,
    for_each batches (train_sample_body fw nl) tot h
    = (h ++ training_trace fw nl h batches,
       Ok (loss, snd tot + list_sum (map num_nodes batches))).
Proof.
  intros Hf Hc. induction batches as [|data rest IH]; intros tot h Hb He Hy.
  - exists (fst tot). cbn. rewrite app_nil_r, Nat.add_0_r. now destruct tot.
  - inversion Hb as [|? ? Hd Hr]; inversion Hy as [|? ? Hyd Hyr]; subst.
    assert (Hed : nl = 1%Z -> per_edge data)
      by (intros E; specialize (He E); now inversion He).
    assert (Her : nl = 1%Z -> Forall per_edge rest)
      by (intros E; specialize (He E); now inversion He).
    pose proof (train_sample_body_run fw n nl data tot h) as E. cbv zeta in E.
    assert (Lo : length (model_forward fw (h ++ [optimizer_zero_grad])
                           (sampled_args nl data)) = num_nodes data).
    { rewrite Hf. unfold sampled_args. now destruct (nl =? 1)%Z. }
    specialize (E Lo).
    cbn [for_each].

    rewrite (bind_ok _ _ _ _ _ (E (Hc _ _) Hd Hed Hyd)).
    match goal with
    | |- context [for_each rest _ ?t ?hh] => destruct (IH t hh Hr Her Hyr) as (loss & E')
    end.
    exists loss. rewrite E'. cbn [training_trace snd map list_sum fold_right].
    rewrite <- app_assoc. do 3 f_equal. unfold list_sum. lia.
Qed.

(** A pass over the batches that does not raise took one optimizer step per
    batch. *)
Lemma train_loop_steps fw nl :
  forall batches tot h h' tot',
  for_each batches (train_sample_body fw nl) tot h = (h', Ok tot') ->
  snd tot' = snd tot + list_sum (map num_nodes batches) /\
  count_ev is_step h' = count_ev is_step h + length batches.
Proof.
  induction batches as [|data rest IH]; intros tot h h' tot' H.
  - cbn in H. injection H as <- <-. cbn. split; lia.
  - cbn [for_each] in H. unfold bind at 1 in H.
    destruct (train_sample_body fw nl data tot h) as [h1 [tot1|e]] eqn:E;
      [|discriminate H].
    apply train_sample_body_returns in E as (a & loss & -> & ->).
    apply IH in H as (S1 & S2). split.
    + rewrite S1. unfold list_sum. cbn [snd map fold_right]. lia.
    + rewrite S2. unfold count_ev. rewrite filter_app, length_app. cbn. lia.
Qed.

Lemma train_sample_run fw loader nl h :
  train_sample fw loader nl h
  = match for_each (loader_batches fw loader (h ++ [model_train; model_set_aggr "add"]))
            (train_sample_body fw nl) (Fin 0, 0)
            (h ++ [model_train; model_set_aggr "add"; loader_iter]) with
    | (h', Ok tot) => (h', fdiv_int (fst tot) (snd tot))
    | (h', Raise e) => (h', Raise e)
    end.
Proof.
  unfold train_sample, iterate, bind, emit, past, ret, lift. cbn.
  rewrite <- !app_assoc. reflexivity.
Qed.

(** ** What a computation adds to the history *)

Lemma adds_ret {A : Type} (P : event -> Prop) (a : A) : adds P (ret a).
Proof. intros h. exists []. cbn. now rewrite app_nil_r. Qed.

Lemma adds_lift {A : Type} (P : event -> Prop) (r : result A) : adds P (lift r).
Proof. intros h. exists []. cbn. now rewrite app_nil_r. Qed.

Lemma adds_raise {A : Type} (P : event -> Prop) e : adds P (@raise A e).
Proof. intros h. exists []. cbn. now rewrite app_nil_r. Qed.

Lemma adds_emit (P : event -> Prop) e : P e -> adds P (emit e).
Proof. intros He h. exists [e]. cbn. auto. Qed.

Lemma adds_bind {A B : Type} (P : event -> Prop) (m : M A) (k : A -> M B) :
  adds P m -> (forall a, adds P (k a)) -> adds P (bind m k).
Proof.
  intros Hm Hk h. destruct (Hm h) as (tr & E & F). unfold bind.
  destruct (m h) as [h1 [a|e]]; cbn in E; subst h1.
  - destruct (Hk a (h ++ tr)) as (tr' & E' & F'). exists (tr ++ tr').
    rewrite E', app_assoc. split; [reflexivity | now apply Forall_app].
  - exists tr. auto.
Qed.

Lemma adds_past_bind {B : Type} (P : event -> Prop) (k : history -> M B) :
  (forall a, adds P (k a)) -> adds P (bind past k).
Proof. intros Hk h. unfold bind, past. apply Hk. Qed.

Lemma adds_for_each {A S : Type} (P : event -> Prop) (body : A -> S -> M S) l :
  (forall a s, adds P (body a s)) -> forall s, adds P (for_each l body s).
Proof.
  intros Hb. induction l as [|a l IH]; intros s; cbn [for_each].
  - apply adds_ret.
  - apply adds_bind; [apply Hb | apply IH].
Qed.

Lemma adds_weaken {A : Type} (P R : event -> Prop) (m : M A) :
  (forall e, P e -> R e) -> adds P m -> adds R m.
Proof.
  intros I Hm h. destruct (Hm h) as (tr & E & F). exists tr. split; [assumption|].
  eapply Forall_impl; eauto.
Qed.

Lemma calls_of_app {A : Type} (m : M A) h tr :
  fst (m h) = h ++ tr -> calls_of m h = tr.
Proof.
  intros E. unfold calls_of. rewrite E, skipn_app, skipn_all, Nat.sub_diag. reflexivity.
Qed.

Ltac adds_step :=
  lazymatch goal with
  | |- adds _ (bind past _) => apply adds_past_bind; intros ?
  | |- adds _ (bind _ _) => apply adds_bind; [|intros ?]
  | |- adds _ (emit _) => apply adds_emit
  | |- adds _ (ret _) => apply adds_ret
  | |- adds _ (lift _) => apply adds_lift
  | |- adds _ (raise _) => apply adds_raise
  | |- adds _ (for_each _ _ _) => apply adds_for_each; intros ? ?
  | |- adds _ (call_model _ _) => unfold call_model
  | |- adds _ (iterate _ _) => unfold iterate
  end.

Lemma train_sample_body_adds (P : event -> Prop) fw nl data tot :
  P optimizer_zero_grad -> (forall a, P (model_call a)) ->
  (forall l, P (loss_backward l)) -> P optimizer_step ->
  adds P (train_sample_body fw nl data tot).
Proof.
  intros H1 H2 H3 H4. unfold train_sample_body.
  repeat adds_step; auto.
  destruct (nl =? 1)%Z; repeat adds_step; auto.
Qed.

Lemma eval_sample_body_adds (P : event -> Prop) fw nl data all :
  (forall a, P (model_call a)) -> adds P (eval_sample_body fw nl data all).
Proof.
  intros H. unfold eval_sample_body.
  repeat adds_step; auto.
  destruct (nl =? 1)%Z; repeat adds_step; auto.
Qed.

(** ** Aggregation mode *)

Lemma aggr_at_calls_kept cur tr :
  Forall not_set_aggr tr -> Forall (eq cur) (aggr_at_calls cur tr).
Proof.
  induction 1 as [|e tr He _ IH]; cbn; [constructor|].
  destruct e; cbn in He; try contradiction; auto.
Qed.

Lemma mode_then_aggr {A : Type} (mode : event) (aggr : string) (rest : M A) h cur :
  mode = model_train \/ mode = model_eval -> adds not_set_aggr rest ->
  let m := bind (emit mode) (fun _ => bind (emit (model_set_aggr aggr)) (fun _ => rest)) in
  firstn 2 (calls_of m h) = [mode; model_set_aggr aggr] /\
  Forall (eq (Some aggr)) (aggr_at_calls cur (calls_of m h)).
Proof.
  intros Hm Hr m.
  destruct (Hr ((h ++ [mode]) ++ [model_set_aggr aggr])) as (tr & E & F).
  assert (Em : fst (m h) = h ++ [mode; model_set_aggr aggr] ++ tr).
  { unfold m, bind, emit. cbn. rewrite E, <- !app_assoc. reflexivity. }
  rewrite (calls_of_app _ _ _ Em). split; [reflexivity|].
  destruct Hm; subst mode; cbn [app aggr_at_calls]; now apply aggr_at_calls_kept.
Qed.

(** The calls of [train_full]: always the forward pass; the backward pass
    and the optimizer step when the loss could be computed. *)
Lemma train_full_calls fw data h :
  let a := (x data, edge_index data, @None (list Q)) in
  exists tr,
    fst (train_full fw data h)
    = h ++ [model_train; model_set_aggr "mean"; optimizer_zero_grad; model_call a] ++ tr /\
    (tr = [] \/ exists loss, tr = [loss_backward loss; optimizer_step]).
Proof.
  intros a. unfold train_full, call_model, bind, emit, past, ret, lift. cbn [fst snd].
  destruct (index_mask _ (train_mask data)) as [o|e];
    [|exists []; cbn [fst]; rewrite <- !app_assoc; auto].
  destruct (index_mask (y data) (train_mask data)) as [t|e];
    [|exists []; cbn [fst]; rewrite <- !app_assoc; auto].
  destruct (nll_loss_mean o t) as [loss|e];
    [|exists []; cbn [fst]; rewrite <- !app_assoc; auto].
  exists [loss_backward loss; optimizer_step]. cbn [fst].
  rewrite <- !app_assoc. split; [reflexivity | eauto].
Qed.

(** The calls of [eval_full]: the forward pass, whatever follows. *)
Lemma eval_full_calls fw data h :
  fst (eval_full fw data h)
  = h ++ [model_eval; model_set_aggr "mean"; model_call (x data, edge_index data, None)].
Proof.
  unfold eval_full, call_model, bind, emit, past, ret, lift. cbn [fst snd].
  destruct (tensor_eq _ _) as [c|e]; [|cbn [fst]; now rewrite <- !app_assoc].
  destruct (accs_loop _ _ _) as [accs|e]; [|cbn [fst]; now rewrite <- !app_assoc].
  destruct (f1_loop _ _ _ _) as [f1s|e]; cbn [fst]; now rewrite <- !app_assoc.
Qed.

Lemma batch_call_not_set_aggr e : batch_call e -> not_set_aggr e.
Proof. destruct e; cbn; auto. Qed.

Lemma train_sample_rest_adds fw loader nl :
  adds batch_call
    (bind (iterate fw loader) (fun batches =>
     bind (for_each batches (train_sample_body fw nl) (Fin 0, 0)) (fun tot =>
     lift (fdiv_int (fst tot) (snd tot))))).
Proof.
  repeat adds_step; try exact I.
  apply train_sample_body_adds; cbn; auto.
Qed.

Lemma eval_sample_rest_adds fw loader nl :
  adds batch_call
    (bind (iterate fw loader) (fun batches =>
     bind (for_each batches (eval_sample_body fw nl) ([], [])) (fun all =>
     lift (mean_loop (fst all) (snd all) (seq 0 3) ([], []))))).
Proof.
  repeat adds_step; try exact I.
  apply eval_sample_body_adds; cbn; auto.
Qed.

(** C1.  In [train_sample], on batches that fit (one label, one mask entry
    and one [node_norm] per node, labels among the classes the network
    scores, and with the flag 1 one [edge_norm] per [edge_attr]), the calls
    made for the batches are, batch after batch: zero the gradients, one
    forward pass, one backward pass on the loss of the batch, one optimizer
    step; that loss is the [node_norm] weighted sum of the per-node negative
    log-likelihood over the train nodes when the flag is 1 and its plain
    mean over the train nodes otherwise ([batch_loss]).  The optimizer steps
    of such a pass are as many as the batches, and so are those of every
    pass that returns a loss. *)
Theorem train_sample_loss_and_updates fw loader n nl h :
  let start := h ++ [model_train; model_set_aggr "add"] in
  let batches := loader_batches fw loader start in
  (row_per_node fw -> class_scores fw n ->
   Forall per_node batches -> (nl = 1%Z -> Forall per_edge batches) ->
   Forall (labels_below n) batches ->
   fst (train_sample fw loader nl h)
   = (start ++ [loader_iter])
     ++ training_trace fw nl (start ++ [loader_iter]) batches)
  /\ count_ev is_step (training_trace fw nl (start ++ [loader_iter]) batches)
     = length batches
  /\ (forall loss, snd (train_sample fw loader nl h) = Ok loss ->
      count_ev is_step (fst (train_sample fw loader nl h))
      = count_ev is_step h + length batches).
Proof.
  intros start batches. rewrite train_sample_run. fold start. fold batches.
  replace (h ++ [model_train; model_set_aggr "add"; loader_iter])
    with (start ++ [loader_iter]) by (unfold start; now rewrite <- app_assoc).
  split; [|split].
  - intros Hf Hc Hb He Hy.
    destruct (train_loop_trace fw n nl Hf Hc batches (Fin 0, 0) (start ++ [loader_iter])
                Hb He Hy) as (loss & E).
    rewrite E. reflexivity.
  - clear. generalize (start ++ [loader_iter]).
    induction batches as [|d rest IH]; intros h0; [reflexivity|].
    cbn [training_trace]. unfold count_ev in *.
    rewrite filter_app, length_app, IH. reflexivity.
  - intros loss Hl.
    destruct (for_each batches _ _ _) as [h' [tot|e]] eqn:E; [|discriminate Hl].
    apply train_loop_steps in E as (_ & E). cbn [fst]. rewrite E.
    unfold count_ev, start. rewrite !filter_app, !length_app. cbn. lia.
Qed.

Lemma train_sample_loss_and_updates_witness :
  let batches := [Toy.prepared; Toy.prepared] in
  row_per_node Toy.fw /\ class_scores Toy.fw 2 /\
  Forall per_node batches /\ Forall per_edge batches /\ Forall (labels_below 2) batches /\
  fst (train_sample Toy.fw Toy.loader 1 [])
  = [model_train; model_set_aggr "add"; loader_iter]
    ++ training_trace Toy.fw 1 [model_train; model_set_aggr "add"; loader_iter] batches.
Proof.
  intros batches.
  destruct (Forall_batch_ok 2 batches (toy_batches_ok [])) as (P & E & L).
  split; [exact toy_row_per_node|]. split; [exact toy_class_scores|].
  split; [exact P|]. split; [exact E|]. split; [exact L|].
  exact (proj1 (train_sample_loss_and_updates Toy.fw Toy.loader 2 1 [])
           toy_row_per_node toy_class_scores P (fun _ => E) L).
Defined.

(** C2.  Each of the four operations first sets the mode of the model and
    then the aggregation, ['add'] in the sampled ones and ['mean'] in the
    full-graph ones, and that aggregation is the one in effect at every
    forward pass the operation makes, whatever was in effect before. *)
Theorem aggregation_mode_by_operation fw loader data nl h cur :
  (firstn 2 (calls_of (train_sample fw loader nl) h)
   = [model_train; model_set_aggr "add"] /\
   Forall (eq (Some "add"%string))
     (aggr_at_calls cur (calls_of (train_sample fw loader nl) h))) /\
  (firstn 2 (calls_of (eval_sample fw loader nl) h)
   = [model_eval; model_set_aggr "add"] /\
   Forall (eq (Some "add"%string))
     (aggr_at_calls cur (calls_of (eval_sample fw loader nl) h))) /\
  (firstn 2 (calls_of (train_full fw data) h)
   = [model_train; model_set_aggr "mean"] /\
   aggr_at_calls cur (calls_of (train_full fw data) h) = [Some "mean"%string]) /\
  (firstn 2 (calls_of (eval_full fw data) h)
   = [model_eval; model_set_aggr "mean"] /\
   aggr_at_calls cur (calls_of (eval_full fw data) h) = [Some "mean"%string]).
Proof.
  split; [|split; [|split]].
  - unfold train_sample. apply mode_then_aggr; [now left|].
    eapply adds_weaken; [apply batch_call_not_set_aggr | apply train_sample_rest_adds].
  - unfold eval_sample. apply mode_then_aggr; [now right|].
    eapply adds_weaken; [apply batch_call_not_set_aggr | apply eval_sample_rest_adds].
  - destruct (train_full_calls fw data h) as (tr & E & [->|(loss & ->)]);
      rewrite (calls_of_app _ _ _ E); split; reflexivity.
  - rewrite (calls_of_app _ _ _ (eval_full_calls fw data h)).
    split; reflexivity.
Qed.

(** ** Sampled evaluation *)

Lemma int_truediv_ok a b :
  b <> 0 ->
  int_truediv a b = Ok (inject_Z (Z.of_nat a) / inject_Z (Z.of_nat b))%Q.
Proof. destruct b; [congruence | reflexivity]. Qed.

Lemma accs_loop_ok correct ms :
  forall accs, Forall (fun m => length m = length correct) ms ->
  Forall (fun m => sum_bool m <> 0) ms ->
  accs_loop correct ms accs
  = Ok (accs ++ map (fun m => (inject_Z (Z.of_nat (sum_bool (masked correct m)))
                               / inject_Z (Z.of_nat (sum_bool m)))%Q) ms).
Proof.
  induction ms as [|m ms IH]; intros accs L F; cbn [accs_loop map].
  - now rewrite app_nil_r.
  - inversion F as [|? ? Hm Hms]; inversion L as [|? ? Lm Lms]; subst.
    rewrite index_mask_ok by congruence. cbn [rbind].
    rewrite (int_truediv_ok _ _ Hm). cbn [rbind].
    rewrite (IH _ Lms Hms), <- app_assoc. reflexivity.
Qed.

Lemma accs_loop_raise correct ms :
  forall accs, Forall (fun m => length m = length correct) ms ->
  Exists (fun m => sum_bool m = 0) ms ->
  accs_loop correct ms accs = Raise ZeroDivisionError.
Proof.
  induction ms as [|m ms IH]; intros accs L E; inversion E as [? ? Hm|? ? Hms]; subst;
    inversion L as [|? ? Lm Lms]; subst; cbn [accs_loop];
    rewrite index_mask_ok by congruence; cbn [rbind].
  - rewrite Hm. reflexivity.
  - destruct (sum_bool m) eqn:S; [reflexivity|].
    cbn [int_truediv rbind]. now apply IH.
Qed.

Lemma f1_loop_ok data pred ms :
  forall f1s, Forall (fun m => length m = length pred) ms ->
  length (y data) = length pred ->
  f1_loop data pred ms f1s = Ok (f1s ++ map (f1_on_mask pred (y data)) ms).
Proof.
  induction ms as [|m ms IH]; intros f1s L Ly; cbn [f1_loop map].
  - now rewrite app_nil_r.
  - inversion L as [|? ? Lm Lms]; subst.
    rewrite !index_mask_ok by congruence. cbn [rbind].
    rewrite (IH _ Lms Ly), <- app_assoc. reflexivity.
Qed.

Lemma masks_length data n :
  per_node data -> n = num_nodes data -> Forall (fun m => length m = n) (masks data).
Proof.
  intros (_ & L1 & L2 & L3 & _) ->. unfold masks. repeat constructor; assumption.
Qed.

Lemma tensor_eq_ok a b :
  length a = length b ->
  tensor_eq a b = Ok (zip_with Nat.eqb a b)
  /\ length (zip_with Nat.eqb a b) = length a.
Proof.
  intros L. split; [now apply broadcast_same | now apply zip_with_length].
Qed.

(** What the evaluation computes from the predictions on a batch that
    fits. *)
Lemma metrics_ok data pred :
  length pred = num_nodes data -> per_node data -> masks_nonempty data ->
  rbind (tensor_eq pred (y data)) (fun correct =>
  rbind (accs_loop correct (masks data) []) (fun accs =>
  rbind (f1_loop data pred (masks data) []) (fun f1_scores =>
  Ok (accs, f1_scores))))
  = Ok (acc_row pred data, f1_row pred data).
Proof.
  intros Lp P F. pose proof P as (Ly & _).
  destruct (tensor_eq_ok pred (y data)) as (E & Lc); [congruence|].
  rewrite E. cbn [rbind].
  rewrite (accs_loop_ok _ _ [])
    by (assumption || (apply masks_length; [assumption | congruence])).
  cbn [rbind app].
  rewrite (f1_loop_ok _ _ _ [])
    by (congruence || (apply masks_length; [assumption | congruence])).
  reflexivity.
Qed.

Lemma metrics_raise data pred :
  length pred = num_nodes data -> per_node data -> misses_a_mask data ->
  rbind (tensor_eq pred (y data)) (fun correct =>
  rbind (accs_loop correct (masks data) []) (fun accs =>
  rbind (f1_loop data pred (masks data) []) (fun f1_scores =>
  Ok (accs, f1_scores))))
  = Raise ZeroDivisionError.
Proof.
  intros Lp P F. pose proof P as (Ly & _).
  destruct (tensor_eq_ok pred (y data)) as (E & Lc); [congruence|].
  rewrite E. cbn [rbind].
  rewrite (accs_loop_raise _ _ [])
    by (assumption || (apply masks_length; [assumption | congruence])).
  reflexivity.
Qed.

Lemma masks_dec (ms : list (list bool)) :
  Forall (fun m => sum_bool m <> 0) ms \/ Exists (fun m => sum_bool m = 0) ms.
Proof.
  induction ms as [|m ms [F|E]].
  - left. constructor.
  - destruct (Nat.eq_dec (sum_bool m) 0) as [Z|N].
    + right. now left.
    + left. now constructor.
  - right. now right.
Qed.

Lemma masks_not_both (ms : list (list bool)) :
  Forall (fun m => sum_bool m <> 0) ms -> Exists (fun m => sum_bool m = 0) ms -> False.
Proof.
  intros F E. apply Exists_exists in E as (m & I & Z).
  rewrite Forall_forall in F. exact (F m I Z).
Qed.

(** One step of the loop of [eval_sample], once the edge weights could be
    computed: the forward pass, then the metrics of the batch. *)
Lemma eval_sample_body_run fw nl data all h :
  (nl = 1%Z -> per_edge data) ->
  let pred := argmax_rows (model_forward fw h (sampled_args nl data)) in
  eval_sample_body fw nl data all h
  = (h ++ [model_call (sampled_args nl data)],
     rbind (rbind (tensor_eq pred (y data)) (fun correct =>
            rbind (accs_loop correct (masks data) []) (fun accs =>
            rbind (f1_loop data pred (masks data) []) (fun f1_scores =>
            Ok (accs, f1_scores)))))
           (fun m => Ok (fst all ++ [fst m], snd all ++ [snd m]))).
Proof.
  intros Le. unfold eval_sample_body, sampled_args.
  destruct (Z.eqb_spec nl 1) as [E|N].
  - unfold bind at 1. unfold bind at 1, lift at 1.
    rewrite (edge_weight_product data (Le E)).
    unfold call_model, bind, emit, past, ret, lift. cbn [fst snd].
    destruct (tensor_eq _ _) as [c|e]; [|reflexivity]. cbn [rbind].
    destruct (accs_loop _ _ _) as [accs|e]; [|reflexivity]. cbn [rbind].
    destruct (f1_loop _ _ _ _) as [f1s|e]; reflexivity.
  - unfold call_model, bind, emit, past, ret, lift. cbn [fst snd].
    destruct (tensor_eq _ _) as [c|e]; [|reflexivity]. cbn [rbind].
    destruct (accs_loop _ _ _) as [accs|e]; [|reflexivity]. cbn [rbind].
    destruct (f1_loop _ _ _ _) as [f1s|e]; reflexivity.
Qed.

Lemma eval_sample_body_ok fw nl data all h :
  let pred := argmax_rows (model_forward fw h (sampled_args nl data)) in
  length pred = num_nodes data -> per_node data -> (nl = 1%Z -> per_edge data) ->
  masks_nonempty data ->
  eval_sample_body fw nl data all h
  = (h ++ [model_call (sampled_args nl data)],
     Ok (fst all ++ [acc_row pred data], snd all ++ [f1_row pred data])).
Proof.
  intros pred Lp P Le F. rewrite (eval_sample_body_run fw nl data all h Le).
  fold pred. now rewrite (metrics_ok data pred Lp P F).
Qed.

Lemma eval_sample_body_raise fw nl data all h :
  let pred := argmax_rows (model_forward fw h (sampled_args nl data)) in
  length pred = num_nodes data -> per_node data -> (nl = 1%Z -> per_edge data) ->
  misses_a_mask data ->
  eval_sample_body fw nl data all h
  = (h ++ [model_call (sampled_args nl data)], Raise ZeroDivisionError).
Proof.
  intros pred Lp P Le E. rewrite (eval_sample_body_run fw nl data all h Le).
  fold pred. now rewrite (metrics_raise data pred Lp P E).
Qed.

Lemma pred_length fw nl data h :
  row_per_node fw ->
  length (argmax_rows (model_forward fw h (sampled_args nl data))) = num_nodes data.
Proof.
  intros R. unfold argmax_rows. rewrite length_map, R.
  unfold sampled_args. now destruct (nl =? 1)%Z.
Qed.

Lemma Forall_flag {X : Type} (P : X -> Prop) (c : Prop) d rest :
  (c -> Forall P (d :: rest)) -> (c -> P d) /\ (c -> Forall P rest).
Proof. intros H. split; intros Hc; specialize (H Hc); now inversion H. Qed.

Lemma eval_loop_ok fw nl :
  row_per_node fw ->
  forall batches all h, Forall per_node batches ->
  (nl = 1%Z -> Forall per_edge batches) -> Forall masks_nonempty batches ->
  snd (for_each batches (eval_sample_body fw nl) all h)
  = Ok (fst all ++ map (fun dp => acc_row (snd dp) (fst dp))
                       (combine batches (eval_preds fw nl h batches)),
        snd all ++ map (fun dp => f1_row (snd dp) (fst dp))
                       (combine batches (eval_preds fw nl h batches))).
Proof.
  intros R. induction batches as [|d rest IH]; intros all h P Le F.
  - cbn. rewrite !app_nil_r. now destruct all.
  - inversion F as [|? ? Hd Hr]; inversion P as [|? ? Pd Pr]; subst.
    apply Forall_flag in Le as (Led & Ler). cbn [for_each].
    rewrite (bind_ok _ _ _ _ _
               (eval_sample_body_ok fw nl d all h (pred_length fw nl d h R) Pd Led Hd)).
    rewrite (IH _ _ Pr Ler Hr). cbn [fst snd eval_preds combine map].
    rewrite <- !app_assoc. reflexivity.
Qed.

Lemma eval_loop_raise fw nl :
  row_per_node fw ->
  forall batches all h, Forall per_node batches ->
  (nl = 1%Z -> Forall per_edge batches) -> Exists misses_a_mask batches ->
  snd (for_each batches (eval_sample_body fw nl) all h) = Raise ZeroDivisionError.
Proof.
  intros R. induction batches as [|d rest IH]; intros all h P Le E; [inversion E|].
  inversion P as [|? ? Pd Pr]; subst. apply Forall_flag in Le as (Led & Ler).
  cbn [for_each].
  destruct (masks_dec (masks d)) as [Fd|Ed].
  - rewrite (bind_ok _ _ _ _ _
               (eval_sample_body_ok fw nl d all h (pred_length fw nl d h R) Pd Led Fd)).
    inversion E as [? ? Hd|? ? Hr]; subst.
    + destruct (masks_not_both _ Fd Hd).
    + now apply IH.
  - now rewrite (bind_raise _ _ _ _ _
                   (eval_sample_body_raise fw nl d all h (pred_length fw nl d h R)
                      Pd Led Ed)).
Qed.

Lemma eval_sample_run fw loader nl h :
  eval_sample fw loader nl h
  = match for_each (loader_batches fw loader (h ++ [model_eval; model_set_aggr "add"]))
            (eval_sample_body fw nl) ([], [])
            ((h ++ [model_eval; model_set_aggr "add"]) ++ [loader_iter]) with
    | (h', Ok all) => (h', mean_loop (fst all) (snd all) (seq 0 3) ([], []))
    | (h', Raise e) => (h', Raise e)
    end.
Proof.
  unfold eval_sample, iterate, bind, emit, past, ret, lift. cbn -[mean_loop seq].
  rewrite <- !app_assoc. reflexivity.
Qed.

Lemma mean_loop_run (A F : list (list Q)) :
  A <> [] -> F <> [] ->
  mean_loop A F (seq 0 3) ([], [])
  = Ok (map (fun k => np_mean (map (fun r => nth k r 0%Q) A)) [0; 1; 2],
        map (fun k => np_mean (map (fun r => nth k r 0%Q) F)) [0; 1; 2]).
Proof.
  destruct A as [|a A]; [congruence|]. destruct F as [|f F]; [congruence|].
  intros _ _. reflexivity.
Qed.

Lemma column_of_rows {X : Type} (f : list bool -> X -> Q) (g : X -> Data) (l : list X) k :
  k < 3 ->
  map (fun r => nth k r 0%Q) (map (fun u => map (fun m => f m u) (masks (g u))) l)
  = map (fun u => f (mask_no k (g u)) u) l.
Proof.
  intros Hk. rewrite map_map. apply map_ext. intros u. unfold mask_no, masks.
  destruct k as [|[|[|k]]]; try reflexivity. lia.
Qed.

Lemma sum_bool_map_filter {X : Type} (f : X -> bool) (l : list X) :
  sum_bool (map f l) = length (filter f l).
Proof.
  unfold sum_bool. induction l as [|u l IH]; [reflexivity|].
  cbn [map count_occ filter]. destruct (f u).
  - destruct (bool_dec true true) as [_|N]; [cbn; now rewrite IH | now elim N].
  - destruct (bool_dec false true) as [E|_]; [discriminate E | exact IH].
Qed.

Lemma acc_ratio_accuracy pred target mask :
  length pred = length target -> length mask = length pred ->
  acc_ratio pred target mask = accuracy pred target mask.
Proof.
  intros L1 L2. unfold acc_ratio, accuracy.
  assert (Le : length (zip_with Nat.eqb pred target) = length pred)
    by (now apply zip_with_length).
  rewrite (masked_selected false) by lia.
  rewrite sum_bool_map_filter, sum_bool_selected.
  do 4 f_equal. apply filter_ext_in. intros i Hi. apply selected_lt in Hi.
  apply (zip_with_nth Nat.eqb 0 0 false); lia.
Qed.

Lemma sum_over_map_S idx (f : nat -> Q) :
  sum_over (map S idx) f = sum_over idx (fun j => f (S j)).
Proof.
  unfold sum_over. induction idx as [|i idx IH]; simpl; [reflexivity | now rewrite IH].
Qed.

Lemma tensor_sum_by_position (l : list Q) :
  tensor_sum l = sum_over (seq 0 (length l)) (fun j => nth j l 0%Q).
Proof.
  induction l as [|a l IH]; [reflexivity|].
  cbn [length seq]. rewrite <- seq_shift.
  change (sum_over (0 :: map S (seq 0 (length l))) (fun j => nth j (a :: l) 0%Q))
    with (a + sum_over (map S (seq 0 (length l))) (fun j => nth j (a :: l) 0%Q))%Q.
  rewrite sum_over_map_S. cbn [nth]. rewrite <- IH. reflexivity.
Qed.

Lemma np_mean_arithmetic (l : list Q) : np_mean l = arithmetic_mean l.
Proof. unfold np_mean, arithmetic_mean. now rewrite tensor_sum_by_position. Qed.

Lemma node_in_mask_sum data mask : node_in_mask data mask -> sum_bool mask <> 0.
Proof.
  intros (i & _ & Hi). unfold sum_bool.
  assert (I : In true mask).
  { destruct (Nat.lt_ge_cases i (length mask)) as [L|G].
    - rewrite <- Hi. now apply nth_In.
    - rewrite nth_overflow in Hi by assumption. discriminate. }
  apply (count_occ_In bool_dec) in I. lia.
Qed.

Lemma covers_masks_nonempty data : covers_masks data -> masks_nonempty data.
Proof.
  unfold covers_masks, masks_nonempty. apply Forall_impl.
  intros m. apply node_in_mask_sum.
Qed.

Lemma covers_masks_nodes data : covers_masks data -> 0 < num_nodes data.
Proof.
  intros C. inversion C as [|? ? (i & Hi & _) _]. lia.
Qed.

Lemma batches_dec (batches : list Data) :
  Forall masks_nonempty batches \/ Exists misses_a_mask batches.
Proof.
  induction batches as [|d rest [F|E]].
  - left. constructor.
  - destruct (masks_dec (masks d)) as [Fd|Ed].
    + left. now constructor.
    + right. now left.
  - right. now right.
Qed.

Lemma eval_preds_shape fw nl :
  row_per_node fw ->
  forall batches h dp, In dp (combine batches (eval_preds fw nl h batches)) ->
  In (fst dp) batches /\ length (snd dp) = num_nodes (fst dp).
Proof.
  intros R. induction batches as [|d rest IH]; intros h dp I; [destruct I|].
  cbn [eval_preds combine] in I. destruct I as [E|I].
  - subst dp. split; [now left|]. cbn [fst snd]. unfold argmax_rows.
    rewrite length_map, R. unfold sampled_args. now destruct (nl =? 1)%Z.
  - destruct (IH _ _ I). split; [now right | assumption].
Qed.

Lemma mask_no_length data k :
  per_node data -> k < 3 -> length (mask_no k data) = num_nodes data.
Proof.
  intros (_ & L1 & L2 & L3 & _) Hk. unfold mask_no, masks.
  destruct k as [|[|[|k]]]; cbn; try assumption. lia.
Qed.

Lemma acc_rows_column (l : list (Data * list nat)) k :
  k < 3 ->
  map (fun r => nth k r 0%Q) (map (fun dp => acc_row (snd dp) (fst dp)) l)
  = map (fun dp => acc_ratio (snd dp) (y (fst dp)) (mask_no k (fst dp))) l.
Proof.
  intros Hk.
  exact (column_of_rows (fun m dp => acc_ratio (snd dp) (y (fst dp)) m) fst l k Hk).
Qed.

Lemma f1_rows_column (l : list (Data * list nat)) k :
  k < 3 ->
  map (fun r => nth k r 0%Q) (map (fun dp => f1_row (snd dp) (fst dp)) l)
  = map (fun dp => f1_on_mask (snd dp) (y (fst dp)) (mask_no k (fst dp))) l.
Proof.
  intros Hk.
  exact (column_of_rows (fun m dp => f1_on_mask (snd dp) (y (fst dp)) m) fst l k Hk).
Qed.

Lemma eval_sample_ok fw loader nl h :
  let start := h ++ [model_eval; model_set_aggr "add"] in
  let batches := loader_batches fw loader start in
  let preds := eval_preds fw nl (start ++ [loader_iter]) batches in
  row_per_node fw -> Forall per_node batches -> (nl = 1%Z -> Forall per_edge batches) ->
  batches <> [] -> Forall masks_nonempty batches ->
  snd (eval_sample fw loader nl h)
  = Ok (map (fun k => np_mean
               (map (fun dp => acc_ratio (snd dp) (y (fst dp)) (mask_no k (fst dp)))
                    (combine batches preds))) [0; 1; 2],
        map (fun k => np_mean (batch_f1s k batches preds)) [0; 1; 2]).
Proof.
  intros start batches preds R P Le Hne F. rewrite eval_sample_run. fold start. fold batches.
  pose proof (eval_loop_ok fw nl R batches ([], []) (start ++ [loader_iter]) P Le F) as E.
  fold preds in E.
  destruct (for_each batches _ _ _) as [h' r]. cbn [snd fst app] in *. subst r.
  assert (Hc : combine batches preds <> []).
  { destruct batches as [|d rest]; [congruence|]. subst preds. cbn. discriminate. }
  rewrite mean_loop_run.
  - cbn [map fst snd]. unfold batch_f1s.
    rewrite !acc_rows_column, !f1_rows_column by lia.
    reflexivity.
  - destruct (combine batches preds); [congruence | discriminate].
  - destruct (combine batches preds); [congruence | discriminate].
Qed.

Lemma eval_sample_zero_division fw loader nl h :
  let batches := loader_batches fw loader (h ++ [model_eval; model_set_aggr "add"]) in
  row_per_node fw -> Forall per_node batches -> (nl = 1%Z -> Forall per_edge batches) ->
  Exists misses_a_mask batches ->
  snd (eval_sample fw loader nl h) = Raise ZeroDivisionError.
Proof.
  intros batches R P Le E. rewrite eval_sample_run.
  pose proof (eval_loop_raise fw nl R _ ([], [])
                ((h ++ [model_eval; model_set_aggr "add"]) ++ [loader_iter]) P Le E) as Hr.
  fold batches. destruct (for_each _ _ _ _) as [h' r]. cbn [snd] in *. now subst r.
Qed.

Lemma eval_sample_no_batches fw loader nl h :
  loader_batches fw loader (h ++ [model_eval; model_set_aggr "add"]) = [] ->
  snd (eval_sample fw loader nl h) = Raise IndexError.
Proof. intros E. rewrite eval_sample_run, E. reflexivity. Qed.

Lemma train_sample_no_batches fw loader nl h :
  loader_batches fw loader (h ++ [model_train; model_set_aggr "add"]) = [] ->
  snd (train_sample fw loader nl h) = Raise ZeroDivisionError.
Proof. intros E. rewrite train_sample_run, E. reflexivity. Qed.

Lemma train_sample_ok fw loader n nl h :
  let batches := loader_batches fw loader (h ++ [model_train; model_set_aggr "add"]) in
  row_per_node fw -> class_scores fw n ->
  Forall per_node batches -> (nl = 1%Z -> Forall per_edge batches) ->
  Forall (labels_below n) batches ->
  batches <> [] -> Forall covers_masks batches ->
  exists loss, snd (train_sample fw loader nl h) = Ok loss.
Proof.
  intros batches R Hc P Le Hy Hne C. rewrite train_sample_run. fold batches.
  destruct (train_loop_trace fw n nl R Hc batches (Fin 0, 0)
              (h ++ [model_train; model_set_aggr "add"; loader_iter]) P Le Hy)
    as (loss & E).
  rewrite E. cbn [snd fst].
  destruct batches as [|d rest]; [congruence|].
  inversion C as [|? ? Cd _]; subst. apply covers_masks_nodes in Cd.
  cbn [map list_sum fold_right Nat.add].
  destruct (num_nodes d + _) eqn:S; [lia|]. eexists. reflexivity.
Qed.

Lemma batch_accs_by_position fw nl batches h k :
  row_per_node fw -> Forall per_node batches -> k < 3 ->
  map (fun dp => acc_ratio (snd dp) (y (fst dp)) (mask_no k (fst dp)))
      (combine batches (eval_preds fw nl h batches))
  = batch_accs k batches (eval_preds fw nl h batches).
Proof.
  intros R P Hk. unfold batch_accs. apply map_ext_in. intros dp I.
  destruct (eval_preds_shape fw nl R _ _ _ I) as (Id & L).
  rewrite Forall_forall in P. pose proof (P _ Id) as Pd.
  apply acc_ratio_accuracy.
  - destruct Pd as (Ly & _). congruence.
  - rewrite (mask_no_length _ _ Pd Hk). congruence.
Qed.

(** ** The macro-F1 of the metrics library and the macro-F1 of a mask *)

Lemma combine_maps {X A B : Type} (f : X -> A) (g : X -> B) (l : list X) :
  combine (map f l) (map g l) = map (fun i => (f i, g i)) l.
Proof. induction l as [|u l IH]; cbn; [reflexivity | now rewrite IH]. Qed.

Lemma count_pairs_maps {X : Type} p (f g : X -> nat) (l : list X) :
  count_pairs p (map f l) (map g l) = length (filter (fun i => p (f i) (g i)) l).
Proof.
  unfold count_pairs. rewrite combine_maps, filter_map_swap, length_map. reflexivity.
Qed.

Lemma filter_split {X : Type} (a b : X -> bool) (l : list X) :
  length (filter b l)
  = length (filter (fun i => a i && b i) l) + length (filter (fun i => negb (a i) && b i) l).
Proof.
  induction l as [|u l IH]; [reflexivity|]. cbn [filter].
  destruct (a u), (b u); cbn [andb negb length]; lia.
Qed.

Lemma inject_nat_add a b :
  (inject_Z (Z.of_nat (a + b)) == inject_Z (Z.of_nat a) + inject_Z (Z.of_nat b))%Q.
Proof. now rewrite Nat2Z.inj_add, inject_Z_plus. Qed.

Lemma inject_nat_pos a : a <> 0 -> (0 < inject_Z (Z.of_nat a))%Q.
Proof. intros H. change 0%Q with (inject_Z 0). rewrite <- Zlt_Qlt. lia. Qed.

Lemma inject_nat_nonneg a : (0 <= inject_Z (Z.of_nat a))%Q.
Proof. change 0%Q with (inject_Z 0). rewrite <- Zle_Qle. lia. Qed.

Lemma ratio0_zero b : (ratio0 0 b == 0)%Q.
Proof. destruct b; cbn; [reflexivity|]. unfold Qdiv. now rewrite Qmult_0_l. Qed.

Lemma ratio0_pos a b :
  a <> 0 ->
  (ratio0 a (a + b) == inject_Z (Z.of_nat a) / (inject_Z (Z.of_nat a) + inject_Z (Z.of_nat b)))%Q.
Proof.
  intros H. unfold ratio0. destruct (a + b) eqn:E; [lia|].
  rewrite <- E, inject_nat_add. reflexivity.
Qed.

(** The harmonic mean of precision and recall is twice the true positives
    over the predicted plus the actual members of the class. *)
Lemma harmonic_mean_counts tp fp fn :
  let p := ratio0 tp (tp + fp) in
  let r := ratio0 tp (tp + fn) in
  ((if Qeq_bool (p + r) 0 then 0 else 2 * p * r / (p + r))
   == inject_Z (Z.of_nat (2 * tp)) / inject_Z (Z.of_nat ((tp + fp) + (tp + fn))))%Q.
Proof.
  intros p r. destruct (Nat.eq_dec tp 0) as [Z0|N].
  - subst tp p r. 
    assert (E : Qeq_bool (ratio0 0 (0 + fp) + ratio0 0 (0 + fn)) 0 = true).
    { apply Qeq_bool_iff. rewrite !ratio0_zero. reflexivity. }
    rewrite E. cbn [Nat.mul Z.of_nat]. unfold Qdiv. now rewrite Qmult_0_l.
  - pose proof (inject_nat_pos tp N) as Pa.
    pose proof (inject_nat_nonneg fp) as Pb.
    pose proof (inject_nat_nonneg fn) as Pc.
    assert (Ep : (p == inject_Z (Z.of_nat tp)
                        / (inject_Z (Z.of_nat tp) + inject_Z (Z.of_nat fp)))%Q)
      by (now apply ratio0_pos).
    assert (Er : (r == inject_Z (Z.of_nat tp)
                        / (inject_Z (Z.of_nat tp) + inject_Z (Z.of_nat fn)))%Q)
      by (now apply ratio0_pos).
    assert (E2 : (inject_Z (Z.of_nat (2 * tp)) == 2 * inject_Z (Z.of_nat tp))%Q).
    { rewrite Nat2Z.inj_mul, inject_Z_mult. reflexivity. }
    rewrite E2, !inject_nat_add.
    set (a := inject_Z (Z.of_nat tp)) in *.
    set (b := inject_Z (Z.of_nat fp)) in *.
    set (c := inject_Z (Z.of_nat fn)) in *.
    assert (Pp : (0 < a / (a + b))%Q).
    { apply Qlt_shift_div_l; lra. }
    assert (Pr : (0 < a / (a + c))%Q).
    { apply Qlt_shift_div_l; lra. }
    destruct (Qeq_bool (p + r) 0) eqn:E.
    + apply Qeq_bool_iff in E. rewrite Ep, Er in E. lra.
    + rewrite Ep, Er. field. repeat split; try lra.
      intros H. nra.
Qed.

Lemma tensor_sum_pointwise {X : Type} (f g : X -> Q) (l : list X) :
  (forall u, In u l -> (f u == g u)%Q) ->
  (tensor_sum (map f l) == tensor_sum (map g l))%Q.
Proof.
  induction l as [|u l IH]; intros H; [reflexivity|].
  cbn [map tensor_sum fold_right].
  fold (tensor_sum (map f l)). fold (tensor_sum (map g l)).
  rewrite (H u (or_introl eq_refl)), IH; [reflexivity|].
  intros v Hv. apply H. now right.
Qed.

Lemma tensor_sum_permutation {X : Type} (f : X -> Q) (l l' : list X) :
  Permutation l l' -> (tensor_sum (map f l) == tensor_sum (map f l'))%Q.
Proof.
  induction 1 as [|u l l' _ IH|u v l|l l' l'' _ IH1 _ IH2].
  - reflexivity.
  - cbn [map tensor_sum fold_right].
    fold (tensor_sum (map f l)). fold (tensor_sum (map f l')). now rewrite IH.
  - cbn [map tensor_sum fold_right]. fold (tensor_sum (map f l)). lra.
  - now rewrite IH1.
Qed.

Lemma classes_on_spec pred target mask c :
  In c (classes_on pred target mask)
  <-> exists i, In i (selected mask) /\ (nth i pred 0 = c \/ nth i target 0 = c).
Proof.
  unfold classes_on. cbv zeta. rewrite filter_In, existsb_exists, in_seq.
  set (vals := map (fun i => nth i pred 0) (selected mask)
               ++ map (fun i => nth i target 0) (selected mask)).
  split.
  - intros (_ & i & Hi & E). exists i. split; [exact Hi|].
    apply orb_true_iff in E as [E|E]; apply Nat.eqb_eq in E; tauto.
  - intros (i & Hi & E).
    assert (Hc : In c vals).
    { unfold vals. apply in_or_app.
      destruct E as [E|E]; [left | right]; apply in_map_iff; exists i; tauto. }
    split.
    + pose proof (proj1 (list_max_le vals (list_max vals)) (Nat.le_refl _)) as F.
      rewrite Forall_forall in F. specialize (F c Hc). lia.
    + exists i. split; [exact Hi|]. apply orb_true_iff.
      destruct E as [E|E]; [left | right]; now apply Nat.eqb_eq.
Qed.

Lemma classes_permutation pred target mask :
  Permutation
    (unique_labels (map (fun i => nth i target 0) (selected mask))
                   (map (fun i => nth i pred 0) (selected mask)))
    (classes_on pred target mask).
Proof.
  apply NoDup_Permutation.
  - unfold unique_labels. apply NoDup_nodup.
  - unfold classes_on. cbv zeta. apply NoDup_filter, seq_NoDup.
  - intros c. rewrite classes_on_spec. unfold unique_labels.
    rewrite nodup_In, in_app_iff, !in_map_iff. split.
    + intros [(i & E & Hi)|(i & E & Hi)]; exists i; tauto.
    + intros (i & Hi & [E|E]); [right | left]; exists i; tauto.
Qed.

Lemma f1_class_on_mask c pred target mask :
  (f1_class c (map (fun i => nth i target 0%nat) (selected mask))
              (map (fun i => nth i pred 0%nat) (selected mask))
   == class_f1 c pred target mask)%Q.
Proof.
  unfold f1_class, precision, recall, class_f1, true_pos, false_pos, false_neg,
    count_selected.
  rewrite !count_pairs_maps. cbv zeta.
  set (idx := selected mask).
  set (tp := length (filter (fun i => (nth i target 0 =? c) && (nth i pred 0 =? c)) idx)).
  set (fp := length (filter (fun i => negb (nth i target 0 =? c) && (nth i pred 0 =? c)) idx)).
  set (fn := length (filter (fun i => (nth i target 0 =? c) && negb (nth i pred 0 =? c)) idx)).
  rewrite (harmonic_mean_counts tp fp fn).
  assert (E1 : length (filter (fun i => (nth i pred 0 =? c) && (nth i target 0 =? c)) idx) = tp).
  { unfold tp. f_equal. apply filter_ext. intros i. apply andb_comm. }
  assert (E2 : length (filter (fun i => nth i pred 0 =? c) idx) = tp + fp).
  { unfold tp, fp. apply (filter_split (fun i => nth i target 0 =? c)). }
  assert (E3 : length (filter (fun i => nth i target 0 =? c) idx) = tp + fn).
  { unfold tp, fn.
    rewrite (filter_split (fun i => nth i pred 0 =? c) (fun i => nth i target 0 =? c)).
    f_equal; f_equal; apply filter_ext; intros i; apply andb_comm. }
  rewrite E1, E2, E3. reflexivity.
Qed.

(** On tensors of the length of the mask, the score the driver computes is
    the macro-F1 of the mask. *)
Lemma f1_on_mask_macro_f1 pred target mask :
  length pred = length mask -> length target = length mask ->
  (f1_on_mask pred target mask == macro_f1 pred target mask)%Q.
Proof.
  intros Lp Lt. unfold f1_on_mask, macro_f1, f1_score_macro, np_mean. cbv zeta.
  rewrite (masked_selected 0 target), (masked_selected 0 pred) by assumption.
  pose proof (classes_permutation pred target mask) as Pm.
  set (ul := unique_labels _ _) in *.
  rewrite length_map, (Permutation_length Pm), <- tensor_sum_map.
  rewrite (tensor_sum_pointwise _ (fun c => class_f1 c pred target mask) ul)
    by (intros c _; apply f1_class_on_mask).
  now rewrite (tensor_sum_permutation _ _ _ Pm).
Qed.

Lemma sum_over_pointwise (idx : list nat) (f g : nat -> Q) :
  (forall i, In i idx -> (f i == g i)%Q) -> (sum_over idx f == sum_over idx g)%Q.
Proof.
  intros H. rewrite <- !tensor_sum_map. now apply tensor_sum_pointwise.
Qed.

Lemma arithmetic_mean_pointwise {X : Type} (f g : X -> Q) (l : list X) :
  (forall u, In u l -> (f u == g u)%Q) ->
  (arithmetic_mean (map f l) == arithmetic_mean (map g l))%Q.
Proof.
  intros H. unfold arithmetic_mean. rewrite !length_map.
  rewrite (sum_over_pointwise _ (fun j => nth j (map f l) 0%Q)
             (fun j => nth j (map g l) 0%Q)); [reflexivity|].
  intros j Hj. apply in_seq in Hj as (_ & Hj). cbn in Hj.
  destruct (nth_error l j) as [u|] eqn:E; [|apply nth_error_None in E; lia].
  rewrite (nth_indep _ 0%Q (f u)), (nth_indep _ 0%Q (g u)) by (now rewrite length_map).
  rewrite !map_nth. rewrite !(nth_error_nth _ _ _ E).
  apply H. eapply nth_error_In. exact E.
Qed.

Lemma eval_preds_outputs fw nl :
  forall batches h,
  eval_preds fw nl h batches = map argmax_rows (eval_outputs fw nl h batches).
Proof.
  induction batches as [|d rest IH]; intros h; [reflexivity|].
  cbn [eval_preds eval_outputs map]. now rewrite IH.
Qed.

Lemma predicted_batches outs preds :
  Forall2 (Forall2 predicted) outs preds -> preds = map argmax_rows outs.
Proof.
  induction 1 as [|out pred outs preds Hp _ IH]; [reflexivity|].
  cbn [map]. now rewrite <- IH, (predicted_rows out pred Hp).
Qed.

Lemma batch_f1s_macro fw nl batches h k :
  row_per_node fw -> Forall per_node batches -> k < 3 ->
  (arithmetic_mean (batch_f1s k batches (eval_preds fw nl h batches))
   == arithmetic_mean
        (map (fun dp => macro_f1 (snd dp) (y (fst dp)) (mask_no k (fst dp)))
             (combine batches (eval_preds fw nl h batches))))%Q.
Proof.
  intros R P Hk. unfold batch_f1s. apply arithmetic_mean_pointwise. intros dp I.
  destruct (eval_preds_shape fw nl R _ _ _ I) as (Id & L).
  rewrite Forall_forall in P. pose proof (P _ Id) as Pd.
  apply f1_on_mask_macro_f1.
  - rewrite (mask_no_length _ _ Pd Hk). exact L.
  - rewrite (mask_no_length _ _ Pd Hk). now destruct Pd.
Qed.

(** C3.  On batches that fit, [eval_sample] returns, for the train, the
    validation and the test mask in this order, the unweighted arithmetic
    mean over the batches of the accuracy of the batch on that mask, and
    the unweighted arithmetic mean over the batches of the macro-F1 of the
    batch on that mask, for the classes the network predicts (for each
    node the first class with the highest score): it returns whenever there
    is a batch and no batch has an empty mask, and whatever it returns are
    these means. *)
Theorem eval_sample_means fw loader nl h preds :
  let start := h ++ [model_eval; model_set_aggr "add"] in
  let batches := loader_batches fw loader start in
  let outs := eval_outputs fw nl (start ++ [loader_iter]) batches in
  row_per_node fw -> Forall per_node batches -> (nl = 1%Z -> Forall per_edge batches) ->
  Forall2 (Forall2 predicted) outs preds ->
  (batches <> [] -> Forall covers_masks batches ->
   exists r, snd (eval_sample fw loader nl h) = Ok r) /\
  (forall accs f1_scores,
     snd (eval_sample fw loader nl h) = Ok (accs, f1_scores) ->
     Forall2 Qeq accs [mean_accuracy train_mask batches preds;
                       mean_accuracy val_mask batches preds;
                       mean_accuracy test_mask batches preds] /\
     Forall2 Qeq f1_scores [mean_macro_f1 train_mask batches preds;
                            mean_macro_f1 val_mask batches preds;
                            mean_macro_f1 test_mask batches preds]).
Proof.
  intros start batches outs R P Le Hp.
  assert (Ep : preds = eval_preds fw nl (start ++ [loader_iter]) batches).
  { rewrite eval_preds_outputs. now apply predicted_batches. }
  pose proof (eval_sample_ok fw loader nl h R P Le) as K. cbv zeta in K.
  fold start in K. fold batches in K. rewrite <- Ep in K.
  split.
  - intros Hne C. eexists. apply K; [assumption|].
    eapply Forall_impl; [|exact C]. apply covers_masks_nonempty.
  - intros accs f1_scores Hr.
    assert (Hne : batches <> []).
    { intros Eb. rewrite (eval_sample_no_batches fw loader nl h Eb) in Hr. discriminate. }
    destruct (batches_dec batches) as [F|E];
      [|rewrite (eval_sample_zero_division fw loader nl h R P Le E) in Hr; discriminate].
    rewrite (K Hne F) in Hr. injection Hr as <- <-.
    cbn [map]. rewrite Ep.
    rewrite !(batch_accs_by_position fw nl _ _ _ R P) by lia.
    rewrite !np_mean_arithmetic. split.
    + repeat (constructor; [apply Qeq_refl|]). constructor.
    + constructor; [apply (batch_f1s_macro fw nl batches _ 0 R P); lia|].
      constructor; [apply (batch_f1s_macro fw nl batches _ 1 R P); lia|].
      constructor; [apply (batch_f1s_macro fw nl batches _ 2 R P); lia|].
      constructor.
Qed.

Lemma toy_covers_masks : covers_masks Toy.graph.
Proof.
  unfold covers_masks, masks. repeat constructor.
  - exists 0. split; [cbn; lia | reflexivity].
  - exists 1. split; [cbn; lia | reflexivity].
  - exists 2. split; [cbn; lia | reflexivity].
Qed.

Lemma toy_batches_cover (h : history) :
  loader_batches Toy.fw Toy.loader h <> [] /\
  Forall covers_masks (loader_batches Toy.fw Toy.loader h).
Proof.
  split; [discriminate|]. cbn.
  repeat (constructor; [exact toy_covers_masks|]). constructor.
Qed.

Lemma toy_predicted : predicted [- (1 # 4); - (2 # 1)]%Q 0.
Proof. exact (argmax_predicted [- (1 # 4); - (2 # 1)]%Q ltac:(discriminate)). Qed.

Lemma eval_sample_means_witness :
  let batches := [Toy.prepared; Toy.prepared] in
  let preds := [[0; 0; 0]; [0; 0; 0]] in
  row_per_node Toy.fw /\ Forall per_node batches /\ Forall per_edge batches /\
  Forall2 (Forall2 predicted)
    (eval_outputs Toy.fw 1 [model_eval; model_set_aggr "add"; loader_iter] batches) preds /\
  batches <> [] /\ Forall covers_masks batches /\
  exists accs f1_scores,
    snd (eval_sample Toy.fw Toy.loader 1 []) = Ok (accs, f1_scores) /\
    Forall2 Qeq accs [mean_accuracy train_mask batches preds;
                      mean_accuracy val_mask batches preds;
                      mean_accuracy test_mask batches preds] /\
    Forall2 Qeq f1_scores [mean_macro_f1 train_mask batches preds;
                           mean_macro_f1 val_mask batches preds;
                           mean_macro_f1 test_mask batches preds].
Proof.
  intros batches preds.
  destruct (Forall_batch_ok 2 batches (toy_batches_ok [])) as (P & E & _).
  destruct (toy_batches_cover [model_eval; model_set_aggr "add"]) as (N & C).
  assert (Hp : Forall2 (Forall2 predicted)
                 (eval_outputs Toy.fw 1 [model_eval; model_set_aggr "add"; loader_iter]
                    batches) preds).
  { repeat (constructor; [repeat (constructor; [exact toy_predicted|]); constructor|]).
    constructor. }
  split; [exact toy_row_per_node|]. split; [exact P|]. split; [exact E|].
  split; [exact Hp|]. split; [exact N|]. split; [exact C|].
  destruct (eval_sample_means Toy.fw Toy.loader 1 [] preds toy_row_per_node P
              (fun _ => E) Hp) as (T & V).
  destruct (T N C) as ([accs f1_scores] & Hr).
  exists accs, f1_scores. split; [exact Hr|]. exact (V accs f1_scores Hr).
Defined.

(** C9.  [train_sample] ends in a division by zero when the loader yields no
    batch, and [eval_sample] cannot average (an index error on the empty
    array) when the loader yields no batch.  On batches that fit,
    [eval_sample] ends in a division by zero when some batch has no node in
    one of its three masks, and when the loader yields at least one batch
    and every batch has a node in each mask, both operations return a
    value. *)
Theorem sampled_ops_preconditions fw loader n nl h :
  let train_batches := loader_batches fw loader (h ++ [model_train; model_set_aggr "add"]) in
  let eval_batches := loader_batches fw loader (h ++ [model_eval; model_set_aggr "add"]) in
  (train_batches = [] ->
   snd (train_sample fw loader nl h) = Raise ZeroDivisionError) /\
  (eval_batches = [] ->
   snd (eval_sample fw loader nl h) = Raise IndexError) /\
  (row_per_node fw -> class_scores fw n ->
   Forall (batch_ok n) train_batches -> Forall (batch_ok n) eval_batches ->
   (Exists misses_a_mask eval_batches ->
    snd (eval_sample fw loader nl h) = Raise ZeroDivisionError) /\
   (train_batches <> [] -> Forall covers_masks train_batches ->
    exists loss, snd (train_sample fw loader nl h) = Ok loss) /\
   (eval_batches <> [] -> Forall covers_masks eval_batches ->
    exists r, snd (eval_sample fw loader nl h) = Ok r)).
Proof.
  intros train_batches eval_batches.
  split; [apply train_sample_no_batches|]. split; [apply eval_sample_no_batches|].
  intros R Hc Wt We.
  destruct (Forall_batch_ok n _ Wt) as (Pt & Et & Lt).
  destruct (Forall_batch_ok n _ We) as (Pe & Ee & _).
  split; [|split].
  - now apply eval_sample_zero_division.
  - now apply (train_sample_ok fw loader n).
  - intros Hne C. eexists. apply eval_sample_ok; try assumption; [now intros _|].
    eapply Forall_impl; [|exact C]. apply covers_masks_nonempty.
Qed.

Lemma sampled_ops_preconditions_witness :
  let batches := [Toy.prepared; Toy.prepared] in
  row_per_node Toy.fw /\ class_scores Toy.fw 2 /\ Forall (batch_ok 2) batches /\
  batches <> [] /\ Forall covers_masks batches /\
  (exists loss, snd (train_sample Toy.fw Toy.loader 1 []) = Ok loss) /\
  (exists r, snd (eval_sample Toy.fw Toy.loader 1 []) = Ok r).
Proof.
  intros batches.
  pose proof (toy_batches_ok []) as W.
  destruct (toy_batches_cover []) as (N & C).
  split; [exact toy_row_per_node|]. split; [exact toy_class_scores|].
  split; [exact W|]. split; [exact N|]. split; [exact C|].
  destruct (sampled_ops_preconditions Toy.fw Toy.loader 2 1 []) as (_ & _ & K).
  destruct (K toy_row_per_node toy_class_scores W W) as (_ & T & E).
  split; [exact (T N C) | exact (E N C)].
Defined.

(** ** Perfect predictions *)


















Lemma eval_full_run fw data h :
  let a := (x data, edge_index data, @None (list Q)) in
  let pred := argmax_rows (model_forward fw (h ++ [model_eval; model_set_aggr "mean"]) a) in
  eval_full fw data h
  = (h ++ [model_eval; model_set_aggr "mean"; model_call a],
     rbind (tensor_eq pred (y data)) (fun correct =>
     rbind (accs_loop correct (masks data) []) (fun accs =>
     rbind (f1_loop data pred (masks data) []) (fun f1_scores =>
     Ok (accs, f1_scores))))).
Proof.
  unfold eval_full, call_model, bind, emit, past, ret, lift. cbn [fst snd].
  rewrite <- !app_assoc. cbn [app].
  destruct (tensor_eq _ _) as [c|e]; [|reflexivity]. cbn [rbind].
  destruct (accs_loop _ _ _) as [accs|e]; [|reflexivity]. cbn [rbind].
  destruct (f1_loop _ _ _ _) as [f1s|e]; reflexivity.
Qed.

Lemma full_pred_length fw data h :
  row_per_node fw ->
  length (argmax_rows (model_forward fw h (x data, edge_index data, None)))
  = num_nodes data.
Proof. intros R. unfold argmax_rows. now rewrite length_map, R. Qed.

Lemma eval_full_ok fw data h :
  row_per_node fw -> per_node data -> masks_nonempty data ->
  let pred := argmax_rows (model_forward fw (h ++ [model_eval; model_set_aggr "mean"])
                             (x data, edge_index data, None)) in
  snd (eval_full fw data h) = Ok (acc_row pred data, f1_row pred data).
Proof.
  intros R P F pred. rewrite eval_full_run. cbn [snd]. fold pred.
  apply metrics_ok; try assumption. now apply full_pred_length.
Qed.





(** ** Full-graph training *)

Lemma zip_with_nil_r {A B C : Type} (f : A -> B -> C) (a : list A) :
  zip_with f a [] = [].
Proof. now destruct a. Qed.

Lemma zip_with_masked {A B C : Type} (f : A -> B -> C) (a : list A) :
  forall (b : list B) mask,
  zip_with f (masked a mask) (masked b mask) = masked (zip_with f a b) mask.
Proof.
  induction a as [|u a IH]; intros [|v b] [|t mask]; cbn [masked zip_with];
    rewrite ?zip_with_nil_r; try reflexivity.
  destruct t; cbn [zip_with]; now rewrite IH.
Qed.

Lemma masked_length {A : Type} (t : list A) mask :
  length t = length mask -> length (masked t mask) = sum_bool mask.
Proof.
  intros L. destruct t as [|d t].
  - destruct mask; [reflexivity | discriminate].
  - now rewrite (masked_selected d), length_map, sum_bool_selected.
Qed.

Lemma Forall_masked {A : Type} (P : A -> Prop) (t : list A) :
  forall mask, Forall P t -> Forall P (masked t mask).
Proof.
  induction t as [|u t IH]; intros [|b mask] F; cbn [masked]; try constructor.
  inversion F as [|? ? Hu Ht]; subst.
  destruct b; [constructor; [assumption|] |]; now apply IH.
Qed.

(** [train_full] on a graph that fits: one forward pass, one backward pass
    on the mean negative log-likelihood of the train nodes, one optimizer
    step. *)
Lemma train_full_ok fw n data h :
  row_per_node fw -> class_scores fw n -> per_node data -> labels_below n data ->
  let a := (x data, edge_index data, @None (list Q)) in
  let out := model_forward fw (h ++ [model_train; model_set_aggr "mean";
                                     optimizer_zero_grad]) a in
  train_full fw data h
  = (h ++ [model_train; model_set_aggr "mean"; optimizer_zero_grad; model_call a;
           loss_backward (batch_loss 0 out data); optimizer_step],
     Ok (batch_loss 0 out data)).
Proof.
  intros R Hc (Ly & Lt & _) Hy a out.
  assert (Lo : length out = num_nodes data) by (unfold out; now rewrite R).
  assert (E : rbind (index_mask out (train_mask data)) (fun out_train =>
              rbind (index_mask (y data) (train_mask data)) (fun y_train =>
              nll_loss_mean out_train y_train))
              = Ok (batch_loss 0 out data)).
  { rewrite !index_mask_ok by congruence. cbn [rbind]. unfold nll_loss_mean.
    rewrite (nll_loss_none_ok n).
    - cbn [rbind]. unfold nll_terms. rewrite zip_with_masked.
      fold (nll_terms out (y data)).
      rewrite masked_mean_by_position by congruence. reflexivity.
    - rewrite !masked_length; congruence.
    - apply Forall_masked, Hc.
    - now apply Forall_masked. }
  unfold train_full, call_model, bind, emit, past, ret, lift. cbn [fst snd].
  rewrite <- !app_assoc. cbn [app]. fold a. fold out.
  destruct (index_mask out (train_mask data)) as [o|e]; [|discriminate E].
  destruct (index_mask (y data) (train_mask data)) as [t|e]; [|discriminate E].
  cbn [rbind] in E. rewrite E. rewrite <- !app_assoc. reflexivity.
Qed.

(** ** Normalisation by in-degree *)

Lemma gather_in_range (t : list Q) (index : list nat) :
  Forall (fun i => i < length t) index ->
  gather t index = Ok (map (fun i => nth i t 0%Q) index).
Proof.
  induction 1 as [|i index Hi _ IH]; [reflexivity|].
  cbn [gather map]. rewrite IH.
  destruct (nth_error t i) as [v|] eqn:E.
  - now rewrite (nth_error_nth _ _ _ E).
  - apply nth_error_None in E. lia.
Qed.

Lemma degree_in_range (index : list nat) n :
  Forall (fun v => v < n) index ->
  degree index n
  = Ok (map (fun v => inject_Z (Z.of_nat (count_occ Nat.eq_dec index v))) (seq 0 n)).
Proof.
  intros F. unfold degree.
  replace (forallb (fun i => i <? n) index) with true; [reflexivity|].
  symmetry. apply forallb_forall. rewrite Forall_forall in F.
  intros v Hv. apply Nat.ltb_lt. now apply F.
Qed.

Lemma count_targets (row col : list nat) v :
  length row = length col ->
  count_occ Nat.eq_dec col v = in_degree (row, col) v.
Proof.
  unfold in_degree. cbn [fst snd]. revert col.
  induction row as [|r row IH]; intros [|c col] L; try discriminate; [reflexivity|].
  injection L as L. cbn [combine filter snd count_occ].
  destruct (Nat.eq_dec c v) as [E|N].
  - subst c. rewrite Nat.eqb_refl. cbn [length]. now rewrite (IH _ L).
  - apply Nat.eqb_neq in N. rewrite N. now apply IH.
Qed.

Lemma norm_by_in_degree_run data :
  edges_ok data ->
  norm_by_in_degree data
  = Ok (mkData (x data) (edge_index data)
          (map (fun v => (1 / inject_Z (Z.of_nat (in_degree (edge_index data) v)))%Q)
               (snd (edge_index data)))
          (y data) (train_mask data) (val_mask data) (test_mask data)
          (node_norm data) (edge_norm data)).
Proof.
  intros (L & F). unfold norm_by_in_degree.
  destruct (edge_index data) as [row col] eqn:E. cbn [fst snd] in *.
  rewrite (degree_in_range _ _ F). cbn [rbind].
  rewrite gather_in_range by (now rewrite length_map, length_seq).
  cbn [rbind]. do 2 f_equal. unfold reciprocal. rewrite map_map.
  apply map_ext_in. intros v Hv. rewrite Forall_forall in F.
  pose proof (F v Hv) as Hlt.
  rewrite (nth_indep _ 0%Q (inject_Z (Z.of_nat (count_occ Nat.eq_dec col 0))))
    by (now rewrite length_map, length_seq).
  rewrite (map_nth (fun u => inject_Z (Z.of_nat (count_occ Nat.eq_dec col u)))).
  rewrite seq_nth by assumption. cbn [Nat.add].
  now rewrite (count_targets row col v L).
Qed.

(** C8.  On a well-formed graph the step after loading returns the same
    graph with a new [edge_attr] only: features, edge list, labels and the
    three masks are unchanged, and the attribute of every edge is the
    reciprocal of the in-degree of the edge's target node, which is not 0. *)
Theorem edge_attr_only_change data :
  edges_ok data ->
  exists data',
    norm_by_in_degree data = Ok data' /\
    x data' = x data /\ edge_index data' = edge_index data /\ y data' = y data /\
    train_mask data' = train_mask data /\ val_mask data' = val_mask data /\
    test_mask data' = test_mask data /\
    length (edge_attr data') = length (snd (edge_index data)) /\
    forall e, e < length (snd (edge_index data)) ->
      let target := nth e (snd (edge_index data)) 0 in
      in_degree (edge_index data) target <> 0 /\
      nth e (edge_attr data') 0%Q
      = (1 / inject_Z (Z.of_nat (in_degree (edge_index data) target)))%Q.
Proof.
  intros W. eexists. split; [apply (norm_by_in_degree_run data W)|].
  cbn [x edge_index y train_mask val_mask test_mask edge_attr].
  repeat (split; [reflexivity|]). split; [apply length_map|].
  intros e He. set (target := nth e (snd (edge_index data)) 0). split.
  - destruct W as (L & _). subst target. destruct (edge_index data) as [row col]. cbn [snd] in *.
    rewrite <- (count_targets row col _ L).
    assert (I : In (nth e col 0) col) by (now apply nth_In).
    apply (count_occ_In Nat.eq_dec) in I. lia.
  - rewrite (nth_indep _ 0%Q
               ((fun v => (1 / inject_Z (Z.of_nat (in_degree (edge_index data) v)))%Q) 0))
      by (now rewrite length_map).
    now rewrite (map_nth (fun v => (1 / inject_Z (Z.of_nat (in_degree (edge_index data) v)))%Q)).
Qed.

Lemma toy_edges_ok : edges_ok Toy.graph.
Proof. split; [reflexivity|]. cbn. repeat constructor. Qed.

Lemma edge_attr_only_change_witness :
  exists data',
    norm_by_in_degree Toy.graph = Ok data' /\
    x data' = x Toy.graph /\ edge_index data' = edge_index Toy.graph /\
    nth 0 (edge_attr data') 0%Q
    = (1 / inject_Z (Z.of_nat (in_degree (edge_index Toy.graph) 1)))%Q.
Proof.
  destruct (edge_attr_only_change Toy.graph toy_edges_ok)
    as (data' & E & Hx & He & _ & _ & _ & _ & _ & A).
  exists data'. split; [exact E|]. split; [exact Hx|]. split; [exact He|].
  assert (L : 0 < length (snd (edge_index Toy.graph))) by (cbn; lia).
  exact (proj2 (A 0 L)).
Defined.

(** ** The start of the script *)

Lemma select_dataset_unknown fw args h :
  ~ recognized_dataset args ->
  select_dataset fw args h = (h, Raise (KeyError "Dataset name error")).
Proof.
  intros N. unfold select_dataset.
  destruct (String.eqb_spec (Args.dataset args) "flickr") as [E|_];
    [elim N; now left|].
  destruct (String.eqb_spec (Args.dataset args) "reddit") as [E|_];
    [elim N; now right|].
  reflexivity.
Qed.

Lemma select_dataset_known fw args h :
  recognized_dataset args ->
  select_dataset fw args h
  = (h ++ [Dataset_init (dataset_path fw args)], Ok (chosen_dataset fw args)).
Proof.
  intros R. unfold select_dataset, chosen_dataset, dataset_path.
  destruct (String.eqb_spec (Args.dataset args) "flickr") as [E|N]; [reflexivity|].
  destruct R as [R|R]; [contradiction|]. rewrite R. reflexivity.
Qed.

Lemma select_sampler_unknown args ds data h :
  ~ recognized_sampler args ->
  select_sampler args ds data h = (h, Raise (KeyError "Sampler type error")).
Proof.
  intros N. unfold select_sampler.
  destruct (String.eqb_spec (Args.sampler args) "rw") as [E|_];
    [elim N; now left|].
  destruct (String.eqb_spec (Args.sampler args) "rn") as [E|_];
    [elim N; now right|].
  reflexivity.
Qed.

Lemma select_sampler_known fw args h :
  recognized_sampler args ->
  select_sampler args (chosen_dataset fw args) (prepared_graph fw args) h
  = (h ++ [logger_info (if String.eqb (Args.sampler args) "rw"
                        then Msg_use_rw else Msg_use_rn);
           Loader_init (chosen_loader fw args)],
     Ok (chosen_loader fw args)).
Proof.
  intros R. unfold select_sampler, chosen_loader.
  destruct (String.eqb_spec (Args.sampler args) "rw") as [E|N].
  - unfold bind, emit, ret. cbn. now rewrite <- app_assoc.
  - destruct R as [R|R]; [contradiction|]. rewrite R.
    unfold bind, emit, ret. cbn. now rewrite <- app_assoc.
Qed.

Lemma prepared_graph_run fw args :
  edges_ok (dataset_0 (chosen_dataset fw args)) ->
  norm_by_in_degree (dataset_0 (chosen_dataset fw args)) = Ok (prepared_graph fw args).
Proof. intros W. now rewrite (norm_by_in_degree_run _ W). Qed.

Lemma main_logger fw args :
  main fw args []
  = bind (select_dataset fw args) (fun dataset =>
    bind (emit (logger_info (Msg_dataset (Args.dataset args)))) (fun _ =>
    bind (lift (norm_by_in_degree (dataset_0 dataset))) (fun data =>
    bind (select_sampler args dataset data) (fun loader =>
    bind (emit (logger_info (Msg_gcn_type (Args.gcn_type args)))) (fun _ =>
    bind (construct_model (select_net args) dataset (select_device fw args)) (fun _ =>
    bind (emit (Adam_init (1 # 1000))) (fun _ =>
    bind (for_each (range1 (Args.epochs args + 1))
            (epoch_body fw args data loader) (mkSummary [] [] [] [])) (fun s =>
    report fw (get_log_name fw args "test") s))))))))
      (logger_calls fw args).
Proof.
  unfold main, logger_calls. unfold bind at 1 2.
  destruct (Args.save_log args =? 1)%Z; reflexivity.
Qed.

Lemma main_unknown_dataset fw args :
  ~ recognized_dataset args ->
  main fw args [] = (logger_calls fw args, Raise (KeyError "Dataset name error")).
Proof.
  intros N. rewrite main_logger.
  now rewrite (bind_raise _ _ _ _ _ (select_dataset_unknown fw args _ N)).
Qed.

Lemma main_unknown_sampler fw args :
  recognized_dataset args -> ~ recognized_sampler args ->
  edges_ok (dataset_0 (chosen_dataset fw args)) ->
  main fw args []
  = (logger_calls fw args ++ dataset_calls fw args,
     Raise (KeyError "Sampler type error")).
Proof.
  intros D N W. rewrite main_logger.
  rewrite (bind_ok _ _ _ _ _ (select_dataset_known fw args _ D)).
  unfold bind at 1, emit at 1. unfold bind at 1, lift at 1.
  rewrite (prepared_graph_run fw args W).
  rewrite (bind_raise _ _ _ _ _ (select_sampler_unknown args _ _ _ N)).
  unfold dataset_calls. now rewrite <- app_assoc.
Qed.

Lemma main_startup fw args :
  recognized_dataset args -> recognized_sampler args ->
  edges_ok (dataset_0 (chosen_dataset fw args)) ->
  main fw args []
  = after_startup fw args
      (logger_calls fw args ++ dataset_calls fw args ++ sampler_calls fw args).
Proof.
  intros D S W. rewrite main_logger.
  rewrite (bind_ok _ _ _ _ _ (select_dataset_known fw args _ D)).
  unfold bind at 1, emit at 1. unfold bind at 1, lift at 1.
  rewrite (prepared_graph_run fw args W).
  rewrite (bind_ok _ _ _ _ _ (select_sampler_known fw args _ S)).
  unfold bind at 1, emit at 1. unfold after_startup, dataset_calls, sampler_calls.
  rewrite <- !app_assoc. reflexivity.
Qed.

(** C5.  A dataset name other than "flickr" and "reddit" ends the script
    with [KeyError('Dataset name error')] right after the logger is set up;
    with a recognized dataset (a well-formed graph), a sampler name other
    than "rw" and "rn" ends it with [KeyError('Sampler type error')] right
    after the dataset is loaded and logged; in both cases no call that
    constructs, trains or evaluates a model was made.  With a recognized
    name the corresponding check returns without raising. *)
Theorem unknown_names_raise_key_error fw args :
  (~ recognized_dataset args ->
   main fw args [] = (logger_calls fw args, Raise (KeyError "Dataset name error")) /\
   forallb (fun e => negb (is_model_call e)) (logger_calls fw args) = true) /\
  (recognized_dataset args -> ~ recognized_sampler args ->
   edges_ok (dataset_0 (chosen_dataset fw args)) ->
   main fw args [] = (logger_calls fw args ++ dataset_calls fw args,
                      Raise (KeyError "Sampler type error")) /\
   forallb (fun e => negb (is_model_call e))
     (logger_calls fw args ++ dataset_calls fw args) = true) /\
  (recognized_dataset args ->
   forall h, exists h' dataset, select_dataset fw args h = (h', Ok dataset)) /\
  (recognized_sampler args ->
   forall dataset data h, exists h' loader,
     select_sampler args dataset data h = (h', Ok loader)).
Proof.
  split; [|split; [|split]].
  - intros N. split; [now apply main_unknown_dataset | reflexivity].
  - intros D N W. split; [now apply main_unknown_sampler | reflexivity].
  - intros D h. rewrite (select_dataset_known fw args h D). eauto.
  - intros S dataset data h. unfold select_sampler.
    destruct (String.eqb_spec (Args.sampler args) "rw") as [E|N].
    + unfold bind, emit, ret. cbn. eauto.
    + destruct S as [S|S]; [contradiction|]. rewrite S.
      unfold bind, emit, ret. cbn. eauto.
Qed.

Lemma unknown_names_raise_key_error_witness :
  ~ recognized_dataset Toy_unknown_dataset /\
  main Toy.fw Toy_unknown_dataset []
  = (logger_calls Toy.fw Toy_unknown_dataset, Raise (KeyError "Dataset name error")).
Proof.
  assert (N : ~ recognized_dataset Toy_unknown_dataset)
    by (intros [H|H]; discriminate H).
  split; [exact N|].
  exact (proj1 (proj1 (unknown_names_raise_key_error Toy.fw Toy_unknown_dataset) N)).
Defined.

Lemma select_net_unknown args : ~ recognized_gcn_type args -> select_net args = None.
Proof.
  intros N. unfold select_net, dict_get.
  destruct (String.eqb_spec "sage" (Args.gcn_type args)) as [E|_];
    [elim N; now left|].
  destruct (String.eqb_spec "gat" (Args.gcn_type args)) as [E|_];
    [elim N; now right|].
  reflexivity.
Qed.

(** C10.  With a network name other than "sage" and "gat" the lookup of the
    model class returns [None] and raises nothing; the script (on recognized
    dataset and sampler names) goes on to log the name and ends when [None]
    is called to construct the model, with a [TypeError] and not a
    [KeyError], no model having been constructed. *)
Theorem unknown_gcn_type_fails_at_construction fw args :
  ~ recognized_gcn_type args ->
  select_net args = None /\
  (forall dataset dev h,
     construct_model (select_net args) dataset dev h
     = (h, Raise TypeError_NoneType_not_callable)) /\
  (recognized_dataset args -> recognized_sampler args ->
   edges_ok (dataset_0 (chosen_dataset fw args)) ->
   main fw args []
   = (logger_calls fw args ++ dataset_calls fw args ++ sampler_calls fw args,
      Raise TypeError_NoneType_not_callable) /\
   last (sampler_calls fw args) model_train
   = logger_info (Msg_gcn_type (Args.gcn_type args)) /\
   forallb (fun e => negb (is_model_call e))
     (logger_calls fw args ++ dataset_calls fw args ++ sampler_calls fw args) = true).
Proof.
  intros N. pose proof (select_net_unknown args N) as E.
  split; [exact E|]. split.
  - intros dataset dev h. now rewrite E.
  - intros D S W. split; [|split; reflexivity].
    rewrite (main_startup fw args D S W). unfold after_startup.
    rewrite E. reflexivity.
Qed.

Lemma unknown_gcn_type_fails_at_construction_witness :
  ~ recognized_gcn_type Toy_unknown_gcn /\
  select_net Toy_unknown_gcn = None /\
  snd (main Toy.fw Toy_unknown_gcn []) = Raise TypeError_NoneType_not_callable.
Proof.
  assert (N : ~ recognized_gcn_type Toy_unknown_gcn)
    by (intros [H|H]; discriminate H).
  destruct (unknown_gcn_type_fails_at_construction Toy.fw Toy_unknown_gcn N)
    as (E & _ & R).
  split; [exact N|]. split; [exact E|].
  assert (D : recognized_dataset Toy_unknown_gcn) by (now left).
  assert (S : recognized_sampler Toy_unknown_gcn) by (now right).
  destruct (R D S toy_edges_ok) as (Hm & _).
  exact (f_equal snd Hm).
Defined.

(** ** The epochs *)

Lemma count_ev_app p a b : count_ev p (a ++ b) = count_ev p a + count_ev p b.
Proof. unfold count_ev. now rewrite filter_app, length_app. Qed.

Lemma count_ev_cons p e tr : count_ev p (e :: tr) = Nat.b2n (p e) + count_ev p tr.
Proof. unfold count_ev. cbn. now destruct (p e). Qed.

Ltac unmarked H :=
  match goal with
  | |- ?p ?e = false =>
      let E := fresh in
      destruct (p e) eqn:E; [|reflexivity];
      apply H in E; destruct E as [E|[E|(? & ? & E)]]; discriminate E
  end.

Lemma count_batch_calls p tr :
  marks_phases p -> Forall batch_call tr -> count_ev p tr = 0.
Proof.
  intros Hp. induction 1 as [|e tr He _ IH]; [reflexivity|].
  rewrite count_ev_cons, IH.
  assert (E : p e = false) by (destruct e; cbn in He; try contradiction; unmarked Hp).
  now rewrite E.
Qed.

Lemma mode_then_run {A : Type} mode aggr (rest : M A) h :
  bind (emit mode) (fun _ => bind (emit (model_set_aggr aggr)) (fun _ => rest)) h
  = rest ((h ++ [mode]) ++ [model_set_aggr aggr]).
Proof. reflexivity. Qed.

Lemma count_zero_filter p (tr : list event) : count_ev p tr = 0 -> filter p tr = [].
Proof. unfold count_ev. apply length_zero_iff_nil. Qed.

(** Counting in a list of calls given by its elements: every call other
    than [model_train] and [model_eval] is counted 0. *)
Ltac count_calls Hp :=
  rewrite ?count_ev_app, ?count_ev_cons;
  repeat match goal with
         | |- context [Nat.b2n (?p ?e)] =>
             lazymatch e with
             | model_train => fail
             | model_eval => fail
             | _ => let E := fresh in
                    assert (E : p e = false) by unmarked Hp; rewrite E; clear E
             end
         end;
  cbn; try lia.

Lemma train_step_calls fw (ts nl : Z) data loader h :
  exists tr,
    fst ((if (ts =? 1)%Z then train_sample fw loader nl else train_full fw data) h)
    = h ++ tr
    /\ forall p, marks_phases p -> count_ev p tr = Nat.b2n (p model_train).
Proof.
  destruct (ts =? 1)%Z.
  - destruct (train_sample_rest_adds fw loader nl
                ((h ++ [model_train]) ++ [model_set_aggr "add"])) as (tr & Ht & F).
    exists (model_train :: model_set_aggr "add" :: tr). split.
    + unfold train_sample. rewrite mode_then_run, Ht, <- !app_assoc. reflexivity.
    + intros p Hp. rewrite !count_ev_cons, (count_batch_calls p tr Hp F).
      count_calls Hp.
  - destruct (train_full_calls fw data h) as (tr & E & [->|(loss & ->)]);
      (eexists; split; [exact E|]); intros p Hp; count_calls Hp.
Qed.

Lemma eval_step_calls fw (es nl : Z) data loader h :
  exists tr,
    fst ((if (es =? 1)%Z then eval_sample fw loader nl else eval_full fw data) h)
    = h ++ tr
    /\ forall p, marks_phases p -> count_ev p tr = Nat.b2n (p model_eval).
Proof.
  destruct (es =? 1)%Z.
  - destruct (eval_sample_rest_adds fw loader nl
                ((h ++ [model_eval]) ++ [model_set_aggr "add"])) as (tr & Ht & F).
    exists (model_eval :: model_set_aggr "add" :: tr). split.
    + unfold eval_sample. rewrite mode_then_run, Ht, <- !app_assoc. reflexivity.
    + intros p Hp. rewrite !count_ev_cons, (count_batch_calls p tr Hp F).
      count_calls Hp.
  - eexists. split; [apply eval_full_calls|].
    intros p Hp. count_calls Hp.
Qed.

Lemma epoch_body_partial fw args data loader epoch s h h' s' :
  epoch_body fw args data loader epoch s h = (h', Ok s') ->
  exists tr a0 a2 f0 f2,
    h' = h ++ tr /\
    s' = mkSummary (summary_accs_train s ++ [a0]) (summary_accs_test s ++ [a2])
                   (summary_f1s_train s ++ [f0]) (summary_f1s_test s ++ [f2]) /\
    forall p, marks_phases p ->
      count_ev p tr = Nat.b2n (p model_train) + Nat.b2n (p model_eval).
Proof.
  unfold epoch_body. intros H.
  destruct (train_step_calls fw (Args.train_sample args) (Args.loss_norm args)
              data loader h) as (tr1 & T1 & C1).
  unfold bind at 1 in H.
  match type of T1 with fst ?m = _ => destruct m as [h1 [loss|e]] end;
    [|discriminate H].
  cbn [fst] in T1. subst h1.
  destruct (eval_step_calls fw (Args.eval_sample args) (Args.loss_norm args)
              data loader (h ++ tr1)) as (tr2 & T2 & C2).
  unfold bind at 1 in H.
  match type of T2 with fst ?m = _ => destruct m as [h2 [[accs f1s]|e]] end;
    [|discriminate H].
  cbn [fst snd] in T2, H. subst h2.
  unfold bind, lift, emit, ret, raise, list_index in H.
  destruct (Args.log_interval args =? 0)%Z; [discriminate H|].
  destruct (epoch mod Args.log_interval args =? 0)%Z;
    repeat (match type of H with
            | context [nth_error ?l ?i] => destruct (nth_error l i)
            end; cbv beta iota in H);
    try discriminate H; injection H as <- <-.
  - eexists (tr1 ++ tr2 ++ [_]), _, _, _, _.
    split; [now rewrite <- !app_assoc|]. split; [reflexivity|].
    intros p Hp. rewrite !count_ev_app, (C1 p Hp), (C2 p Hp). count_calls Hp.
  - eexists (tr1 ++ tr2), _, _, _, _.
    split; [now rewrite <- !app_assoc|]. split; [reflexivity|].
    intros p Hp. now rewrite !count_ev_app, (C1 p Hp), (C2 p Hp).
Qed.

Lemma epochs_partial fw args data loader :
  forall epochs s h h' s',
  for_each epochs (epoch_body fw args data loader) s h = (h', Ok s') ->
  exists tr,
    h' = h ++ tr
    /\ length (summary_accs_train s') = length (summary_accs_train s) + length epochs
    /\ length (summary_accs_test s') = length (summary_accs_test s) + length epochs
    /\ length (summary_f1s_train s') = length (summary_f1s_train s) + length epochs
    /\ length (summary_f1s_test s') = length (summary_f1s_test s) + length epochs
    /\ forall p, marks_phases p ->
         count_ev p tr
         = length epochs * (Nat.b2n (p model_train) + Nat.b2n (p model_eval)).
Proof.
  induction epochs as [|epoch rest IH]; intros s h h' s' H.
  - cbn in H. injection H as <- <-. exists []. rewrite app_nil_r.
    cbn. repeat split; lia.
  - cbn [for_each] in H. unfold bind at 1 in H.
    destruct (epoch_body fw args data loader epoch s h) as [h1 [s1|e]] eqn:E1;
      [|discriminate H].
    apply epoch_body_partial in E1 as (tr1 & a0 & a2 & f0 & f2 & -> & -> & C1).
    apply IH in H as (tr2 & -> & L1 & L2 & L3 & L4 & C2).
    cbn [summary_accs_train summary_accs_test summary_f1s_train summary_f1s_test] in *.
    rewrite length_app in L1, L2, L3, L4. cbn [length] in *.
    exists (tr1 ++ tr2). rewrite <- app_assoc. repeat split; try lia.
    intros p Hp. rewrite count_ev_app, (C1 p Hp), (C2 p Hp). lia.
Qed.

(** *** What an evaluation returns: three accuracies, three F1 scores *)

Lemma accs_loop_length correct ms :
  forall accs r, accs_loop correct ms accs = Ok r -> length r = length accs + length ms.
Proof.
  induction ms as [|m ms IH]; intros accs r H; cbn [accs_loop] in H.
  - injection H as <-. cbn. lia.
  - destruct (index_mask correct m) as [c|e]; [|discriminate H]. cbn [rbind] in H.
    destruct (int_truediv _ _) as [a|e]; [|discriminate H]. cbn [rbind] in H.
    apply IH in H. rewrite length_app in H. cbn [length] in *. lia.
Qed.

Lemma f1_loop_length data pred ms :
  forall f1s r, f1_loop data pred ms f1s = Ok r -> length r = length f1s + length ms.
Proof.
  induction ms as [|m ms IH]; intros f1s r H; cbn [f1_loop] in H.
  - injection H as <-. cbn. lia.
  - destruct (index_mask (y data) m) as [t|e]; [|discriminate H]. cbn [rbind] in H.
    destruct (index_mask pred m) as [p|e]; [|discriminate H]. cbn [rbind] in H.
    apply IH in H. rewrite length_app in H. cbn [length] in *. lia.
Qed.

Lemma mean_loop_length A F :
  forall range3 res r, mean_loop A F range3 res = Ok r ->
  length (fst r) = length (fst res) + length range3 /\
  length (snd r) = length (snd res) + length range3.
Proof.
  induction range3 as [|i range3 IH]; intros res r H; cbn [mean_loop] in H.
  - injection H as <-. cbn. lia.
  - destruct (column A i) as [ca|e]; [|discriminate H]. cbn [rbind] in H.
    destruct (column F i) as [cf|e]; [|discriminate H]. cbn [rbind] in H.
    apply IH in H. cbn [fst snd] in H. rewrite !length_app in H. cbn [length] in *. lia.
Qed.

Lemma eval_full_sizes fw data h h' accs f1_scores :
  eval_full fw data h = (h', Ok (accs, f1_scores)) ->
  length accs = 3 /\ length f1_scores = 3.
Proof.
  rewrite eval_full_run. cbv zeta.
  destruct (tensor_eq _ _) as [c|e]; [|discriminate]. cbn [rbind].
  destruct (accs_loop _ _ _) as [a|e] eqn:Ea; [|discriminate]. cbn [rbind].
  destruct (f1_loop _ _ _ _) as [f|e] eqn:Ef; [|discriminate]. cbn [rbind].
  intros H. injection H as _ <- <-.
  apply accs_loop_length in Ea. apply f1_loop_length in Ef.
  unfold masks in *. cbn [length] in *. lia.
Qed.

Lemma eval_sample_sizes fw loader nl h h' accs f1_scores :
  eval_sample fw loader nl h = (h', Ok (accs, f1_scores)) ->
  length accs = 3 /\ length f1_scores = 3.
Proof.
  rewrite eval_sample_run.
  destruct (for_each _ _ _ _) as [h1 [all|e]]; [|discriminate].
  intros H. apply (f_equal snd) in H. cbn [snd] in H.
  apply mean_loop_length in H. cbn [fst snd length seq] in H. lia.
Qed.

Lemma eval_op_sizes fw args h h' accs f1_scores :
  eval_op fw args h = (h', Ok (accs, f1_scores)) ->
  length accs = 3 /\ length f1_scores = 3.
Proof.
  unfold eval_op. destruct (Args.eval_sample args =? 1)%Z.
  - apply eval_sample_sizes.
  - apply eval_full_sizes.
Qed.

(** *** One epoch, and the epochs of a run *)

Lemma epoch_body_inv fw args epoch s h h' s' :
  epoch_body fw args (prepared_graph fw args) (chosen_loader fw args) epoch s h
  = (h', Ok s') ->
  exists h1 loss h2 accs f1_scores,
    train_op fw args h = (h1, Ok loss) /\
    eval_op fw args h1 = (h2, Ok (accs, f1_scores)) /\
    length accs = 3 /\ length f1_scores = 3 /\
    Args.log_interval args <> 0%Z /\
    h' = h2 ++ (if (epoch mod Args.log_interval args =? 0)%Z
                then [logger_info (Msg_epoch epoch loss (nth 0 accs 0%Q) (nth 0 f1_scores 0%Q)
                                             (nth 2 accs 0%Q) (nth 2 f1_scores 0%Q))]
                else []) /\
    s' = mkSummary (summary_accs_train s ++ [nth 0 accs 0%Q])
                   (summary_accs_test s ++ [nth 2 accs 0%Q])
                   (summary_f1s_train s ++ [nth 0 f1_scores 0%Q])
                   (summary_f1s_test s ++ [nth 2 f1_scores 0%Q]).
Proof.
  unfold epoch_body. fold (train_op fw args). fold (eval_op fw args). intros H.
  unfold bind at 1 in H.
  destruct (train_op fw args h) as [h1 [loss|e]] eqn:E1; [|discriminate H].
  unfold bind at 1 in H.
  destruct (eval_op fw args h1) as [h2 [[accs f1s]|e]] eqn:E2; [|discriminate H].
  destruct (eval_op_sizes _ _ _ _ _ _ E2) as (L1 & L2).
  exists h1, loss, h2, accs, f1s.
  destruct accs as [|a0 [|a1 [|a2 [|]]]]; try discriminate L1.
  destruct f1s as [|f0 [|f1 [|f2 [|]]]]; try discriminate L2.
  cbn [fst snd nth] in *.
  unfold bind, lift, emit, ret, raise, list_index in H. cbn [nth_error] in H.
  destruct (Z.eqb_spec (Args.log_interval args) 0) as [Z0|N0]; [discriminate H|].
  destruct (epoch mod Args.log_interval args =? 0)%Z; injection H as <- <-;
    rewrite ?app_nil_r; repeat split; auto.
Qed.

Lemma epochs_inv fw args :
  forall epochs s h h' s',
  for_each epochs (epoch_body fw args (prepared_graph fw args) (chosen_loader fw args)) s h
  = (h', Ok s') ->
  exists rs,
    epochs_ran fw args h epochs rs h' /\
    s' = mkSummary (summary_accs_train s ++ map (fun r => nth 0 (accs_of r) 0%Q) rs)
                   (summary_accs_test s ++ map (fun r => nth 2 (accs_of r) 0%Q) rs)
                   (summary_f1s_train s ++ map (fun r => nth 0 (f1_scores_of r) 0%Q) rs)
                   (summary_f1s_test s ++ map (fun r => nth 2 (f1_scores_of r) 0%Q) rs).
Proof.
  induction epochs as [|epoch rest IH]; intros s h h' s' H.
  - cbn in H. injection H as <- <-. exists []. split; [constructor|].
    cbn [map]. rewrite !app_nil_r. now destruct s.
  - cbn [for_each] in H. unfold bind at 1 in H.
    destruct (epoch_body _ _ _ _ epoch s h) as [h1 [s1|e]] eqn:E1; [|discriminate H].
    apply epoch_body_inv in E1
      as (h0 & loss & h2 & accs & f1s & T & V & L1 & L2 & _ & -> & ->).
    apply IH in H as (rs & Hr & ->).
    exists ((loss, (accs, f1s)) :: rs). split.
    + econstructor; eassumption.
    + cbn [summary_accs_train summary_accs_test summary_f1s_train summary_f1s_test
           map accs_of f1_scores_of fst snd].
      now rewrite <- !app_assoc.
Qed.

Lemma epochs_ran_length fw args h epochs rs h' :
  epochs_ran fw args h epochs rs h' -> length rs = length epochs.
Proof. induction 1; cbn; congruence. Qed.

(** *** The selected operations return under the conditions of a run *)

Section Selected.

Variables (fw : Framework) (args : Args.t).
Hypothesis C : run_conditions fw args.

Lemma train_op_total h : exists h1 loss, train_op fw args h = (h1, Ok loss).
Proof.
  destruct C as ((Cl & _) & R & Hc & Cb & Cf). unfold train_op.
  destruct (Z.eqb_spec (Args.train_sample args) 1) as [E|N].
  - destruct (Cl (or_introl E) (h ++ [model_train; model_set_aggr "add"])) as (Hne & Cv).
    destruct (Forall_batch_ok _ _ (Cb (or_introl E) (h ++ [model_train; model_set_aggr "add"])))
      as (P & Ed & L).
    destruct (train_sample_ok fw _ _ (Args.loss_norm args) h R Hc P (fun _ => Ed) L Hne Cv)
      as (loss & Hl).
    destruct (train_sample _ _ _ h) as [h1 r]. cbn [snd] in Hl. subst r. eauto.
  - destruct (Cf (or_introl N)) as (P & L).
    eexists. eexists. now apply (train_full_ok fw _ _ h R Hc).
Qed.

Lemma eval_op_total h : exists h2 res, eval_op fw args h = (h2, Ok res).
Proof.
  destruct C as ((Cl & Cm) & R & Hc & Cb & Cf). unfold eval_op.
  destruct (Z.eqb_spec (Args.eval_sample args) 1) as [E|N].
  - destruct (Cl (or_intror E) (h ++ [model_eval; model_set_aggr "add"])) as (Hne & Cv).
    destruct (Forall_batch_ok _ _ (Cb (or_intror E) (h ++ [model_eval; model_set_aggr "add"])))
      as (P & Ed & _).
    pose proof (eval_sample_ok fw _ (Args.loss_norm args) h R P (fun _ => Ed) Hne
                  (Forall_impl _ covers_masks_nonempty Cv)) as Hr.
    destruct (eval_sample _ _ _ h) as [h2 r]. cbn [snd] in Hr. subst r. eauto.
  - destruct (Cf (or_intror N)) as (P & _).
    pose proof (eval_full_ok fw (prepared_graph fw args) h R P
                  (covers_masks_nonempty _ (Cm N))) as Hr.
    destruct (eval_full _ _ h) as [h2 r]. cbn [snd] in Hr. subst r. eauto.
Qed.

Lemma epoch_body_total epoch s h :
  Args.log_interval args <> 0%Z ->
  exists h' s',
    epoch_body fw args (prepared_graph fw args) (chosen_loader fw args) epoch s h
    = (h', Ok s').
Proof.
  intros Li. unfold epoch_body. fold (train_op fw args). fold (eval_op fw args).
  destruct (train_op_total h) as (h1 & loss & E1). rewrite (bind_ok _ _ _ _ _ E1).
  destruct (eval_op_total h1) as (h2 & [accs f1s] & E2). rewrite (bind_ok _ _ _ _ _ E2).
  destruct (eval_op_sizes _ _ _ _ _ _ E2) as (L1 & L2).
  destruct accs as [|a0 [|a1 [|a2 [|]]]]; try discriminate L1.
  destruct f1s as [|f0 [|f1 [|f2 [|]]]]; try discriminate L2.
  unfold bind, lift, emit, ret, raise, list_index. cbn [fst snd nth_error].
  destruct (Z.eqb_spec (Args.log_interval args) 0) as [Z0|_]; [contradiction|].
  destruct (epoch mod Args.log_interval args =? 0)%Z; eauto.
Qed.

Lemma epochs_total :
  Args.log_interval args <> 0%Z ->
  forall epochs s h,
  exists h' s',
    for_each epochs (epoch_body fw args (prepared_graph fw args) (chosen_loader fw args)) s h
    = (h', Ok s').
Proof.
  intros Li. induction epochs as [|epoch rest IH]; intros s h.
  - exists h, s. reflexivity.
  - destruct (epoch_body_total epoch s h Li) as (h1 & s1 & E1).
    cbn [for_each]. rewrite (bind_ok _ _ _ _ _ E1). apply IH.
Qed.

End Selected.

(** ** The report *)

Lemma argmax_from_bound t :
  forall best besti i, besti < i -> argmax_from best besti i t < i + length t.
Proof.
  induction t as [|v t IH]; intros best besti i H; cbn [argmax_from length]; [lia|].
  destruct (Qle_bool v best).
  - pose proof (IH best besti (S i)). lia.
  - pose proof (IH v i (S i)). lia.
Qed.

Lemma np_argmax_bound a :
  a <> [] -> exists i, np_argmax a = Ok i /\ i < length a.
Proof.
  destruct a as [|v a]; [congruence|]. intros _. eexists. split; [reflexivity|].
  pose proof (argmax_from_bound a v 0 1). cbn [length]. lia.
Qed.

Lemma list_index_ok l i : i < length l -> list_index l i = Ok (nth i l 0%Q).
Proof.
  intros H. unfold list_index. destruct (nth_error l i) eqn:E.
  - now rewrite (nth_error_nth _ _ _ E).
  - apply nth_error_None in E. lia.
Qed.

(** The report on summary arrays that are not empty: the four lines, then
    the call of [np.savez]; the two last lines follow when that call
    returns, and its error ends the script otherwise. *)
Lemma report_total fw log_name s h :
  summary_accs_test s <> [] ->
  length (summary_f1s_test s) = length (summary_accs_test s) ->
  exists best_acc acc_at best_f1 f1_at,
    np_max (summary_accs_test s) = Ok best_acc /\
    np_argmax (summary_accs_test s) = Ok acc_at /\ acc_at < length (summary_accs_test s) /\
    np_max (summary_f1s_test s) = Ok best_f1 /\
    np_argmax (summary_f1s_test s) = Ok f1_at /\ f1_at < length (summary_f1s_test s) /\
    let lines :=
      [logger_info Msg_results; logger_info (Msg_setting log_name);
       logger_info (Msg_best_acc best_acc acc_at (nth acc_at (summary_f1s_test s) 0%Q));
       logger_info (Msg_best_f1 best_f1 f1_at (nth f1_at (summary_accs_test s) 0%Q))] in
    let path := (summary_path ++ "/" ++ log_name ++ ".npz")%string in
    let call :=
      np_savez path [("train_acc"%string, summary_accs_train s);
                     ("test_acc"%string, summary_accs_test s);
                     ("train_f1"%string, summary_f1s_train s);
                     ("test_f1"%string, summary_f1s_test s)] in
    report fw log_name s h
    = match np_savez_result fw (h ++ lines) path with
      | Ok _ => (h ++ lines ++ [call; logger_info Msg_save_summary; logger_info Msg_save_logs],
                 Ok tt)
      | Raise e => (h ++ lines ++ [call], Raise e)
      end.
Proof.
  intros Na L.
  assert (Nf : summary_f1s_test s <> []).
  { destruct (summary_f1s_test s); [|discriminate].
    destruct (summary_accs_test s); [congruence | discriminate]. }
  destruct (np_argmax_bound _ Na) as (i & Ei & Hi).
  destruct (np_argmax_bound _ Nf) as (j & Ej & Hj).
  assert (Ma : exists m, np_max (summary_accs_test s) = Ok m)
    by (destruct (summary_accs_test s); [congruence | cbn; eauto]).
  assert (Mf : exists m, np_max (summary_f1s_test s) = Ok m)
    by (destruct (summary_f1s_test s); [congruence | cbn; eauto]).
  destruct Ma as (ma & Ma). destruct Mf as (mf & Mf).
  exists ma, i, mf, j. repeat (split; [assumption|]). cbv zeta.
  unfold report, bind, emit, lift, past.
  rewrite Ma, Ei, Mf, Ej.
  rewrite (list_index_ok (summary_f1s_test s) i) by lia.
  rewrite (list_index_ok (summary_accs_test s) j) by lia.
  rewrite <- !app_assoc. cbn [app].
  destruct (np_savez_result fw _ _) as [[]|e]; rewrite <- ?app_assoc; reflexivity.
Qed.

Lemma report_empty fw log_name s h :
  summary_accs_test s = [] -> snd (report fw log_name s h) = Raise ValueError.
Proof. intros E. unfold report, bind, emit, lift. now rewrite E. Qed.

(** ** A whole run *)

Lemma select_net_known args :
  recognized_gcn_type args -> exists cls, select_net args = Some cls.
Proof.
  intros [E|E]; unfold select_net; rewrite E; cbn; eauto.
Qed.

Lemma range1_length epochs : length (range1 (epochs + 1)) = Z.to_nat epochs.
Proof.
  unfold range1, range_from. rewrite length_map, length_seq. f_equal. lia.
Qed.

Lemma marks_phases_train : marks_phases is_train.
Proof. intros e H. destruct e; try discriminate H. now left. Qed.

Lemma marks_phases_eval : marks_phases is_eval.
Proof. intros e H. destruct e; try discriminate H. right. now left. Qed.

Lemma marks_phases_savez : marks_phases is_savez.
Proof. intros e H. destruct e; try discriminate H. right. right. eauto. Qed.

(** *** The calls of the epochs are calls of the loop *)

Lemma train_step_adds fw (ts nl : Z) data loader :
  adds loop_call (if (ts =? 1)%Z then train_sample fw loader nl else train_full fw data).
Proof.
  destruct (ts =? 1)%Z.
  - unfold train_sample. repeat adds_step; try exact I.
    apply train_sample_body_adds; cbn; auto.
  - unfold train_full. repeat adds_step; exact I.
Qed.

Lemma eval_step_adds fw (es nl : Z) data loader :
  adds loop_call (if (es =? 1)%Z then eval_sample fw loader nl else eval_full fw data).
Proof.
  destruct (es =? 1)%Z.
  - unfold eval_sample. repeat adds_step; try exact I.
    apply eval_sample_body_adds; cbn; auto.
  - unfold eval_full. repeat adds_step; exact I.
Qed.

Lemma loop_call_no_savez e : loop_call e -> is_savez e = false.
Proof. destruct e; cbn; tauto || discriminate || reflexivity. Qed.

Lemma epochs_ran_calls fw args h epochs rs h' :
  epochs_ran fw args h epochs rs h' ->
  exists tr, h' = h ++ tr /\ Forall loop_call tr.
Proof.
  induction 1 as [h|h epoch rest h1 loss h2 accs f1s rs h' T V _ _ _ (tr & -> & F)].
  - exists []. now rewrite app_nil_r.
  - destruct (train_step_adds fw (Args.train_sample args) (Args.loss_norm args)
                (prepared_graph fw args) (chosen_loader fw args) h) as (tr1 & E1 & F1).
    fold (train_op fw args) in E1. rewrite T in E1. cbn [fst] in E1. subst h1.
    destruct (eval_step_adds fw (Args.eval_sample args) (Args.loss_norm args)
                (prepared_graph fw args) (chosen_loader fw args) (h ++ tr1)) as (tr2 & E2 & F2).
    fold (eval_op fw args) in E2. rewrite V in E2. cbn [fst] in E2. subst h2.
    eexists. split; [rewrite <- !app_assoc; reflexivity|].
    repeat (apply Forall_app; split); try assumption.
    destruct (epoch mod Args.log_interval args =? 0)%Z; repeat constructor.
Qed.

(** *** The files of a run *)

Lemma files_from_app fw calls1 :
  forall before calls2,
  files_from fw before (calls1 ++ calls2)
  = files_from fw before calls1 ++ files_from fw (before ++ calls1) calls2.
Proof.
  induction calls1 as [|e calls1 IH]; intros before calls2.
  - cbn. now rewrite app_nil_r.
  - cbn [app files_from]. rewrite IH, <- !app_assoc. reflexivity.
Qed.

Lemma files_from_quiet fw calls :
  forall before, Forall (fun c => is_savez c = false) calls ->
  files_from fw before calls = [].
Proof.
  induction calls as [|e calls IH]; intros before F; [reflexivity|].
  inversion F as [|? ? He Hc]; subst. cbn [files_from]. rewrite (IH _ Hc).
  destruct e; try discriminate He; reflexivity.
Qed.

Lemma startup_quiet fw args model :
  Forall (fun c => is_savez c = false)
    ((logger_calls fw args ++ dataset_calls fw args ++ sampler_calls fw args)
     ++ [Net_init model; Adam_init (1 # 1000)]).
Proof. unfold logger_calls, dataset_calls, sampler_calls. repeat constructor. Qed.

(** *** Runs that end normally *)

(** A run that ends normally: the calls of the start, the epochs, then the
    report, whose call of [np.savez] returned. *)
Lemma run_inv fw args h :
  recognized_dataset args -> recognized_sampler args -> recognized_gcn_type args ->
  edges_ok (dataset_0 (chosen_dataset fw args)) ->
  main fw args [] = (h, Ok tt) ->
  exists model rs h' best_acc acc_at best_f1 f1_at,
    let s := mkSummary (map (fun r => nth 0 (accs_of r) 0%Q) rs)
                       (map (fun r => nth 2 (accs_of r) 0%Q) rs)
                       (map (fun r => nth 0 (f1_scores_of r) 0%Q) rs)
                       (map (fun r => nth 2 (f1_scores_of r) 0%Q) rs) in
    epochs_ran fw args
      ((logger_calls fw args ++ dataset_calls fw args ++ sampler_calls fw args)
       ++ [Net_init model; Adam_init (1 # 1000)])
      (range1 (Args.epochs args + 1)) rs h' /\
    rs <> [] /\
    h = h' ++ report_calls fw args s best_acc acc_at best_f1 f1_at /\
    np_savez_result fw
      (h' ++ [logger_info Msg_results;
              logger_info (Msg_setting (get_log_name fw args "test"));
              logger_info (Msg_best_acc best_acc acc_at (nth acc_at (summary_f1s_test s) 0%Q));
              logger_info (Msg_best_f1 best_f1 f1_at (nth f1_at (summary_accs_test s) 0%Q))])
      (summary_path ++ "/" ++ get_log_name fw args "test" ++ ".npz")
    = Ok tt /\
    np_max (summary_accs_test s) = Ok best_acc /\
    np_argmax (summary_accs_test s) = Ok acc_at /\
    np_max (summary_f1s_test s) = Ok best_f1 /\
    np_argmax (summary_f1s_test s) = Ok f1_at.
Proof.
  intros D S G W Hm.
  rewrite (main_startup fw args D S W) in Hm. unfold after_startup in Hm.
  destruct (select_net_known args G) as (cls & En). rewrite En in Hm.
  set (h0 := logger_calls fw args ++ dataset_calls fw args ++ sampler_calls fw args) in *.
  set (model := mkModel cls (num_node_features (chosen_dataset fw args)) 256
                        (num_classes (chosen_dataset fw args)) (select_device fw args)).
  assert (Em : construct_model (Some cls) (chosen_dataset fw args) (select_device fw args) h0
               = (h0 ++ [Net_init model], Ok model)) by reflexivity.
  rewrite (bind_ok _ _ _ _ _ Em) in Hm. unfold bind at 1, emit at 1 in Hm.
  rewrite <- app_assoc in Hm. cbn [app] in Hm. unfold bind at 1 in Hm.
  destruct (for_each _ _ _ _) as [h2 [s|e]] eqn:El; [|discriminate Hm].
  apply epochs_inv in El as (rs & Hr & ->).
  cbn [summary_accs_train summary_accs_test summary_f1s_train summary_f1s_test app] in Hm.
  set (s := mkSummary _ _ _ _) in Hm.
  assert (Na : summary_accs_test s <> []).
  { intros Hz. pose proof (report_empty fw (get_log_name fw args "test") s h2 Hz) as R.
    rewrite Hm in R. discriminate R. }
  destruct (report_total fw (get_log_name fw args "test") s h2 Na)
    as (ma & i & mf & j & Ma & Ei & _ & Mf & Ej & _ & Er);
    [subst s; cbn; now rewrite !length_map|].
  cbv zeta in Er. rewrite Er in Hm.
  destruct (np_savez_result fw _ _) as [[]|e] eqn:Es; [|discriminate Hm].
  injection Hm as <-.
  exists model, rs, h2, ma, i, mf, j. cbv zeta. fold s.
  split; [exact Hr|]. split.
  { intros Z. subst rs. now apply Na. }
  split; [reflexivity|]. split; [exact Es|]. repeat split; assumption.
Qed.

Lemma run_total fw args :
  recognized_dataset args -> recognized_sampler args -> recognized_gcn_type args ->
  edges_ok (dataset_0 (chosen_dataset fw args)) ->
  run_conditions fw args -> summary_writable fw args ->
  Args.log_interval args <> 0%Z -> (1 <= Args.epochs args)%Z ->
  exists h, main fw args [] = (h, Ok tt).
Proof.
  intros D S G W C Sw Li He.
  rewrite (main_startup fw args D S W). unfold after_startup.
  destruct (select_net_known args G) as (cls & En). rewrite En.
  set (h0 := logger_calls fw args ++ dataset_calls fw args ++ sampler_calls fw args).
  set (model := mkModel cls (num_node_features (chosen_dataset fw args)) 256
                        (num_classes (chosen_dataset fw args)) (select_device fw args)).
  assert (Em : construct_model (Some cls) (chosen_dataset fw args) (select_device fw args) h0
               = (h0 ++ [Net_init model], Ok model)) by reflexivity.
  rewrite (bind_ok _ _ _ _ _ Em). unfold bind at 1, emit at 1.
  destruct (epochs_total fw args C Li (range1 (Args.epochs args + 1))
              (mkSummary [] [] [] []) ((h0 ++ [Net_init model]) ++ [Adam_init (1 # 1000)]))
    as (h2 & s & El).
  rewrite (bind_ok _ _ _ _ _ El).
  pose proof El as Hi. apply epochs_inv in Hi as (rs & Hr & Es).
  pose proof (epochs_ran_length _ _ _ _ _ _ Hr) as Lr. rewrite range1_length in Lr.
  cbn [summary_accs_train summary_accs_test summary_f1s_train summary_f1s_test app] in Es.
  destruct (report_total fw (get_log_name fw args "test") s h2)
    as (ma & i & mf & j & _ & _ & _ & _ & _ & _ & Er).
  { subst s. cbn. destruct rs; [cbn in Lr; lia | discriminate]. }
  { subst s. cbn. now rewrite !length_map. }
  cbv zeta in Er. rewrite Er, Sw. eauto.
Qed.

Lemma toy_prepared_graph epochs :
  prepared_graph Toy.fw (Toy.args epochs) = Toy.prepared.
Proof. reflexivity. Qed.

Lemma toy_loader epochs : chosen_loader Toy.fw (Toy.args epochs) = Toy.loader.
Proof. reflexivity. Qed.

Lemma toy_run_conditions epochs : run_conditions Toy.fw (Toy.args epochs).
Proof.
  unfold run_conditions. cbv zeta. rewrite toy_loader, toy_prepared_graph.
  split; [split|].
  - intros _ h. apply toy_batches_cover.
  - intros N. now elim N.
  - split; [exact toy_row_per_node|]. split; [exact toy_class_scores|]. split.
    + intros _ h. apply toy_batches_ok.
    + intros _. destruct toy_prepared_ok as (P & _ & L). now split.
Qed.

Lemma toy_summary_writable epochs : summary_writable Toy.fw (Toy.args epochs).
Proof. intros h. reflexivity. Qed.

Lemma toy_edges_ok_run epochs :
  edges_ok (dataset_0 (chosen_dataset Toy.fw (Toy.args epochs))).
Proof. exact toy_edges_ok. Qed.

(** C6.  With recognized names and a well-formed dataset, every run that
    ends normally went over [E >= 1] epochs, each of which trained (one
    loss) and then evaluated (three accuracies and three F1 scores), and
    wrote exactly one file: an archive that is not compressed, made of the
    four arrays named train_acc, test_acc, train_f1 and test_f1, which hold
    for each epoch, in order, entries 0 and 2 of the accuracies and entries
    0 and 2 of the F1 scores its evaluation returned, so each is of length
    [E].  A run does end normally when [E >= 1], the log interval is not 0,
    the selected operations meet their preconditions and [np.savez] can
    write the file. *)
Theorem run_summary fw args :
  recognized_dataset args -> recognized_sampler args -> recognized_gcn_type args ->
  edges_ok (dataset_0 (chosen_dataset fw args)) ->
  (run_conditions fw args -> summary_writable fw args ->
   Args.log_interval args <> 0%Z -> (1 <= Args.epochs args)%Z ->
   exists h, main fw args [] = (h, Ok tt)) /\
  (forall h, main fw args [] = (h, Ok tt) ->
   exists model rs h',
     epochs_ran fw args
       ((logger_calls fw args ++ dataset_calls fw args ++ sampler_calls fw args)
        ++ [Net_init model; Adam_init (1 # 1000)])
       (range1 (Args.epochs args + 1)) rs h' /\
     (1 <= Args.epochs args)%Z /\ length rs = Z.to_nat (Args.epochs args) /\
     files_written fw h
     = [((summary_path ++ "/" ++ get_log_name fw args "test" ++ ".npz")%string,
         mkNpz false
           [("train_acc"%string, map (fun r => nth 0 (accs_of r) 0%Q) rs);
            ("test_acc"%string, map (fun r => nth 2 (accs_of r) 0%Q) rs);
            ("train_f1"%string, map (fun r => nth 0 (f1_scores_of r) 0%Q) rs);
            ("test_f1"%string, map (fun r => nth 2 (f1_scores_of r) 0%Q) rs)])]).
Proof.
  intros D S G W. split; [now apply run_total|].
  intros h Hm.
  destruct (run_inv fw args h D S G W Hm)
    as (model & rs & h' & ma & i & mf & j & Hr & Ne & -> & Es & _).
  pose proof (epochs_ran_length _ _ _ _ _ _ Hr) as Lr. rewrite range1_length in Lr.
  exists model, rs, h'. split; [exact Hr|].
  split; [destruct rs; [congruence | cbn [length] in Lr; lia]|].
  split; [exact Lr|].
  destruct (epochs_ran_calls _ _ _ _ _ _ Hr) as (tr & -> & F).
  unfold files_written, report_calls, archive.
  rewrite files_from_app, (files_from_quiet fw _ []).
  - cbn [app files_from]. rewrite <- !app_assoc in *. cbn [app] in *.
    rewrite Es. reflexivity.
  - apply Forall_app. split; [apply startup_quiet|].
    eapply Forall_impl; [apply loop_call_no_savez | exact F].
Qed.

Lemma run_summary_witness :
  exists h model rs h',
    main Toy.fw (Toy.args 2) [] = (h, Ok tt) /\
    epochs_ran Toy.fw (Toy.args 2)
      ((logger_calls Toy.fw (Toy.args 2) ++ dataset_calls Toy.fw (Toy.args 2)
        ++ sampler_calls Toy.fw (Toy.args 2))
       ++ [Net_init model; Adam_init (1 # 1000)])
      (range1 3) rs h' /\
    length rs = 2 /\
    files_written Toy.fw h
    = [("./summary/test.npz"%string,
        mkNpz false
          [("train_acc"%string, map (fun r => nth 0 (accs_of r) 0%Q) rs);
           ("test_acc"%string, map (fun r => nth 2 (accs_of r) 0%Q) rs);
           ("train_f1"%string, map (fun r => nth 0 (f1_scores_of r) 0%Q) rs);
           ("test_f1"%string, map (fun r => nth 2 (f1_scores_of r) 0%Q) rs)])].
Proof.
  assert (D : recognized_dataset (Toy.args 2)) by (now left).
  assert (S : recognized_sampler (Toy.args 2)) by (now right).
  assert (G : recognized_gcn_type (Toy.args 2)) by (now left).
  assert (Li : Args.log_interval (Toy.args 2) <> 0%Z) by discriminate.
  assert (He : (1 <= Args.epochs (Toy.args 2))%Z) by (cbn; lia).
  destruct (run_summary Toy.fw (Toy.args 2) D S G (toy_edges_ok_run 2)) as (T & P).
  destruct (T (toy_run_conditions 2) (toy_summary_writable 2) Li He) as (h & Hm).
  destruct (P h Hm) as (model & rs & h' & Hr & _ & Lr & Fw).
  exists h, model, rs, h'. split; [exact Hm|]. split; [exact Hr|].
  split; [exact Lr | exact Fw].
Defined.

(** C6, against the wording 'a compressed archive': the toy run of two
    epochs ends normally and the file it has written is not compressed,
    [np.savez] being the call that stores the arrays as they are. *)
Lemma run_summary_archive_not_compressed :
  snd (main Toy.fw (Toy.args 2) []) = Ok tt /\
  compressed_archive_written Toy.fw (fst (main Toy.fw (Toy.args 2) [])) = false.
Proof. vm_compute. split; reflexivity. Qed.

(** ** The best epoch of the report *)

Lemma np_argmax_is_position_of_max a m i :
  np_max a = Ok m -> np_argmax a = Ok i ->
  i < length a /\ nth i a 0%Q = m /\ forall v, In v a -> (v <= m)%Q.
Proof.
  destruct a as [|v a]; [discriminate|]. cbn [np_max np_argmax].
  intros [= <-] [= <-].
  apply (argmax_from_spec a [v] v 0).
  - cbn. lia.
  - reflexivity.
  - intros u [<-|[]]. apply Qle_refl.
Qed.

(** What the report says of the best epochs, for summary arrays of [n >= 1]
    entries (entry [k] is the metric of the [k+1]-th epoch): the value is
    the maximum of the test array, the paired metric is the one at the same
    position, and the "epoch" is that position, counted from 0, so it is
    below [n]. *)
Lemma report_indexes_from_zero fw log_name s h :
  summary_accs_test s <> [] ->
  length (summary_f1s_test s) = length (summary_accs_test s) ->
  exists best_acc acc_at best_f1 f1_at,
    reported_best_epochs (skipn (length h) (fst (report fw log_name s h)))
    = [acc_at; f1_at] /\
    In (logger_info (Msg_best_acc best_acc acc_at (nth acc_at (summary_f1s_test s) 0%Q)))
       (fst (report fw log_name s h)) /\
    In (logger_info (Msg_best_f1 best_f1 f1_at (nth f1_at (summary_accs_test s) 0%Q)))
       (fst (report fw log_name s h)) /\
    acc_at < length (summary_accs_test s) /\
    nth acc_at (summary_accs_test s) 0%Q = best_acc /\
    (forall v, In v (summary_accs_test s) -> (v <= best_acc)%Q) /\
    f1_at < length (summary_f1s_test s) /\
    nth f1_at (summary_f1s_test s) 0%Q = best_f1 /\
    (forall v, In v (summary_f1s_test s) -> (v <= best_f1)%Q).
Proof.
  intros Na L.
  destruct (report_total fw log_name s h Na L)
    as (ma & i & mf & j & Ma & Ei & Hi & Mf & Ej & Hj & Er).
  destruct (np_argmax_is_position_of_max _ _ _ Ma Ei) as (_ & Va & Ua).
  destruct (np_argmax_is_position_of_max _ _ _ Mf Ej) as (_ & Vf & Uf).
  exists ma, i, mf, j. cbv zeta in Er. rewrite Er.
  destruct (np_savez_result fw _ _) as [u|e]; cbn [fst];
    rewrite skipn_app, skipn_all, Nat.sub_diag; cbn [skipn app];
    (split; [reflexivity|]);
    (split; [apply in_or_app; right; cbn; tauto|]);
    (split; [apply in_or_app; right; cbn; tauto|]);
    repeat split; assumption.
Qed.

(** C4, at a run of one epoch: the only epoch that ran is logged as epoch 1
    (an accuracy and an F1 were appended for it, once each), and the final
    report names epoch 0 as the epoch of the best test accuracy and as the
    epoch of the best test macro-F1. *)
Theorem best_epoch_reported_from_zero :
  let h := fst (main Toy.fw (Toy.args 1) []) in
  snd (main Toy.fw (Toy.args 1) []) = Ok tt /\
  logged_epochs h = [1%Z] /\
  reported_best_epochs h = [0; 0].
Proof. vm_compute. repeat split. Qed.

(* ================================================================== *)
(** * Further properties of the operations *)

(** ** Full-graph training *)

(** X1.  On a graph that fits (one row of [n] scores, one label below [n]
    and one mask entry per node), [train_full] makes one forward pass, one
    backward pass and one optimizer step, and the loss it returns is the
    plain mean of the negative log-likelihood over the train nodes of the
    graph (the loss [train_sample] gives a batch when the flag is not 1),
    NaN when the graph has no train node.  On any graph, a call that
    returns a loss made the backward pass on that loss and one optimizer
    step after its forward pass, and a call that raises made the forward
    pass and took no optimizer step. *)
Theorem train_full_loss fw n data h :
  let a := (x data, edge_index data, @None (list Q)) in
  let out := model_forward fw (h ++ [model_train; model_set_aggr "mean";
                                     optimizer_zero_grad]) a in
  let before := h ++ [model_train; model_set_aggr "mean"; optimizer_zero_grad;
                      model_call a] in
  (row_per_node fw -> class_scores fw n -> per_node data -> labels_below n data ->
   train_full fw data h
   = (before ++ [loss_backward (batch_loss 0 out data); optimizer_step],
      Ok (batch_loss 0 out data))) /\
  (forall h' loss, train_full fw data h = (h', Ok loss) ->
     h' = before ++ [loss_backward loss; optimizer_step]) /\
  (forall h' e, train_full fw data h = (h', Raise e) -> h' = before).
Proof.
  intros a out before. split; [|split].
  - intros R Hc P L. rewrite (train_full_ok fw n data h R Hc P L).
    unfold before. now rewrite <- app_assoc.
  - intros h' loss. unfold train_full, call_model, bind, emit, past, ret, lift.
    cbn [fst snd]. fold a.
    destruct (index_mask _ (train_mask data)) as [o|e]; [|discriminate].
    destruct (index_mask (y data) (train_mask data)) as [t|e]; [|discriminate].
    destruct (nll_loss_mean o t) as [l|e]; [|discriminate].
    intros H. injection H as <- <-. unfold before. now rewrite <- !app_assoc.
  - intros h' e. unfold train_full, call_model, bind, emit, past, ret, lift.
    cbn [fst snd]. fold a.
    destruct (index_mask _ (train_mask data)) as [o|e1];
      [|intros H; injection H as <- _; unfold before; now rewrite <- !app_assoc].
    destruct (index_mask (y data) (train_mask data)) as [t|e1];
      [|intros H; injection H as <- _; unfold before; now rewrite <- !app_assoc].
    destruct (nll_loss_mean o t) as [l|e1];
      [discriminate|intros H; injection H as <- _; unfold before; now rewrite <- !app_assoc].
Qed.

Lemma train_full_loss_witness :
  row_per_node Toy.fw /\ class_scores Toy.fw 2 /\
  per_node Toy.prepared /\ labels_below 2 Toy.prepared /\
  snd (train_full Toy.fw Toy.prepared [])
  = Ok (batch_loss 0
          (model_forward Toy.fw [model_train; model_set_aggr "mean"; optimizer_zero_grad]
             (x Toy.prepared, edge_index Toy.prepared, None))
          Toy.prepared).
Proof.
  destruct toy_prepared_ok as (P & _ & L).
  split; [exact toy_row_per_node|]. split; [exact toy_class_scores|].
  split; [exact P|]. split; [exact L|].
  exact (f_equal snd (proj1 (train_full_loss Toy.fw 2 Toy.prepared [])
                        toy_row_per_node toy_class_scores P L)).
Defined.

(** ** What sampled training returns *)

Lemma fadd_nan_l a : fadd NaN a = NaN.
Proof. reflexivity. Qed.

Lemma fadd_nan_r a : fadd a NaN = NaN.
Proof. now destruct a. Qed.

Lemma feq_refl a : feq a a.
Proof. destruct a; cbn; [reflexivity | exact I]. Qed.

Lemma feq_trans a b c : feq a b -> feq b c -> feq a c.
Proof.
  destruct a, b, c; cbn; try tauto. intros H1 H2. now rewrite H1.
Qed.

Lemma fadd_assoc_feq a b c : feq (fadd (fadd a b) c) (fadd a (fadd b c)).
Proof. destruct a, b, c; cbn; try exact I. lra. Qed.

Lemma fadd_0_r_feq a : feq a (fadd a (Fin 0)).
Proof. destruct a; cbn; [lra | exact I]. Qed.

Lemma fadd_0_l_feq a : feq (fadd (Fin 0) a) a.
Proof. destruct a; cbn; [lra | exact I]. Qed.

Lemma backward_losses_trace fw nl :
  forall batches h,
  backward_losses (training_trace fw nl h batches) = batch_losses fw nl h batches.
Proof.
  induction batches as [|d rest IH]; intros h; [reflexivity|].
  cbn [training_trace batch_losses]. unfold backward_losses in *.
  rewrite flat_map_app. cbn [flat_map app]. now rewrite IH.
Qed.

(** A pass over batches that fit: its calls, the nodes it counted and the
    loss it accumulated. *)
Lemma train_loop_value fw n nl :
  row_per_node fw -> class_scores fw n ->
  forall batches tot h,
  Forall (batch_ok n) batches ->
  exists acc,
    for_each batches (train_sample_body fw nl) tot h
    = (h ++ training_trace fw nl h batches, Ok (acc, snd tot + total_nodes batches)) /\
    feq acc (fadd (fst tot)
               (weighted_sum (batch_losses fw nl h batches) (map num_nodes batches))).
Proof.
  intros R Hc. induction batches as [|d rest IH]; intros tot h W.
  - exists (fst tot). cbn. rewrite app_nil_r, Nat.add_0_r. split; [now destruct tot|].
    apply fadd_0_r_feq.
  - inversion W as [|? ? (P & E & L) Wr]; subst.
    assert (Lo : length (model_forward fw (h ++ [optimizer_zero_grad])
                           (sampled_args nl d)) = num_nodes d).
    { rewrite R. unfold sampled_args. now destruct (nl =? 1)%Z. }
    pose proof (train_sample_body_run fw n nl d tot h Lo (Hc _ _) P (fun _ => E) L) as B.
    cbn [for_each]. rewrite (bind_ok _ _ _ _ _ B).
    match goal with
    | |- context [for_each rest _ ?t ?hh] => destruct (IH t hh Wr) as (acc & E' & Q)
    end.
    exists acc. split.
    + rewrite E'. cbn [training_trace snd]. rewrite <- app_assoc.
      unfold total_nodes, list_sum. cbn [map fold_right]. do 3 f_equal. lia.
    + cbn [fst batch_losses map weighted_sum] in *.
      eapply feq_trans; [exact Q | apply fadd_assoc_feq].
Qed.

Lemma train_sample_value fw loader n nl h :
  let start := h ++ [model_train; model_set_aggr "add"; loader_iter] in
  let batches := loader_batches fw loader (h ++ [model_train; model_set_aggr "add"]) in
  row_per_node fw -> class_scores fw n -> Forall (batch_ok n) batches ->
  exists acc,
    train_sample fw loader nl h
    = (start ++ training_trace fw nl start batches, fdiv_int acc (total_nodes batches)) /\
    feq acc (weighted_sum (batch_losses fw nl start batches) (map num_nodes batches)).
Proof.
  intros start batches R Hc W. rewrite train_sample_run. fold batches. fold start.
  destruct (train_loop_value fw n nl R Hc batches (Fin 0, 0) start W) as (acc & E & Q).
  rewrite E. cbn [fst snd Nat.add] in *. exists acc. split; [reflexivity|].
  eapply feq_trans; [exact Q | apply fadd_0_l_feq].
Qed.

(** X2.  On batches that fit, [train_sample] raises exactly when the batches
    of the pass hold no node at all (no batch, or empty batches only), and
    then it is a division by zero; otherwise it returns a loss. *)
Theorem train_sample_raises_iff_no_node fw loader n nl h :
  let batches := loader_batches fw loader (h ++ [model_train; model_set_aggr "add"]) in
  row_per_node fw -> class_scores fw n -> Forall (batch_ok n) batches ->
  (snd (train_sample fw loader nl h) = Raise ZeroDivisionError
   <-> total_nodes batches = 0) /\
  ((exists loss, snd (train_sample fw loader nl h) = Ok loss)
   <-> total_nodes batches <> 0).
Proof.
  intros batches R Hc W.
  destruct (train_sample_value fw loader n nl h R Hc W) as (acc & E & _).
  fold batches in E. rewrite E. cbn [snd].
  destruct (total_nodes batches) as [|m]; cbn [fdiv_int]; split; split;
    try discriminate; try congruence; try (intros (loss & H); discriminate H).
  intros _. eauto.
Qed.

Lemma train_sample_raises_iff_no_node_witness :
  row_per_node Toy.fw /\ class_scores Toy.fw 2 /\
  Forall (batch_ok 2) (loader_batches Toy.fw Toy.loader [model_train; model_set_aggr "add"]) /\
  total_nodes (loader_batches Toy.fw Toy.loader [model_train; model_set_aggr "add"]) <> 0 /\
  exists loss, snd (train_sample Toy.fw Toy.loader 1 []) = Ok loss.
Proof.
  assert (T : total_nodes
                (loader_batches Toy.fw Toy.loader ([] ++ [model_train; model_set_aggr "add"]))
              <> 0) by discriminate.
  split; [exact toy_row_per_node|]. split; [exact toy_class_scores|].
  split; [exact (toy_batches_ok _)|]. split; [exact T|].
  exact (proj2 (proj2 (train_sample_raises_iff_no_node Toy.fw Toy.loader 2 1 []
                         toy_row_per_node toy_class_scores (toy_batches_ok _))) T).
Defined.

Lemma weighted_sum_nan losses :
  forall sizes, length sizes = length losses -> In NaN losses ->
  weighted_sum losses sizes = NaN.
Proof.
  induction losses as [|l losses IH]; intros [|m sizes] L I; try discriminate;
    [destruct I|].
  injection L as L. cbn [weighted_sum]. destruct I as [->|I].
  - reflexivity.
  - rewrite (IH _ L I). apply fadd_nan_r.
Qed.

Lemma sum_over_cons i idx (f : nat -> Q) :
  sum_over (i :: idx) f = (f i + sum_over idx f)%Q.
Proof. reflexivity. Qed.

Lemma weighted_sum_fin qs :
  forall sizes, length sizes = length qs ->
  feq (weighted_sum (map Fin qs) sizes)
      (Fin (sum_over (seq 0 (length qs))
              (fun i => nth i qs 0 * inject_Z (Z.of_nat (nth i sizes 0%nat)))%Q)).
Proof.
  induction qs as [|q qs IH]; intros [|m sizes] L; try discriminate.
  - cbn. reflexivity.
  - injection L as L. cbn [map weighted_sum length seq].
    rewrite <- seq_shift, sum_over_cons, sum_over_map_S. cbn [nth fmul_int].
    specialize (IH _ L). destruct (weighted_sum (map Fin qs) sizes) as [w|];
      cbn in IH |- *; [|contradiction].
    now rewrite IH.
Qed.

Lemma no_train_node_loss nl out data :
  nl <> 1%Z -> no_train_node data -> batch_loss nl out data = NaN.
Proof.
  intros N T. unfold batch_loss. destruct (Z.eqb_spec nl 1) as [E|_]; [contradiction|].
  unfold no_train_node in T. rewrite sum_bool_selected in T.
  now destruct (selected (train_mask data)).
Qed.

Lemma batch_losses_nan fw nl :
  nl <> 1%Z ->
  forall batches h, Exists no_train_node batches -> In NaN (batch_losses fw nl h batches).
Proof.
  intros N. induction batches as [|d rest IH]; intros h E; inversion E as [? ? Hd|? ? Hr];
    subst; cbn [batch_losses].
  - left. now apply no_train_node_loss.
  - right. now apply IH.
Qed.

Lemma batch_losses_length fw nl :
  forall batches h, length (batch_losses fw nl h batches) = length batches.
Proof.
  induction batches as [|d rest IH]; intros h; cbn; [reflexivity | now rewrite IH].
Qed.

(** X3.  With a flag other than 1, on batches that fit, as soon as one batch
    of the pass has no train node (and the pass has nodes) the loss
    [train_sample] returns is NaN. *)
Theorem train_sample_nan fw loader n nl h :
  let batches := loader_batches fw loader (h ++ [model_train; model_set_aggr "add"]) in
  row_per_node fw -> class_scores fw n -> Forall (batch_ok n) batches ->
  nl <> 1%Z -> Exists no_train_node batches -> total_nodes batches <> 0 ->
  snd (train_sample fw loader nl h) = Ok NaN.
Proof.
  intros batches R Hc W N E T.
  destruct (train_sample_value fw loader n nl h R Hc W) as (acc & Er & Q).
  fold batches in Er, Q. rewrite Er. cbn [snd].
  rewrite weighted_sum_nan in Q.
  - destruct acc; [contradiction Q|].
    destruct (total_nodes batches); [congruence | reflexivity].
  - now rewrite length_map, batch_losses_length.
  - now apply batch_losses_nan.
Qed.

Lemma toy_no_train_ok : batch_ok 2 Toy_no_train.
Proof.
  split; [repeat split|]. split; [reflexivity|].
  unfold labels_below. cbn. repeat constructor.
Qed.

Lemma train_sample_nan_witness :
  let batches :=
    loader_batches Toy.fw Toy_no_train_loader [model_train; model_set_aggr "add"] in
  row_per_node Toy.fw /\ class_scores Toy.fw 2 /\ Forall (batch_ok 2) batches /\
  (0 <> 1)%Z /\ Exists no_train_node batches /\ total_nodes batches <> 0 /\
  snd (train_sample Toy.fw Toy_no_train_loader 0 []) = Ok NaN.
Proof.
  intros batches.
  assert (W : Forall (batch_ok 2) batches)
    by (repeat (constructor; [exact toy_no_train_ok|]); constructor).
  assert (N : (0 <> 1)%Z) by discriminate.
  assert (E : Exists no_train_node batches) by (left; reflexivity).
  assert (T : total_nodes batches <> 0) by discriminate.
  split; [exact toy_row_per_node|]. split; [exact toy_class_scores|].
  split; [exact W|]. split; [exact N|]. split; [exact E|]. split; [exact T|].
  exact (train_sample_nan Toy.fw Toy_no_train_loader 2 0 []
           toy_row_per_node toy_class_scores W N E T).
Defined.

(** X15.  On batches that fit, the losses [train_sample] back-propagates are
    the losses of the batches, one per batch, and the value it returns is
    their node-weighted mean: the sum of these losses, each multiplied by
    the number of nodes of its batch, divided by the number of nodes of all
    the batches; it is NaN as soon as one of the losses is. *)
Theorem train_sample_weighted_mean fw loader n nl h :
  let batches := loader_batches fw loader (h ++ [model_train; model_set_aggr "add"]) in
  let losses :=
    batch_losses fw nl (h ++ [model_train; model_set_aggr "add"; loader_iter]) batches in
  row_per_node fw -> class_scores fw n -> Forall (batch_ok n) batches ->
  backward_losses (calls_of (train_sample fw loader nl) h) = losses /\
  length losses = length batches /\
  forall r, snd (train_sample fw loader nl h) = Ok r ->
    (forall qs, losses = map Fin qs ->
       feq r (Fin (sum_over (seq 0 (length batches))
                     (fun i => nth i qs 0
                               * inject_Z (Z.of_nat (nth i (map num_nodes batches) 0%nat)))
                   / inject_Z (Z.of_nat (total_nodes batches))))%Q) /\
    (In NaN losses -> r = NaN).
Proof.
  intros batches losses R Hc W.
  destruct (train_sample_value fw loader n nl h R Hc W) as (acc & Er & Q).
  fold batches in Er, Q. fold losses in Q.
  split; [|split].
  - assert (Ef : fst (train_sample fw loader nl h)
                 = h ++ [model_train; model_set_aggr "add"; loader_iter]
                     ++ training_trace fw nl
                          (h ++ [model_train; model_set_aggr "add"; loader_iter]) batches).
    { rewrite Er. cbn [fst]. now rewrite <- app_assoc. }
    rewrite (calls_of_app _ _ _ Ef).
    unfold backward_losses. rewrite flat_map_app. cbn [flat_map app].
    apply backward_losses_trace.
  - apply batch_losses_length.
  - intros r Hr. rewrite Er in Hr. cbn [snd] in Hr.
    destruct (total_nodes batches) as [|m] eqn:Et; [discriminate Hr|].
    cbn [fdiv_int] in Hr. injection Hr as <-. split.
    + intros qs Eq. rewrite Eq in Q.
      pose proof (weighted_sum_fin qs (map num_nodes batches)) as F.
      rewrite length_map in F.
      assert (Lq : length qs = length batches).
      { rewrite <- (batch_losses_length fw nl batches
                      (h ++ [model_train; model_set_aggr "add"; loader_iter])).
        fold losses. rewrite Eq. now rewrite length_map. }
      specialize (F (eq_sym Lq)). rewrite Lq in F.
      pose proof (feq_trans _ _ _ Q F) as Qa.
      destruct acc as [p|]; cbn in Qa |- *; [|contradiction]. now rewrite Qa.
    + intros I. rewrite weighted_sum_nan in Q; try assumption.
      * now destruct acc.
      * unfold losses. now rewrite length_map, batch_losses_length.
Qed.

Lemma train_sample_weighted_mean_witness :
  let batches := [Toy.prepared; Toy.prepared] in
  row_per_node Toy.fw /\ class_scores Toy.fw 2 /\ Forall (batch_ok 2) batches /\
  backward_losses (calls_of (train_sample Toy.fw Toy.loader 1) [])
  = batch_losses Toy.fw 1 [model_train; model_set_aggr "add"; loader_iter] batches.
Proof.
  intros batches.
  split; [exact toy_row_per_node|]. split; [exact toy_class_scores|].
  split; [exact (toy_batches_ok [])|].
  exact (proj1 (train_sample_weighted_mean Toy.fw Toy.loader 2 1 []
                  toy_row_per_node toy_class_scores (toy_batches_ok _))).
Defined.

(** ** What evaluation does and does not do *)



Lemma eval_sample_rest_eval_calls fw loader nl :
  adds eval_call
    (bind (iterate fw loader) (fun batches =>
     bind (for_each batches (eval_sample_body fw nl) ([], [])) (fun all =>
     lift (mean_loop (fst all) (snd all) (seq 0 3) ([], []))))).
Proof.
  repeat adds_step; try exact I.
  apply eval_sample_body_adds; cbn; auto.
Qed.

(** X5.  Evaluation never trains: whatever they return or raise, the calls
    [eval_sample] and [eval_full] make are only the switch to evaluation
    mode, the setting of the aggregation, the iteration over the loader and
    forward passes; no gradient is zeroed, no backward pass is made and no
    optimizer step is taken. *)
Theorem evaluation_never_trains fw loader data nl h :
  Forall eval_call (calls_of (eval_sample fw loader nl) h) /\
  Forall eval_call (calls_of (eval_full fw data) h).
Proof.
  split.
  - destruct (eval_sample_rest_eval_calls fw loader nl
                ((h ++ [model_eval]) ++ [model_set_aggr "add"])) as (tr & E & F).
    assert (Em : fst (eval_sample fw loader nl h)
                 = h ++ model_eval :: model_set_aggr "add" :: tr).
    { unfold eval_sample. rewrite mode_then_run, E, <- !app_assoc. reflexivity. }
    rewrite (calls_of_app _ _ _ Em). repeat constructor. exact F.
  - rewrite (calls_of_app _ _ _ (eval_full_calls fw data h)).
    repeat constructor.
Qed.

(** ** The range of the metrics *)

Lemma sum_bool_cons b l : sum_bool (b :: l) = Nat.b2n b + sum_bool l.
Proof.
  unfold sum_bool. cbn [count_occ]. destruct b.
  - destruct (bool_dec true true) as [_|N]; [reflexivity | now elim N].
  - destruct (bool_dec false true) as [E|_]; [discriminate E | reflexivity].
Qed.

Lemma sum_bool_masked_le (c : list bool) :
  forall mask, sum_bool (masked c mask) <= sum_bool mask.
Proof.
  induction c as [|u c IH]; intros [|b mask]; cbn [masked];
    try (unfold sum_bool; cbn; lia).
  pose proof (IH mask). destruct b; rewrite ?sum_bool_cons; cbn [Nat.b2n]; [|lia].
  destruct u; cbn [Nat.b2n]; lia.
Qed.

Lemma div_unit (s : Q) (n : nat) :
  (0 <= s)%Q -> (s <= inject_Z (Z.of_nat n))%Q ->
  in_unit (s / inject_Z (Z.of_nat n)).
Proof.
  intros H0 H1. destruct n as [|n].
  - unfold in_unit, Qdiv. change (/ inject_Z (Z.of_nat 0))%Q with 0%Q.
    change (inject_Z (Z.of_nat 0)) with 0%Q in H1. split; lra.
  - assert (P : (0 < inject_Z (Z.of_nat (S n)))%Q) by (unfold Qlt; cbn; lia).
    split.
    + apply Qle_shift_div_l; [exact P | lra].
    + apply Qle_shift_div_r; [exact P | lra].
Qed.

Lemma nat_ratio_unit a b :
  a <= b -> in_unit (inject_Z (Z.of_nat a) / inject_Z (Z.of_nat b)).
Proof.
  intros H. apply div_unit.
  - change 0%Q with (inject_Z 0). rewrite <- Zle_Qle. lia.
  - rewrite <- Zle_Qle. lia.
Qed.

Lemma acc_ratio_unit pred target mask : in_unit (acc_ratio pred target mask).
Proof. unfold acc_ratio. apply nat_ratio_unit, sum_bool_masked_le. Qed.

Lemma ratio0_unit a b : in_unit (ratio0 a (a + b)).
Proof.
  unfold ratio0. destruct (a + b) as [|n] eqn:E.
  - split; lra.
  - rewrite <- E. apply nat_ratio_unit. lia.
Qed.

Lemma f1_class_unit c y_true y_pred : in_unit (f1_class c y_true y_pred).
Proof.
  unfold f1_class.
  destruct (ratio0_unit (true_pos c y_true y_pred) (false_pos c y_true y_pred)) as (P0 & P1).
  destruct (ratio0_unit (true_pos c y_true y_pred) (false_neg c y_true y_pred)) as (R0 & R1).
  fold (precision c y_true y_pred) in P0, P1. fold (recall c y_true y_pred) in R0, R1.
  cbv zeta.
  set (p := precision c y_true y_pred) in *. set (r := recall c y_true y_pred) in *.
  destruct (Qeq_bool (p + r) 0) eqn:E; [split; lra|].
  apply Qeq_bool_neq in E.
  assert (S : (0 < p + r)%Q) by lra.
  split.
  - apply Qle_shift_div_l; [exact S | nra].
  - apply Qle_shift_div_r; [exact S | nra].
Qed.

Lemma tensor_sum_unit (l : list Q) :
  Forall in_unit l ->
  (0 <= tensor_sum l)%Q /\ (tensor_sum l <= inject_Z (Z.of_nat (length l)))%Q.
Proof.
  induction 1 as [|v l (V0 & V1) _ (S0 & S1)]; [split; apply Qle_refl|].
  cbn [tensor_sum fold_right length]. fold (tensor_sum l).
  rewrite Nat2Z.inj_succ, <- Z.add_1_l, inject_Z_plus.
  change (inject_Z 1) with 1%Q. split; lra.
Qed.

Lemma np_mean_unit (l : list Q) : Forall in_unit l -> in_unit (np_mean l).
Proof.
  intros F. destruct (tensor_sum_unit l F). unfold np_mean. now apply div_unit.
Qed.

Lemma f1_score_macro_unit y_true y_pred : in_unit (f1_score_macro y_true y_pred).
Proof.
  unfold f1_score_macro. apply np_mean_unit, Forall_forall.
  intros v Hv. apply in_map_iff in Hv as (c & <- & _). apply f1_class_unit.
Qed.

Lemma Forall_map_all {X : Type} (P : Q -> Prop) (f : X -> Q) (l : list X) :
  (forall u, P (f u)) -> Forall P (map f l).
Proof. intros H. apply Forall_forall. intros v Hv. apply in_map_iff in Hv as (u & <- & _). apply H. Qed.

Lemma int_truediv_unit a b q : a <= b -> int_truediv a b = Ok q -> in_unit q.
Proof.
  intros L. destruct b as [|b]; [discriminate|].
  unfold int_truediv. intros H. injection H as <-.
  now apply (nat_ratio_unit a (S b)).
Qed.

Lemma accs_loop_unit correct ms :
  forall accs r, accs_loop correct ms accs = Ok r ->
  Forall in_unit accs -> Forall in_unit r.
Proof.
  induction ms as [|m ms IH]; intros accs r H F; cbn [accs_loop] in H.
  - now injection H as <-.
  - unfold index_mask in H. destruct (length correct =? length m); [|discriminate H].
    cbn [rbind] in H.
    destruct (int_truediv _ _) as [a|e] eqn:Ea; [|discriminate H]. cbn [rbind] in H.
    apply (IH _ _ H). apply Forall_app. split; [exact F|].
    constructor; [|constructor].
    exact (int_truediv_unit _ _ _ (sum_bool_masked_le correct m) Ea).
Qed.

Lemma f1_loop_unit data pred ms :
  forall f1s r, f1_loop data pred ms f1s = Ok r ->
  Forall in_unit f1s -> Forall in_unit r.
Proof.
  induction ms as [|m ms IH]; intros f1s r H F; cbn [f1_loop] in H.
  - now injection H as <-.
  - destruct (index_mask (y data) m) as [t|e]; [|discriminate H]. cbn [rbind] in H.
    destruct (index_mask pred m) as [p|e]; [|discriminate H]. cbn [rbind] in H.
    apply (IH _ _ H). apply Forall_app. split; [exact F|].
    constructor; [apply f1_score_macro_unit | constructor].
Qed.

(** The metrics of one graph or batch, whenever they can be computed. *)
Lemma metrics_unit data pred accs f1_scores :
  rbind (tensor_eq pred (y data)) (fun correct =>
  rbind (accs_loop correct (masks data) []) (fun accs =>
  rbind (f1_loop data pred (masks data) []) (fun f1_scores =>
  Ok (accs, f1_scores))))
  = Ok (accs, f1_scores) ->
  Forall in_unit accs /\ Forall in_unit f1_scores.
Proof.
  destruct (tensor_eq _ _) as [c|e]; [|discriminate]. cbn [rbind].
  destruct (accs_loop _ _ _) as [a|e] eqn:Ea; [|discriminate]. cbn [rbind].
  destruct (f1_loop _ _ _ _) as [f|e] eqn:Ef; [|discriminate]. cbn [rbind].
  intros H. injection H as <- <-. split.
  - exact (accs_loop_unit _ _ _ _ Ea (Forall_nil _)).
  - exact (f1_loop_unit _ _ _ _ _ Ef (Forall_nil _)).
Qed.

Lemma for_each_invariant {A S : Type} (I : S -> Prop) (body : A -> S -> M S) :
  (forall a s h h' s', body a s h = (h', Ok s') -> I s -> I s') ->
  forall l s h h' s', for_each l body s h = (h', Ok s') -> I s -> I s'.
Proof.
  intros Hb. induction l as [|a l IH]; intros s h h' s' H Is.
  - cbn in H. now injection H as _ <-.
  - cbn [for_each] in H. unfold bind at 1 in H.
    destruct (body a s h) as [h1 [s1|e]] eqn:E; [|discriminate H].
    exact (IH _ _ _ _ H (Hb _ _ _ _ _ E Is)).
Qed.

Lemma eval_sample_body_unit fw nl data all h h' all' :
  eval_sample_body fw nl data all h = (h', Ok all') ->
  Forall (Forall in_unit) (fst all) /\ Forall (Forall in_unit) (snd all) ->
  Forall (Forall in_unit) (fst all') /\ Forall (Forall in_unit) (snd all').
Proof.
  intros H (Fa & Ff).
  assert (K : exists pred accs f1_scores,
            rbind (tensor_eq pred (y data)) (fun correct =>
            rbind (accs_loop correct (masks data) []) (fun accs =>
            rbind (f1_loop data pred (masks data) []) (fun f1_scores =>
            Ok (accs, f1_scores))))
            = Ok (accs, f1_scores) /\
            all' = (fst all ++ [accs], snd all ++ [f1_scores])).
  { unfold eval_sample_body, call_model, bind, emit, past, ret, lift in H.
    destruct (nl =? 1)%Z.
    - destruct (tensor_mul _ _) as [w|e]; [|discriminate H]. cbn [fst snd] in H.
      match type of H with context [tensor_eq ?p _] => exists p end.
      destruct (tensor_eq _ _) as [c|e]; [|discriminate H]. cbn [rbind].
      destruct (accs_loop _ _ _) as [a|e]; [|discriminate H]. cbn [rbind].
      destruct (f1_loop _ _ _ _) as [f|e]; [|discriminate H]. cbn [rbind].
      injection H as _ <-. eauto.
    - cbn [fst snd] in H.
      match type of H with context [tensor_eq ?p _] => exists p end.
      destruct (tensor_eq _ _) as [c|e]; [|discriminate H]. cbn [rbind].
      destruct (accs_loop _ _ _) as [a|e]; [|discriminate H]. cbn [rbind].
      destruct (f1_loop _ _ _ _) as [f|e]; [|discriminate H]. cbn [rbind].
      injection H as _ <-. eauto. }
  destruct K as (pred & accs & f1s & Hm & ->). cbn [fst snd].
  destruct (metrics_unit _ _ _ _ Hm) as (Ua & Uf).
  split; apply Forall_app; split; try assumption; repeat constructor; assumption.
Qed.

Lemma column_unit rows i c :
  Forall (Forall in_unit) rows -> column rows i = Ok c -> Forall in_unit c.
Proof.
  intros F. destruct rows as [|r rows]; [discriminate|]. unfold column.
  intros H. injection H as <-.
  change (Forall in_unit (map (fun r0 => nth i r0 0%Q) (r :: rows))).
  apply Forall_forall. intros v Hv.
  apply in_map_iff in Hv as (row & <- & Hr).
  rewrite Forall_forall in F. specialize (F row Hr).
  destruct (nth_in_or_default i row 0%Q) as [I | ->].
  - rewrite Forall_forall in F. now apply F.
  - split; lra.
Qed.

Lemma mean_loop_unit A F :
  Forall (Forall in_unit) A -> Forall (Forall in_unit) F ->
  forall range3 res r, mean_loop A F range3 res = Ok r ->
  Forall in_unit (fst res) /\ Forall in_unit (snd res) ->
  Forall in_unit (fst r) /\ Forall in_unit (snd r).
Proof.
  intros Ua Uf. induction range3 as [|i range3 IH]; intros res r H (Fa & Ff);
    cbn [mean_loop] in H.
  - injection H as <-. now split.
  - destruct (column A i) as [ca|e] eqn:Ea; [|discriminate H]. cbn [rbind] in H.
    destruct (column F i) as [cf|e] eqn:Ef; [|discriminate H]. cbn [rbind] in H.
    apply (IH _ _ H). cbn [fst snd].
    split; apply Forall_app; split; try assumption;
      (constructor; [|constructor]);
      apply np_mean_unit; (eapply column_unit; [|eassumption]); assumption.
Qed.

(** X6.  Every accuracy and every macro-F1 that [eval_full] or [eval_sample]
    returns lies between 0 and 1. *)
Theorem metrics_in_unit_interval fw loader data nl h accs f1_scores :
  snd (eval_full fw data h) = Ok (accs, f1_scores) \/
  snd (eval_sample fw loader nl h) = Ok (accs, f1_scores) ->
  Forall in_unit accs /\ Forall in_unit f1_scores.
Proof.
  intros [H|H].
  - rewrite eval_full_run in H. cbn [snd] in H. now apply metrics_unit in H.
  - rewrite eval_sample_run in H.
    destruct (for_each _ _ _ _) as [h1 [all|e]] eqn:E; [|discriminate H].
    cbn [snd] in H.
    pose proof (for_each_invariant
                  (fun all => Forall (Forall in_unit) (fst all)
                              /\ Forall (Forall in_unit) (snd all))
                  (eval_sample_body fw nl)
                  (fun a s h0 h' s' => eval_sample_body_unit fw nl a s h0 h' s')
                  _ _ _ _ _ E (conj (Forall_nil _) (Forall_nil _))) as (Ua & Uf).
    exact (mean_loop_unit _ _ Ua Uf _ _ _ H (conj (Forall_nil _) (Forall_nil _))).
Qed.

Lemma toy_eval_sample_returns :
  exists accs f1_scores, snd (eval_sample Toy.fw Toy.loader 1 []) = Ok (accs, f1_scores).
Proof.
  destruct (Forall_batch_ok 2 _ (toy_batches_ok [model_eval; model_set_aggr "add"]))
    as (P & E & _).
  destruct (toy_batches_cover [model_eval; model_set_aggr "add"]) as (N & C).
  eexists. eexists.
  apply (eval_sample_ok Toy.fw Toy.loader 1 [] toy_row_per_node P (fun _ => E) N).
  eapply Forall_impl; [|exact C]. apply covers_masks_nonempty.
Qed.

Lemma metrics_in_unit_interval_witness :
  exists accs f1_scores,
    snd (eval_sample Toy.fw Toy.loader 1 []) = Ok (accs, f1_scores) /\
    Forall in_unit accs /\ Forall in_unit f1_scores.
Proof.
  destruct toy_eval_sample_returns as (accs & f1s & H).
  exists accs, f1s. split; [exact H|].
  exact (metrics_in_unit_interval Toy.fw Toy.loader Toy.graph 1 [] accs f1s (or_intror H)).
Defined.

(** ** The forward passes of a sampled evaluation *)







(** ** When the edge weights reach the network *)

Lemma sampled_args_unweighted nl data :
  nl <> 1%Z -> sampled_args nl data = (x data, edge_index data, None).
Proof.
  intros N. unfold sampled_args.
  destruct (Z.eqb_spec nl 1); [contradiction | reflexivity].
Qed.

Lemma train_sample_body_unweighted fw nl data tot :
  nl <> 1%Z -> adds unweighted_call (train_sample_body fw nl data tot).
Proof.
  intros N. unfold train_sample_body.
  destruct (Z.eqb_spec nl 1) as [E|_]; [contradiction|].
  repeat adds_step; try exact I. reflexivity.
Qed.

Lemma eval_sample_body_unweighted fw nl data all :
  nl <> 1%Z -> adds unweighted_call (eval_sample_body fw nl data all).
Proof.
  intros N. unfold eval_sample_body.
  destruct (Z.eqb_spec nl 1) as [E|_]; [contradiction|].
  repeat adds_step; try exact I. reflexivity.
Qed.

Lemma forward_passes_unweighted tr :
  Forall unweighted_call tr -> Forall (fun a => snd a = None) (forward_passes tr).
Proof.
  unfold forward_passes. induction 1 as [|e tr He _ IH]; [constructor|].
  cbn [flat_map]. destruct e; cbn [app]; try exact IH.
  constructor; [exact He | exact IH].
Qed.

(** X17.  The edge weights (and so the in-degree attributes computed at
    startup) reach the network only through a sampled operation run with
    the flag 1: the full-graph operations never pass an edge weight to a
    forward pass, and neither do the sampled ones when the flag is not 1. *)
Theorem edge_weights_only_when_normalised fw loader data nl h :
  Forall (fun a => snd a = None) (forward_passes (calls_of (train_full fw data) h)) /\
  Forall (fun a => snd a = None) (forward_passes (calls_of (eval_full fw data) h)) /\
  (nl <> 1%Z ->
   Forall (fun a => snd a = None)
     (forward_passes (calls_of (train_sample fw loader nl) h)) /\
   Forall (fun a => snd a = None)
     (forward_passes (calls_of (eval_sample fw loader nl) h))).
Proof.
  split; [|split].
  - destruct (train_full_calls fw data h) as (tr & E & [->|(loss & ->)]);
      rewrite (calls_of_app _ _ _ E); repeat constructor.
  - rewrite (calls_of_app _ _ _ (eval_full_calls fw data h)).
    repeat constructor.
  - intros N. split; apply forward_passes_unweighted.
    + assert (A : adds unweighted_call (train_sample fw loader nl)).
      { unfold train_sample, iterate. repeat adds_step; try exact I.
        now apply train_sample_body_unweighted. }
      destruct (A h) as (tr & E & F). now rewrite (calls_of_app _ _ _ E).
    + assert (A : adds unweighted_call (eval_sample fw loader nl)).
      { unfold eval_sample, iterate. repeat adds_step; try exact I.
        now apply eval_sample_body_unweighted. }
      destruct (A h) as (tr & E & F). now rewrite (calls_of_app _ _ _ E).
Qed.

Lemma edge_weights_only_when_normalised_witness :
  (0 <> 1)%Z /\
  Forall (fun a => snd a = None)
    (forward_passes (calls_of (train_sample Toy.fw Toy.loader 0) [])).
Proof.
  assert (N : (0 <> 1)%Z) by discriminate.
  split; [exact N|].
  exact (proj1 (proj2 (proj2 (edge_weights_only_when_normalised
                                Toy.fw Toy.loader Toy.graph 0 [])) N)).
Defined.
(** ** The shape of a run *)

Lemma train_step_shape fw (ts nl : Z) data loader h :
  exists aggr tr,
    fst ((if (ts =? 1)%Z then train_sample fw loader nl else train_full fw data) h)
    = h ++ model_train :: model_set_aggr aggr :: tr
    /\ Forall batch_call tr.
Proof.
  destruct (ts =? 1)%Z.
  - destruct (train_sample_rest_adds fw loader nl
                ((h ++ [model_train]) ++ [model_set_aggr "add"])) as (tr & Ht & F).
    exists "add"%string, tr. split; [|exact F].
    unfold train_sample. rewrite mode_then_run, Ht, <- !app_assoc. reflexivity.
  - destruct (train_full_calls fw data h) as (tr & E & [->|(loss & ->)]);
      (eexists; eexists; split; [exact E|]); repeat constructor.
Qed.

Lemma eval_step_shape fw (es nl : Z) data loader h :
  exists aggr tr,
    fst ((if (es =? 1)%Z then eval_sample fw loader nl else eval_full fw data) h)
    = h ++ model_eval :: model_set_aggr aggr :: tr
    /\ Forall batch_call tr.
Proof.
  destruct (es =? 1)%Z.
  - destruct (eval_sample_rest_adds fw loader nl
                ((h ++ [model_eval]) ++ [model_set_aggr "add"])) as (tr & Ht & F).
    exists "add"%string, tr. split; [|exact F].
    unfold eval_sample. rewrite mode_then_run, Ht, <- !app_assoc. reflexivity.
  - eexists. eexists. split; [apply eval_full_calls|].
    repeat constructor.
Qed.

Lemma epoch_body_shape fw args data loader epoch s h h' s' :
  epoch_body fw args data loader epoch s h = (h', Ok s') ->
  exists tr, h' = h ++ tr /\ epoch_calls (Args.log_interval args) epoch s s' tr.
Proof.
  unfold epoch_body. intros H.
  destruct (train_step_shape fw (Args.train_sample args) (Args.loss_norm args)
              data loader h) as (g1 & tr1 & T1 & B1).
  unfold bind at 1 in H.
  match type of T1 with fst ?m = _ => destruct m as [h1 [loss|e]] end;
    [|discriminate H].
  cbn [fst] in T1. subst h1.
  destruct (eval_step_shape fw (Args.eval_sample args) (Args.loss_norm args)
              data loader (h ++ model_train :: model_set_aggr g1 :: tr1))
    as (g2 & tr2 & T2 & B2).
  unfold bind at 1 in H.
  match type of T2 with fst ?m = _ => destruct m as [h2 [[accs f1s]|e]] end;
    [|discriminate H].
  cbn [fst snd] in T2, H. subst h2.
  unfold bind, lift, emit, ret, raise, list_index in H.
  destruct (Z.eqb_spec (Args.log_interval args) 0) as [Z0|N0]; [discriminate H|].
  destruct (epoch mod Args.log_interval args =? 0)%Z eqn:Em;
    repeat (match type of H with
            | context [nth_error ?l ?i] => destruct (nth_error l i)
            end; cbv beta iota in H);
    try discriminate H; injection H as <- <-.
  - eexists. split;
      [|apply (epoch_calls_intro _ epoch s _ g1 g2 tr1 tr2 loss _ _ _ _ B1 B2 N0 eq_refl)].
    rewrite Em, <- !app_assoc. reflexivity.
  - eexists. split;
      [|apply (epoch_calls_intro _ epoch s _ g1 g2 tr1 tr2 loss _ _ _ _ B1 B2 N0 eq_refl)].
    rewrite Em, app_nil_r, <- !app_assoc. reflexivity.
Qed.

Lemma epochs_shape fw args data loader :
  forall epochs s h h' s',
  for_each epochs (epoch_body fw args data loader) s h = (h', Ok s') ->
  exists tr, h' = h ++ tr /\ loop_calls (Args.log_interval args) epochs s s' tr.
Proof.
  induction epochs as [|epoch rest IH]; intros s h h' s' H.
  - cbn in H. injection H as <- <-. exists []. rewrite app_nil_r.
    split; [reflexivity | constructor].
  - cbn [for_each] in H. unfold bind at 1 in H.
    destruct (epoch_body fw args data loader epoch s h) as [h1 [s1|e]] eqn:E1;
      [|discriminate H].
    apply epoch_body_shape in E1 as (tr1 & -> & C1).
    apply IH in H as (tr2 & -> & C2).
    exists (tr1 ++ tr2). rewrite <- app_assoc. split; [reflexivity|].
    econstructor; eassumption.
Qed.

Lemma batch_call_loop_call e : batch_call e -> loop_call e.
Proof. destruct e; cbn; try tauto; intros []. Qed.

Lemma epoch_calls_loop_call li epoch s s' tr :
  epoch_calls li epoch s s' tr -> Forall loop_call tr.
Proof.
  intros [g1 g2 tr1 tr2 loss a0 f0 a2 f2 B1 B2 _ _].
  repeat (apply Forall_app; split); repeat (apply Forall_cons; [exact I|]).
  - eapply Forall_impl; [apply batch_call_loop_call | exact B1].
  - eapply Forall_impl; [apply batch_call_loop_call | exact B2].
  - destruct (epoch mod li =? 0)%Z; repeat constructor.
Qed.

Lemma loop_calls_loop_call li epochs s s' tr :
  loop_calls li epochs s s' tr -> Forall loop_call tr.
Proof.
  induction 1 as [|epoch rest s s1 s' tr tr' E _ IH]; [constructor|].
  apply Forall_app. split; [eapply epoch_calls_loop_call; eassumption | exact IH].
Qed.

Lemma flat_map_quiet {X : Type} (P : event -> Prop) (f : event -> list X) tr :
  (forall e, P e -> f e = []) -> Forall P tr -> flat_map f tr = [].
Proof.
  intros Q. induction 1 as [|e tr He _ IH]; [reflexivity|].
  cbn [flat_map]. now rewrite (Q e He), IH.
Qed.

Lemma filter_quiet (P : event -> Prop) (p : event -> bool) tr :
  (forall e, P e -> p e = false) -> Forall P tr -> filter p tr = [].
Proof.
  intros Q. induction 1 as [|e tr He _ IH]; [reflexivity|].
  cbn [filter]. now rewrite (Q e He), IH.
Qed.

Lemma epoch_calls_flat_map {X : Type} (f : event -> list X) li epoch s s' tr :
  (forall e, batch_call e -> f e = []) -> (forall a, f (model_set_aggr a) = []) ->
  epoch_calls li epoch s s' tr ->
  exists loss a0 f0 a2 f2,
    s' = mkSummary (summary_accs_train s ++ [a0]) (summary_accs_test s ++ [a2])
                   (summary_f1s_train s ++ [f0]) (summary_f1s_test s ++ [f2]) /\
    flat_map f tr
    = f model_train ++ f model_eval
      ++ (if (epoch mod li =? 0)%Z
          then f (logger_info (Msg_epoch epoch loss a0 f0 a2 f2)) else []).
Proof.
  intros Qb Qa [g1 g2 tr1 tr2 loss a0 f0 a2 f2 B1 B2 _ Es].
  exists loss, a0, f0, a2, f2. split; [exact Es|].
  rewrite !flat_map_app. cbn [flat_map].
  rewrite !Qa, (flat_map_quiet batch_call f tr1 Qb B1),
    (flat_map_quiet batch_call f tr2 Qb B2).
  cbn [app]. rewrite app_nil_r.
  destruct (epoch mod li =? 0)%Z; cbn [flat_map]; now rewrite ?app_nil_r.
Qed.

Lemma loop_logged_epochs li epochs s s' tr :
  loop_calls li epochs s s' tr ->
  logged_epochs tr = filter (fun e => (e mod li =? 0)%Z) epochs.
Proof.
  induction 1 as [|epoch rest s s1 s' tr tr' E _ IH]; [reflexivity|].
  unfold logged_epochs in *. rewrite flat_map_app, IH.
  destruct (epoch_calls_flat_map
              (fun e => match e with
                        | logger_info (Msg_epoch ep _ _ _ _ _) => [ep]
                        | _ => []
                        end) li epoch s s1 tr) as (loss & a0 & f0 & a2 & f2 & _ & F);
    [intros e; destruct e; cbn; tauto | reflexivity | exact E |].
  rewrite F. cbn [filter app]. now destruct (epoch mod li =? 0)%Z.
Qed.

Lemma loop_phases li epochs s s' tr :
  loop_calls li epochs s s' tr ->
  phases tr = flat_map (fun _ => [model_train; model_eval]) epochs.
Proof.
  induction 1 as [|epoch rest s s1 s' tr tr' E _ IH]; [reflexivity|].
  unfold phases in *. rewrite flat_map_app, IH.
  destruct (epoch_calls_flat_map
              (fun e => match e with
                        | model_train | model_eval => [e]
                        | _ => []
                        end) li epoch s s1 tr) as (loss & a0 & f0 & a2 & f2 & _ & F);
    [intros e; destruct e; cbn; tauto | reflexivity | exact E |].
  rewrite F. cbn [flat_map app]. now destruct (epoch mod li =? 0)%Z.
Qed.

Lemma range_from_S lo m : range_from lo (S m) = lo :: range_from (lo + 1) m.
Proof.
  unfold range_from. cbn [seq map]. rewrite Z.add_0_r. f_equal.
  rewrite <- seq_shift, map_map. apply map_ext. intros i. lia.
Qed.

Lemma loop_extends li epochs s s' tr :
  loop_calls li epochs s s' tr ->
  exists e1 e2 e3 e4,
    summary_accs_train s' = summary_accs_train s ++ e1 /\
    summary_accs_test s' = summary_accs_test s ++ e2 /\
    summary_f1s_train s' = summary_f1s_train s ++ e3 /\
    summary_f1s_test s' = summary_f1s_test s ++ e4 /\
    length e1 = length epochs /\ length e2 = length epochs /\
    length e3 = length epochs /\ length e4 = length epochs.
Proof.
  induction 1 as [s|epoch rest s s1 s' tr tr' E _ IH].
  - exists [], [], [], []. rewrite !app_nil_r. repeat split; reflexivity.
  - destruct E as [g1 g2 tr1 tr2 loss a0 f0 a2 f2 _ _ _ ->].
    destruct IH as (e1 & e2 & e3 & e4 & -> & -> & -> & -> & L1 & L2 & L3 & L4).
    cbn [summary_accs_train summary_accs_test summary_f1s_train summary_f1s_test].
    exists (a0 :: e1), (a2 :: e2), (f0 :: e3), (f2 :: e4).
    rewrite <- !app_assoc. cbn [app length].
    repeat split; try reflexivity; lia.
Qed.

Lemma loop_summary_size li epochs s s' tr n :
  loop_calls li epochs s s' tr -> summary_size s n ->
  summary_size s' (n + length epochs).
Proof.
  intros C (S1 & S2 & S3 & S4).
  destruct (loop_extends li epochs s s' tr C)
    as (e1 & e2 & e3 & e4 & E1 & E2 & E3 & E4 & L1 & L2 & L3 & L4).
  unfold summary_size. rewrite E1, E2, E3, E4, !length_app. lia.
Qed.

Lemma loop_logged_metrics li :
  forall m n s s' tr,
  loop_calls li (range_from (1 + Z.of_nat n) m) s s' tr -> summary_size s n ->
  Forall (line_matches (summary_accs_train s') (summary_accs_test s')
                       (summary_f1s_train s') (summary_f1s_test s'))
         (logged_metrics tr).
Proof.
  induction m as [|m IH]; intros n s s' tr C Sz.
  - inversion C; subst. constructor.
  - rewrite range_from_S in C.
    remember (1 + Z.of_nat n)%Z as lo eqn:Elo.
    remember (range_from (lo + 1) m) as later eqn:El.
    inversion C as [|epoch rest s0 s1 s2 tr1 tr2 E C' Ee Es Es' Et]; subst.
    replace (1 + Z.of_nat n + 1)%Z with (1 + Z.of_nat (S n))%Z in C' by lia.
    unfold logged_metrics. rewrite flat_map_app. apply Forall_app. split.
    + destruct (epoch_calls_flat_map
                  (fun e => match e with
                            | logger_info (Msg_epoch epoch _ a0 f0 a2 f2) =>
                                [(epoch, (a0, f0, a2, f2))]
                            | _ => []
                            end) li (1 + Z.of_nat n)%Z s s1 tr1)
        as (loss & a0 & f0 & a2 & f2 & Es & F);
        [intros e; destruct e; cbn; tauto | reflexivity | exact E |].
      rewrite F. cbn [app].
      destruct ((1 + Z.of_nat n) mod li =? 0)%Z; [|constructor].
      constructor; [|constructor].
      destruct (loop_extends li _ s1 s' tr2 C')
        as (e1 & e2 & e3 & e4 & -> & -> & -> & -> & _).
      subst s1.
      cbn [summary_accs_train summary_accs_test summary_f1s_train summary_f1s_test].
      destruct Sz as (S1 & S2 & S3 & S4).
      unfold line_matches. split; [lia|].
      replace (Z.to_nat (1 + Z.of_nat n - 1)) with n by lia.
      rewrite <- !app_assoc.
      repeat split; (rewrite nth_error_app2 by lia);
        match goal with
        | |- nth_error _ (n - ?l) = _ => replace (n - l) with 0 by lia
        end; reflexivity.
    + apply (IH (S n) s1 s' tr2 C').
      pose proof (loop_summary_size li [1 + Z.of_nat n]%Z s s1 (tr1 ++ []) n) as Hs.
      cbn [length] in Hs. replace (n + 1) with (S n) in Hs by lia.
      apply Hs; [|exact Sz]. econstructor; [exact E | constructor].
Qed.

Lemma run_shape fw args h :
  recognized_dataset args -> recognized_sampler args -> recognized_gcn_type args ->
  edges_ok (dataset_0 (chosen_dataset fw args)) ->
  main fw args [] = (h, Ok tt) ->
  exists model tr s best_acc acc_at best_f1 f1_at,
    h = (logger_calls fw args ++ dataset_calls fw args ++ sampler_calls fw args)
        ++ [Net_init model; Adam_init (1 # 1000)] ++ tr
        ++ report_calls fw args s best_acc acc_at best_f1 f1_at /\
    loop_calls (Args.log_interval args) (range1 (Args.epochs args + 1))
               (mkSummary [] [] [] []) s tr /\
    np_max (summary_accs_test s) = Ok best_acc /\
    np_argmax (summary_accs_test s) = Ok acc_at /\
    np_max (summary_f1s_test s) = Ok best_f1 /\
    np_argmax (summary_f1s_test s) = Ok f1_at.
Proof.
  intros D S G W Hm.
  rewrite (main_startup fw args D S W) in Hm. unfold after_startup in Hm.
  destruct (select_net_known args G) as (cls & En). rewrite En in Hm.
  set (h0 := logger_calls fw args ++ dataset_calls fw args ++ sampler_calls fw args) in *.
  set (model := mkModel cls (num_node_features (chosen_dataset fw args)) 256
                        (num_classes (chosen_dataset fw args)) (select_device fw args)).
  assert (Em : construct_model (Some cls) (chosen_dataset fw args) (select_device fw args) h0
               = (h0 ++ [Net_init model], Ok model)) by reflexivity.
  rewrite (bind_ok _ _ _ _ _ Em) in Hm. unfold bind at 1, emit at 1 in Hm.
  rewrite <- app_assoc in Hm. cbn [app] in Hm. unfold bind at 1 in Hm.
  destruct (for_each _ _ _ _) as [h2 [s|e]] eqn:El; [|discriminate Hm].
  pose proof (epochs_partial _ _ _ _ _ _ _ _ _ El) as (tr0 & _ & _ & L2 & _ & L4 & _).
  apply epochs_shape in El as (tr & -> & C).
  cbn [summary_accs_test summary_f1s_test length Nat.add] in L2, L4.
  assert (Na : summary_accs_test s <> []).
  { intros Hz. pose proof (report_empty fw (get_log_name fw args "test") s
                             ((h0 ++ [Net_init model; Adam_init (1 # 1000)]) ++ tr) Hz) as R.
    rewrite Hm in R. discriminate R. }
  destruct (report_total fw (get_log_name fw args "test") s
              ((h0 ++ [Net_init model; Adam_init (1 # 1000)]) ++ tr) Na)
    as (ma & i & mf & j & Ma & Ei & _ & Mf & Ej & _ & Er); [congruence|].
  cbv zeta in Er. rewrite Er in Hm.
  destruct (np_savez_result fw _ _) as [u|e]; [|discriminate Hm].
  injection Hm as <-.
  exists model, tr, s, ma, i, mf, j.
  split; [unfold report_calls, archive; rewrite <- ?app_assoc; reflexivity|].
  repeat split; assumption.
Qed.

(** The calls before and after the epochs hold no per-epoch line and start
    no phase: what remains of a projection of the run is its part on the
    epoch loop. *)
Ltac outside_loop :=
  unfold logger_calls, dataset_calls, sampler_calls, report_calls, archive;
  match goal with
  | |- context [String.eqb ?a ?b] => destruct (String.eqb a b)
  end;
  cbn [flat_map filter is_savez app]; rewrite ?app_nil_r.

(** X8.  In a run that ends normally, the epochs that get a log line are
    exactly the multiples of the log interval among 1, ..., epochs, in
    increasing order. *)
Theorem logged_epochs_of_run fw args h :
  recognized_dataset args -> recognized_sampler args -> recognized_gcn_type args ->
  edges_ok (dataset_0 (chosen_dataset fw args)) ->
  main fw args [] = (h, Ok tt) ->
  logged_epochs h
  = filter (fun epoch => (epoch mod Args.log_interval args =? 0)%Z)
           (range1 (Args.epochs args + 1)).
Proof.
  intros D S G W Hm.
  destruct (run_shape fw args h D S G W Hm)
    as (model & tr & s & ma & i & mf & j & -> & C & _).
  pose proof (loop_logged_epochs _ _ _ _ _ C) as L.
  unfold logged_epochs in *. rewrite !flat_map_app, L.
  outside_loop; reflexivity.
Qed.

(** X9.  In a run that ends normally, training operations and evaluations
    alternate: one training operation then one evaluation, once per epoch,
    and nothing else starts a training or an evaluation. *)
Theorem phases_of_run fw args h :
  recognized_dataset args -> recognized_sampler args -> recognized_gcn_type args ->
  edges_ok (dataset_0 (chosen_dataset fw args)) ->
  main fw args [] = (h, Ok tt) ->
  phases h
  = flat_map (fun _ => [model_train; model_eval]) (range1 (Args.epochs args + 1)).
Proof.
  intros D S G W Hm.
  destruct (run_shape fw args h D S G W Hm)
    as (model & tr & s & ma & i & mf & j & -> & C & _).
  pose proof (loop_phases _ _ _ _ _ C) as L.
  unfold phases in *. rewrite !flat_map_app, L.
  outside_loop; reflexivity.
Qed.

(** X10.  In a run that ends normally, every per-epoch log line shows the
    values the archive holds for that epoch: the line of epoch [e] carries
    the entries at position [e - 1] of the arrays train_acc, train_f1,
    test_acc and test_f1 that are written at the end. *)
Theorem log_lines_match_archive fw args h :
  recognized_dataset args -> recognized_sampler args -> recognized_gcn_type args ->
  edges_ok (dataset_0 (chosen_dataset fw args)) ->
  main fw args [] = (h, Ok tt) ->
  exists train_acc test_acc train_f1 test_f1,
    filter is_savez h = [archive fw args train_acc test_acc train_f1 test_f1] /\
    Forall (line_matches train_acc test_acc train_f1 test_f1) (logged_metrics h).
Proof.
  intros D S G W Hm.
  destruct (run_shape fw args h D S G W Hm)
    as (model & tr & s & ma & i & mf & j & -> & C & _).
  exists (summary_accs_train s), (summary_accs_test s),
    (summary_f1s_train s), (summary_f1s_test s).
  split.
  - rewrite !filter_app.
    rewrite (filter_quiet loop_call is_savez tr)
      by (try (intros e; destruct e; cbn; tauto || discriminate);
          eapply loop_calls_loop_call; eassumption).
    reflexivity.
  - pose proof (loop_logged_metrics _ (Z.to_nat (Args.epochs args + 1 - 1)) 0
                  (mkSummary [] [] [] []) s tr C) as L.
    unfold logged_metrics in *. rewrite !flat_map_app.
    outside_loop; apply L; repeat split.
Qed.

Lemma toy_recognized epochs :
  recognized_dataset (Toy.args epochs) /\ recognized_sampler (Toy.args epochs) /\
  recognized_gcn_type (Toy.args epochs).
Proof. split; [now left|]. split; [now right | now left]. Qed.

Lemma toy_run_ok :
  main Toy.fw (Toy.args 2) [] = (fst (main Toy.fw (Toy.args 2) []), Ok tt).
Proof. vm_compute. reflexivity. Qed.

Lemma logged_epochs_of_run_witness :
  main Toy.fw (Toy.args 2) [] = (fst (main Toy.fw (Toy.args 2) []), Ok tt) /\
  logged_epochs (fst (main Toy.fw (Toy.args 2) []))
  = filter (fun epoch => (epoch mod 1 =? 0)%Z) (range1 3).
Proof.
  split; [exact toy_run_ok|].
  destruct (toy_recognized 2) as (D & S & G).
  exact (logged_epochs_of_run Toy.fw (Toy.args 2) _ D S G toy_edges_ok toy_run_ok).
Defined.

Lemma phases_of_run_witness :
  main Toy.fw (Toy.args 2) [] = (fst (main Toy.fw (Toy.args 2) []), Ok tt) /\
  phases (fst (main Toy.fw (Toy.args 2) []))
  = [model_train; model_eval; model_train; model_eval].
Proof.
  split; [exact toy_run_ok|].
  destruct (toy_recognized 2) as (D & S & G).
  exact (phases_of_run Toy.fw (Toy.args 2) _ D S G toy_edges_ok toy_run_ok).
Defined.

Lemma log_lines_match_archive_witness :
  main Toy.fw (Toy.args 2) [] = (fst (main Toy.fw (Toy.args 2) []), Ok tt) /\
  exists train_acc test_acc train_f1 test_f1,
    filter is_savez (fst (main Toy.fw (Toy.args 2) []))
    = [archive Toy.fw (Toy.args 2) train_acc test_acc train_f1 test_f1] /\
    Forall (line_matches train_acc test_acc train_f1 test_f1)
           (logged_metrics (fst (main Toy.fw (Toy.args 2) []))).
Proof.
  split; [exact toy_run_ok|].
  destruct (toy_recognized 2) as (D & S & G).
  exact (log_lines_match_archive Toy.fw (Toy.args 2) _ D S G toy_edges_ok toy_run_ok).
Defined.

(** ** The best epochs of a run *)

Lemma np_argmax_first a m i :
  np_max a = Ok m -> np_argmax a = Ok i ->
  forall k, k < i -> (nth k a 0 < m)%Q.
Proof.
  destruct a as [|v a]; [discriminate|]. cbn [np_max np_argmax].
  intros [= <-] [= <-] k Hk.
  apply (argmax_from_first a [v] v 0); try assumption.
  - cbn. lia.
  - reflexivity.
  - intros u [<-|[]]. apply Qle_refl.
  - intros j Hj. lia.
Qed.

Lemma np_argmax_first_maximum a m i :
  np_max a = Ok m -> np_argmax a = Ok i -> first_maximum a i m.
Proof.
  intros Hm Hi.
  destruct (np_argmax_is_position_of_max a m i Hm Hi) as (L & V & U).
  repeat split; try assumption. now apply (np_argmax_first a m i).
Qed.

(** X11.  In a run that ends normally the final report gives, for the test
    accuracy, the maximum of the test_acc array of the archive, the first
    position at which the array takes it (counted from 0, so below the
    number of epochs) as the "epoch", and the entry of test_f1 at the same
    position; and likewise for the test macro-F1 with the entry of
    test_acc. *)
Theorem best_epochs_of_run fw args h :
  recognized_dataset args -> recognized_sampler args -> recognized_gcn_type args ->
  edges_ok (dataset_0 (chosen_dataset fw args)) ->
  main fw args [] = (h, Ok tt) ->
  exists train_acc test_acc train_f1 test_f1 best_acc acc_at best_f1 f1_at,
    filter is_savez h = [archive fw args train_acc test_acc train_f1 test_f1] /\
    reported_best_epochs h = [acc_at; f1_at] /\
    In (logger_info (Msg_best_acc best_acc acc_at (nth acc_at test_f1 0%Q))) h /\
    In (logger_info (Msg_best_f1 best_f1 f1_at (nth f1_at test_acc 0%Q))) h /\
    first_maximum test_acc acc_at best_acc /\
    first_maximum test_f1 f1_at best_f1 /\
    acc_at < Z.to_nat (Args.epochs args) /\ f1_at < Z.to_nat (Args.epochs args).
Proof.
  intros D S G W Hm.
  destruct (run_shape fw args h D S G W Hm)
    as (model & tr & s & ma & i & mf & j & -> & C & Ma & Ei & Mf & Ej).
  pose proof (loop_calls_loop_call _ _ _ _ _ C) as Lc.
  pose proof (np_argmax_first_maximum _ _ _ Ma Ei) as Fa.
  pose proof (np_argmax_first_maximum _ _ _ Mf Ej) as Ff.
  destruct (loop_summary_size _ _ _ _ _ 0 C) as (_ & S2 & _ & S4);
    [repeat split|].
  rewrite range1_length in S2, S4. cbn [Nat.add] in S2, S4.
  exists (summary_accs_train s), (summary_accs_test s),
    (summary_f1s_train s), (summary_f1s_test s), ma, i, mf, j.
  split.
  { rewrite !filter_app.
    rewrite (filter_quiet loop_call is_savez tr)
      by (try (intros e; destruct e; cbn; tauto || discriminate); exact Lc).
    reflexivity. }
  split.
  { unfold reported_best_epochs. rewrite !flat_map_app.
    rewrite (flat_map_quiet loop_call _ tr)
      by (try (intros e He; destruct e; cbn in He; try contradiction; try reflexivity;
               match goal with m : log_msg |- _ => destruct m end;
               cbn in He; try contradiction; reflexivity);
          exact Lc).
    outside_loop; reflexivity. }
  split; [unfold report_calls; rewrite !in_app_iff; cbn; tauto|].
  split; [unfold report_calls; rewrite !in_app_iff; cbn; tauto|].
  split; [exact Fa|]. split; [exact Ff|].
  destruct Fa as (La & _). destruct Ff as (Lf & _). lia.
Qed.

Lemma best_epochs_of_run_witness :
  main Toy.fw (Toy.args 2) [] = (fst (main Toy.fw (Toy.args 2) []), Ok tt) /\
  exists acc_at f1_at,
    reported_best_epochs (fst (main Toy.fw (Toy.args 2) [])) = [acc_at; f1_at] /\
    acc_at < 2 /\ f1_at < 2.
Proof.
  split; [exact toy_run_ok|].
  destruct (toy_recognized 2) as (D & S & G).
  destruct (best_epochs_of_run Toy.fw (Toy.args 2) _ D S G toy_edges_ok toy_run_ok)
    as (a1 & a2 & a3 & a4 & ma & i & mf & j & _ & R & _ & _ & _ & _ & Hi & Hj).
  exists i, j. split; [exact R|]. split; [exact Hi | exact Hj].
Defined.

(** ** Runs that do not end normally *)

Lemma range1_nil epochs : (epochs <= 0)%Z -> range1 (epochs + 1) = [].
Proof.
  intros H. unfold range1, range_from.
  replace (Z.to_nat (epochs + 1 - 1)) with 0 by lia. reflexivity.
Qed.

Lemma range1_cons epochs :
  (1 <= epochs)%Z ->
  range1 (epochs + 1) = 1%Z :: range_from 2 (Z.to_nat epochs - 1).
Proof.
  intros H. unfold range1.
  replace (Z.to_nat (epochs + 1 - 1)) with (S (Z.to_nat epochs - 1)) by lia.
  now rewrite range_from_S.
Qed.

(** X12.  With recognized names and zero (or a negative number of) epochs,
    the script constructs the model and the optimizer, trains and evaluates
    nothing, logs the two header lines of the report and ends with a
    [ValueError] on the maximum of an empty array: no best epoch is logged
    and no archive is written. *)
Theorem no_epoch_run fw args :
  recognized_dataset args -> recognized_sampler args -> recognized_gcn_type args ->
  edges_ok (dataset_0 (chosen_dataset fw args)) ->
  (Args.epochs args <= 0)%Z ->
  exists model,
    main fw args []
    = ((logger_calls fw args ++ dataset_calls fw args ++ sampler_calls fw args)
       ++ [Net_init model; Adam_init (1 # 1000);
           logger_info Msg_results;
           logger_info (Msg_setting (get_log_name fw args "test"))],
       Raise ValueError).
Proof.
  intros D S G W He.
  rewrite (main_startup fw args D S W). unfold after_startup.
  destruct (select_net_known args G) as (cls & En). rewrite En.
  rewrite (range1_nil _ He).
  eexists. unfold construct_model, report, bind, emit, ret, lift. cbn.
  rewrite <- ?app_assoc. reflexivity.
Qed.

Lemma no_epoch_run_witness :
  (Args.epochs (Toy.args 0) <= 0)%Z /\
  snd (main Toy.fw (Toy.args 0) []) = Raise ValueError.
Proof.
  assert (He : (Args.epochs (Toy.args 0) <= 0)%Z) by (cbn; lia).
  split; [exact He|].
  destruct (toy_recognized 0) as (D & S & G).
  destruct (no_epoch_run Toy.fw (Toy.args 0) D S G toy_edges_ok He) as (model & H).
  exact (f_equal snd H).
Defined.

Lemma epoch_body_zero_interval fw args epoch s h :
  run_conditions fw args -> Args.log_interval args = 0%Z ->
  exists tr,
    epoch_body fw args (prepared_graph fw args) (chosen_loader fw args) epoch s h
    = (h ++ tr, Raise ZeroDivisionError)
    /\ forall p, marks_phases p ->
         count_ev p tr = Nat.b2n (p model_train) + Nat.b2n (p model_eval).
Proof.
  intros C Li. unfold epoch_body.
  destruct (train_step_calls fw (Args.train_sample args) (Args.loss_norm args)
              (prepared_graph fw args) (chosen_loader fw args) h) as (tr1 & T1 & C1).
  fold (train_op fw args) in *. fold (eval_op fw args).
  destruct (train_op_total fw args C h) as (h1 & loss & E1).
  rewrite E1 in T1. cbn [fst] in T1. subst h1.
  rewrite (bind_ok _ _ _ _ _ E1).
  destruct (eval_step_calls fw (Args.eval_sample args) (Args.loss_norm args)
              (prepared_graph fw args) (chosen_loader fw args) (h ++ tr1))
    as (tr2 & T2 & C2).
  fold (eval_op fw args) in *.
  destruct (eval_op_total fw args C (h ++ tr1)) as (h2 & res & E2).
  rewrite E2 in T2. cbn [fst] in T2. subst h2.
  rewrite (bind_ok _ _ _ _ _ E2). rewrite Li.
  exists (tr1 ++ tr2). split.
  - unfold bind, raise. cbn. now rewrite <- app_assoc.
  - intros p Hp. now rewrite count_ev_app, (C1 p Hp), (C2 p Hp).
Qed.

(** X13.  With a log interval of 0 (and at least one epoch, the selected
    operations meeting their preconditions) the script trains once and
    evaluates once, then ends with a division by zero on
    [epoch % log_interval]: nothing is appended to the summary, no second
    epoch starts and no archive is written. *)
Theorem zero_log_interval_run fw args :
  recognized_dataset args -> recognized_sampler args -> recognized_gcn_type args ->
  edges_ok (dataset_0 (chosen_dataset fw args)) -> run_conditions fw args ->
  (1 <= Args.epochs args)%Z -> Args.log_interval args = 0%Z ->
  exists h,
    main fw args [] = (h, Raise ZeroDivisionError) /\
    count_ev is_train h = 1 /\ count_ev is_eval h = 1 /\ count_ev is_savez h = 0.
Proof.
  intros D S G W C He Li.
  rewrite (main_startup fw args D S W). unfold after_startup.
  destruct (select_net_known args G) as (cls & En). rewrite En.
  set (h0 := logger_calls fw args ++ dataset_calls fw args ++ sampler_calls fw args).
  set (model := mkModel cls (num_node_features (chosen_dataset fw args)) 256
                        (num_classes (chosen_dataset fw args)) (select_device fw args)).
  assert (Em : construct_model (Some cls) (chosen_dataset fw args) (select_device fw args) h0
               = (h0 ++ [Net_init model], Ok model)) by reflexivity.
  rewrite (bind_ok _ _ _ _ _ Em). unfold bind at 1, emit at 1.
  rewrite (range1_cons _ He). cbn [for_each].
  destruct (epoch_body_zero_interval fw args 1%Z (mkSummary [] [] [] [])
              ((h0 ++ [Net_init model]) ++ [Adam_init (1 # 1000)]) C Li)
    as (tr & Eb & Ct).
  rewrite (bind_raise _ _ _ _ _ (bind_raise _ _ _ _ _ Eb)).
  eexists. split; [reflexivity|].
  rewrite !count_ev_app, !(Ct _ marks_phases_train), !(Ct _ marks_phases_eval),
    !(Ct _ marks_phases_savez).
  subst h0. unfold logger_calls, dataset_calls, sampler_calls.
  repeat split; cbn; lia.
Qed.

Lemma zero_log_interval_run_witness :
  exists h,
    main Toy.fw Toy_zero_interval [] = (h, Raise ZeroDivisionError) /\
    count_ev is_train h = 1 /\ count_ev is_eval h = 1 /\ count_ev is_savez h = 0.
Proof.
  assert (D : recognized_dataset Toy_zero_interval) by (now left).
  assert (S : recognized_sampler Toy_zero_interval) by (now right).
  assert (G : recognized_gcn_type Toy_zero_interval) by (now left).
  assert (C : run_conditions Toy.fw Toy_zero_interval)
    by exact (toy_run_conditions 2).
  assert (He : (1 <= Args.epochs Toy_zero_interval)%Z) by (cbn; lia).
  exact (zero_log_interval_run Toy.fw Toy_zero_interval D S G toy_edges_ok C He eq_refl).
Defined.

(** ** No archive without a normal end *)

Lemma clean_bind fw {A B : Type} (m : M A) (k : A -> M B) :
  adds (fun c => is_savez c = false) m -> (forall a, clean_on_raise fw (k a)) ->
  clean_on_raise fw (bind m k).
Proof.
  intros Hm Hk h h' e H. destruct (Hm h) as (tr & E & F). unfold bind in H.
  destruct (m h) as [h1 [a|e1]]; cbn [fst] in E; subst h1.
  - destruct (Hk a _ _ _ H) as (tr' & -> & [Q|(tr0 & path & arrays & -> & Q0 & R)]).
    + exists (tr ++ tr'). split; [now rewrite app_assoc|]. left. now apply Forall_app.
    + exists (tr ++ tr0 ++ [np_savez path arrays]).
      split; [now rewrite <- !app_assoc|]. right.
      exists (tr ++ tr0), path, arrays. split; [now rewrite <- app_assoc|].
      split; [now apply Forall_app|]. now rewrite app_assoc.
  - injection H as <- _. exists tr. auto.
Qed.

Lemma clean_report fw log_name s : clean_on_raise fw (report fw log_name s).
Proof.
  intros h h' e H. unfold report, bind, emit, lift, past in H.
  destruct (np_max (summary_accs_test s)) as [ma|e1];
    [|injection H as <- _; eexists; split;
      [rewrite <- ?app_assoc; reflexivity | left; repeat constructor]].
  destruct (np_argmax (summary_accs_test s)) as [i|e1];
    [|injection H as <- _; eexists; split;
      [rewrite <- ?app_assoc; reflexivity | left; repeat constructor]].
  destruct (list_index (summary_f1s_test s) i) as [fi|e1];
    [|injection H as <- _; eexists; split;
      [rewrite <- ?app_assoc; reflexivity | left; repeat constructor]].
  destruct (np_max (summary_f1s_test s)) as [mf|e1];
    [|injection H as <- _; eexists; split;
      [rewrite <- ?app_assoc; reflexivity | left; repeat constructor]].
  destruct (np_argmax (summary_f1s_test s)) as [j|e1];
    [|injection H as <- _; eexists; split;
      [rewrite <- ?app_assoc; reflexivity | left; repeat constructor]].
  destruct (list_index (summary_accs_test s) j) as [aj|e1];
    [|injection H as <- _; eexists; split;
      [rewrite <- ?app_assoc; reflexivity | left; repeat constructor]].
  destruct (np_savez_result fw _ _) as [u|e1] eqn:Es; [discriminate H|].
  injection H as <- <-.
  rewrite <- !app_assoc in Es. cbn [app] in Es.
  eexists. split; [rewrite <- !app_assoc; cbn [app]; reflexivity|].
  right.
  exists [logger_info Msg_results; logger_info (Msg_setting log_name);
          logger_info (Msg_best_acc ma i fi); logger_info (Msg_best_f1 mf j aj)].
  eexists. eexists. split; [reflexivity|].
  split; [repeat constructor | exact Es].
Qed.

Lemma epoch_body_adds fw args data loader epoch s :
  adds loop_call (epoch_body fw args data loader epoch s).
Proof.
  unfold epoch_body.
  apply adds_bind; [apply train_step_adds | intros loss].
  apply adds_bind; [apply eval_step_adds | intros res].
  apply adds_bind.
  - destruct (Args.log_interval args =? 0)%Z; [apply adds_raise|].
    destruct (epoch mod Args.log_interval args =? 0)%Z; repeat adds_step. exact I.
  - intros _. repeat adds_step.
Qed.

Lemma main_clean fw args :
  clean_on_raise fw
    (bind (select_dataset fw args) (fun dataset =>
     bind (emit (logger_info (Msg_dataset (Args.dataset args)))) (fun _ =>
     bind (lift (norm_by_in_degree (dataset_0 dataset))) (fun data =>
     bind (select_sampler args dataset data) (fun loader =>
     bind (emit (logger_info (Msg_gcn_type (Args.gcn_type args)))) (fun _ =>
     bind (construct_model (select_net args) dataset (select_device fw args)) (fun _ =>
     bind (emit (Adam_init (1 # 1000))) (fun _ =>
     bind (for_each (range1 (Args.epochs args + 1))
             (epoch_body fw args data loader) (mkSummary [] [] [] [])) (fun s =>
     report fw (get_log_name fw args "test") s))))))))).
Proof.
  apply clean_bind; [|intros dataset].
  { unfold select_dataset.
    repeat match goal with |- adds _ (if ?c then _ else _) => destruct c end;
      repeat adds_step; reflexivity. }
  apply clean_bind; [repeat adds_step; reflexivity | intros _].
  apply clean_bind; [apply adds_lift | intros data].
  apply clean_bind; [|intros loader].
  { unfold select_sampler.
    repeat match goal with |- adds _ (if ?c then _ else _) => destruct c end;
      repeat adds_step; reflexivity. }
  apply clean_bind; [repeat adds_step; reflexivity | intros _].
  apply clean_bind; [|intros _].
  { unfold construct_model. destruct (select_net args); repeat adds_step.
    reflexivity. }
  apply clean_bind; [repeat adds_step; reflexivity | intros _].
  apply clean_bind; [|intros s; apply clean_report].
  apply adds_for_each. intros epoch s.
  eapply adds_weaken; [apply loop_call_no_savez | apply epoch_body_adds].
Qed.

Lemma logger_calls_quiet fw args :
  Forall (fun c => is_savez c = false) (logger_calls fw args).
Proof. unfold logger_calls. repeat constructor. Qed.

(** X14.  A run that does not end normally has written no archive: whenever
    the script raises, whatever the command line and the libraries'
    answers, either [np.savez] was not called, or its call is the last call
    of the run and the error of the run is the one that call ended with;
    in both cases no file was written. *)
Theorem no_archive_on_failure fw args h e :
  main fw args [] = (h, Raise e) ->
  (filter is_savez h = [] \/
   exists h0 path arrays,
     h = h0 ++ [np_savez path arrays] /\ filter is_savez h0 = [] /\
     np_savez_result fw h0 path = Raise e) /\
  files_written fw h = [].
Proof.
  intros H. rewrite main_logger in H.
  destruct (main_clean fw args _ _ _ H) as (tr & -> & K).
  pose proof (logger_calls_quiet fw args) as Ql.
  destruct K as [Q|(tr0 & path & arrays & -> & Q0 & R)].
  - assert (Qa : Forall (fun c => is_savez c = false) (logger_calls fw args ++ tr))
      by (now apply Forall_app).
    split.
    + left. apply (filter_quiet (fun c => is_savez c = false)); auto.
    + now apply files_from_quiet.
  - assert (Qa : Forall (fun c => is_savez c = false) (logger_calls fw args ++ tr0))
      by (now apply Forall_app).
    split.
    + right. exists (logger_calls fw args ++ tr0), path, arrays.
      split; [now rewrite app_assoc|].
      split; [apply (filter_quiet (fun c => is_savez c = false)); auto | exact R].
    + unfold files_written. rewrite app_assoc, files_from_app.
      rewrite (files_from_quiet fw _ [] Qa). cbn [app files_from]. now rewrite R.
Qed.

Lemma no_archive_on_failure_witness :
  main Toy.fw_no_summary_dir (Toy.args 1) []
  = (fst (main Toy.fw_no_summary_dir (Toy.args 1) []), Raise FileNotFoundError) /\
  files_written Toy.fw_no_summary_dir (fst (main Toy.fw_no_summary_dir (Toy.args 1) []))
  = [].
Proof.
  assert (H : main Toy.fw_no_summary_dir (Toy.args 1) []
              = (fst (main Toy.fw_no_summary_dir (Toy.args 1) []),
                 Raise FileNotFoundError))
    by (vm_compute; reflexivity).
  split; [exact H|].
  exact (proj2 (no_archive_on_failure Toy.fw_no_summary_dir (Toy.args 1) _ _ H)).
Defined.

(** ** Per-edge tensors that do not fit *)

Lemma broadcast_refused {A B C : Type} (f : A -> B -> C) a b :
  length a <> length b -> length a <> 1 -> length b <> 1 ->
  broadcast f a b = Raise RuntimeError.
Proof.
  intros N Na Nb. unfold broadcast. apply Nat.eqb_neq in N. rewrite N.
  destruct a as [|u [|u' a]]; destruct b as [|v [|v' b]]; cbn [length] in *;
    try reflexivity; congruence.
Qed.

(** X18.  With the flag 1, a first batch whose [edge_norm] and [edge_attr]
    cannot be multiplied ends [train_sample] and [eval_sample] with a
    [RuntimeError] before any forward pass: training has only zeroed the
    gradients, no loss was back-propagated and no optimizer step taken. *)
Theorem mismatched_edge_tensors_raise fw loader h data rest :
  edges_clash data ->
  (loader_batches fw loader (h ++ [model_train; model_set_aggr "add"]) = data :: rest ->
   train_sample fw loader 1 h
   = (h ++ [model_train; model_set_aggr "add"; loader_iter; optimizer_zero_grad],
      Raise RuntimeError)) /\
  (loader_batches fw loader (h ++ [model_eval; model_set_aggr "add"]) = data :: rest ->
   eval_sample fw loader 1 h
   = (h ++ [model_eval; model_set_aggr "add"; loader_iter], Raise RuntimeError)).
Proof.
  intros (N & Na & Nb).
  pose proof (broadcast_refused Qmult _ _ N Na Nb) as B.
  fold (tensor_mul (edge_norm data) (edge_attr data)) in B.
  split; intros Eb.
  - rewrite train_sample_run, Eb. cbn [for_each].
    unfold train_sample_body, bind, emit, lift. cbn [Z.eqb Pos.eqb fst snd].
    rewrite B. now rewrite <- !app_assoc.
  - rewrite eval_sample_run, Eb. cbn [for_each].
    unfold eval_sample_body, bind, emit, lift. cbn [Z.eqb Pos.eqb fst snd].
    rewrite B. now rewrite <- !app_assoc.
Qed.

Lemma mismatched_edge_tensors_raise_witness :
  edges_clash Toy.graph /\
  train_sample Toy.fw Toy_raw_loader 1 []
  = ([model_train; model_set_aggr "add"; loader_iter; optimizer_zero_grad],
     Raise RuntimeError) /\
  eval_sample Toy.fw Toy_raw_loader 1 []
  = ([model_eval; model_set_aggr "add"; loader_iter], Raise RuntimeError).
Proof.
  assert (C : edges_clash Toy.graph) by (repeat split; discriminate).
  split; [exact C|].
  destruct (mismatched_edge_tensors_raise Toy.fw Toy_raw_loader [] Toy.graph [Toy.graph] C)
    as (T & E).
  split; [exact (T eq_refl) | exact (E eq_refl)].
Defined.

